(** * solarnet.utils.ml: class weights and checkpoint selection

    A shallow embedding of [compute_class_weights] and
    [find_best_checkpoint] from [src/solarnet/utils/ml.py], and the
    properties of the two functions.

    Numbers.  [compute_class_weights] is embedded twice.

    The module [B64] follows Python's arithmetic: a count is an [int] of
    any size, every product, sum and quotient is a binary64 [float], the
    exact result rounded to the nearest float, with the infinities and
    NaN; the conversion of an [int] and the quotient of two [int]s raise
    [OverflowError] beyond the range of the floats.  What depends on the
    rounding of the operations, on the size of the counts or on the
    exceptions of the call is stated on this embedding.

    The second embedding reads the numbers as exact rationals ([Q]):
    [/] raises [ZeroDivisionError] on a zero divisor, and [round(x, 2)]
    rounds [x] to the nearest multiple of 1/100, ties to the even
    multiple.  It leaves out the rounding error of [*], [+] and [/] and
    the floats that are not finite, and carries the properties that do
    not depend on them; the concrete inputs given for it are chosen so
    that every intermediate value is a binary64 number and the operations
    are exact on them.  The metrics of [find_best_checkpoint] are read as
    rationals as well.

    Exceptions.  Python raises; the embedding returns [Err e].

    Mutation.  [compute_class_weights] updates the dictionary it is given,
    so its embedding returns the final contents of that dictionary next to
    the outcome of the call. *)

From Stdlib Require Import QArith Qround Qminmax Qabs Qpower Lqa ZArith Lia.
From Stdlib Require SpecFloat.
From Stdlib Require Import Ascii String.
From stdpp Require Import gmap strings list fin_maps.

Local Open Scope Q_scope.

(** ** Exceptions *)

Inductive assertion : Set :=
  | SmoothingOutOfRange   (* "Smoothing factor out of range" *)
  | NoModelsFound         (* "No models found for pattern ..." *)
  | UnknownModelType.     (* "Unknown model type ..." *)

Inductive value_error : Set :=
  | MaxOfEmpty            (* max() of an empty sequence *)
  | EmptySeparator        (* str.split with an empty separator *)
  | Unpack                (* too many / not enough values to unpack *)
  | FloatOfString.        (* could not convert string to float *)

Inductive exception : Set :=
  | AssertionError (a : assertion)
  | ValueError (v : value_error)
  | ZeroDivisionError.

Inductive result (A : Type) : Type :=
  | Ok (a : A)
  | Err (e : exception).
Arguments Ok {A} a.
Arguments Err {A} e.

Definition rbind {A B} (r : result A) (f : A -> result B) : result B :=
  match r with
  | Ok a => f a
  | Err e => Err e
  end.

Notation "'let*' x ':=' r 'in' k" := (rbind r (fun x => k))
  (at level 10, x pattern, r at level 100, k at level 200).

Definition is_ok {A} (r : result A) : bool :=
  match r with Ok _ => true | Err _ => false end.

(** [assert cond, msg] *)
Definition py_assert (cond : bool) (a : assertion) : result unit :=
  if cond then Ok tt else Err (AssertionError a).

(** ** Numbers *)

(** Python's truth value of a number: [not x] holds exactly for zero. *)
Definition truthy (x : Q) : bool := negb (Qeq_bool x 0).

(** [max(xs)]: the first largest element, [ValueError] on an empty
    sequence. *)
Definition py_max (xs : list Q) : result Q :=
  match xs with
  | [] => Err (ValueError MaxOfEmpty)
  | x :: xs' =>
      Ok (fold_left (fun best y => if Qlt_le_dec best y then y else best) xs' x)
  end.

(** [a / b] on numbers. *)
Definition py_truediv (a b : Q) : result Q :=
  if Qeq_bool b 0 then Err ZeroDivisionError else Ok (a / b).

(** Nearest integer, ties to the even one. *)
Definition round_half_even (x : Q) : Z :=
  let f := Qfloor x in
  match Qcompare (x - inject_Z f) (1 # 2) with
  | Lt => f
  | Gt => (f + 1)%Z
  | Eq => if Z.even f then f else (f + 1)%Z
  end.

(** [round(x, ndigits=2)] *)
Definition py_round2 (x : Q) : Q :=
  Qred (round_half_even (x * 100) # 100).

(** [np.clip(x, lo, hi)], which is [minimum(maximum(x, lo), hi)]. *)
Definition np_clip (x lo hi : Q) : Q := Qmin (Qmax x lo) hi.

(** The value of [np.clip(round(float(majority / v), ndigits=2), 0, clip)]
    for a non-zero [v]. *)
Definition weight_value (majority clip v : Q) : Q :=
  np_clip (py_round2 (majority / v)) 0 clip.

(** Rounding to 2 places as the specification words it, "conventional
    half-up": a tie goes to the larger multiple of 1/100.  It is compared
    with [py_round2] below and is not part of the code. *)
Definition round_half_up2 (x : Q) : Q :=
  Qred (Qfloor (x * 100 + (1 # 2)) # 100).

(** ** [compute_class_weights] *)

Section ClassWeights.
Context {K : Type} `{Countable K}.

(** [data.values()] *)
Definition values (data : gmap K Q) : list Q := (map_to_list data).*2.

(** [for k in data.keys(): data[k] += smoothed_maxval] *)
Definition add_to_all (smoothed_maxval : Q) (data : gmap K Q) : gmap K Q :=
  (fun v => v + smoothed_maxval) <$> data.

(** One entry of the comprehension:
    [np.clip(round(float(majority / v), ndigits=2), 0, clip)]. *)
Definition weight (majority clip v : Q) : result Q :=
  let* r := py_truediv majority v in
  Ok (np_clip (py_round2 r) 0 clip).

(** [{k: f(v) for k, v in data.items()}]: the entries are evaluated in
    the order of [items()] and the first exception ends the evaluation. *)
Fixpoint comprehension (f : Q -> result Q) (items : list (K * Q))
  : result (list (K * Q)) :=
  match items with
  | [] => Ok []
  | (k, v) :: rest =>
      let* w := f v in
      let* ws := comprehension f rest in
      Ok ((k, w) :: ws)
  end.

(** The smoothing step: the dictionary after the [if smoothing > 0]
    block, or the exception [max] raised there. *)
Definition smooth (data : gmap K Q) (smoothing : Q) : result (gmap K Q) :=
  if Qlt_le_dec 0 smoothing then
    let* m := py_max (values data) in
    let smoothed_maxval := m * smoothing in
    Ok (add_to_all smoothed_maxval data)
  else Ok data.

(** The call [compute_class_weights(data, smoothing, clip)].  The first
    component is the dictionary [data] as the call leaves it, the second
    the returned dictionary or the exception raised. *)
Definition compute_class_weights (data : gmap K Q) (smoothing clip : Q)
  : gmap K Q * result (gmap K Q) :=
  match py_assert (Qle_bool 0 smoothing && Qle_bool smoothing 1)
                  SmoothingOutOfRange with
  | Err e => (data, Err e)
  | Ok _ =>
      match smooth data smoothing with
      | Err e => (data, Err e)
      | Ok data' =>
          (data',
           let* majority := py_max (values data') in
           let* ws := comprehension (weight majority clip) (map_to_list data') in
           Ok (list_to_map ws))
      end
  end.

End ClassWeights.

(** The weight a call returned for class [k]: [None] when the call raised
    or returned no entry for [k]. *)
Definition returned_weight {K : Type} `{Countable K}
    (r : gmap K Q * result (gmap K Q)) (k : K) : option Q :=
  match r.2 with
  | Ok w => w !! k
  | Err _ => None
  end.

(** Dictionaries of the examples. *)
Definition counts_a4_b0 : gmap string Q := {[ "a"%string := 4; "b"%string := 0 ]}.

(** ** Binary64 arithmetic

    The numbers of [compute_class_weights] as Python has them.  A count is
    an [int], of any size; every product, sum and quotient is a [float], a
    binary64 number, and is the exact result rounded to the nearest
    binary64 number, ties to the even significand.  A finite float is
    embedded as the rational it denotes; the infinities and NaN are values
    of their own.  The sign of a zero is not kept: the function can observe
    it only by dividing by the zero, which Python refuses whatever the
    sign. *)

Module B64.

(** The exceptions of [compute_class_weights]: the assertion of line 56,
    [max] of an empty list (lines 59 and 64), an [int] too large to be
    converted to a [float] (lines 59, 61 and 65) and a zero divisor
    (line 65). *)
Inductive exception : Set :=
  | AssertionError (a : assertion)
  | ValueError (v : value_error)
  | OverflowError
  | ZeroDivisionError.

Inductive result (A : Type) : Type :=
  | Ok (a : A)
  | Err (e : exception).
Arguments Ok {A} a.
Arguments Err {A} e.

Definition rbind {A B} (r : result A) (f : A -> result B) : result B :=
  match r with
  | Ok a => f a
  | Err e => Err e
  end.

Notation "'let+' x ':=' r 'in' k" := (rbind r (fun x => k))
  (at level 10, x pattern, r at level 100, k at level 200).

Inductive float64 : Set :=
  | Finite (q : Q)
  | PosInf
  | NegInf
  | NaN.

(** A Python number: an [int] or a [float]. *)
Inductive number : Set :=
  | PyInt (n : Z)
  | PyFloat (x : float64).

(** *** Rounding to binary64 *)

Definition pow2 (e : Z) : Q := Qpower 2 e.

(** The integer [e] with [2^e <= x < 2^(e+1)], for a positive [x]. *)
Definition ilog2 (x : Q) : Z :=
  let l := (Z.log2 (Qnum x) - Z.log2 (Zpos (Qden x)))%Z in
  if Qle_bool (pow2 l) x then l else (l - 1)%Z.

(** The number nearest to [x] among the multiples of [2^e], where [e] is
    the exponent of the last of the 53 bits of [x], and -1074 for the
    subnormal numbers; on a tie the even multiple.  The exponent has no
    upper bound here: [fl] below turns a result of magnitude [2^1024] or
    more into an infinity. *)
Definition binary64 (x : Q) : Q :=
  let e := Z.max (ilog2 (Qabs x) - 52) (-1074) in
  Qred (inject_Z (round_half_even (x / pow2 e)) * pow2 e).

(** The same number by the Standard Library's specification of IEEE 754
    ([SpecFloat]): the quotient of the numerator by the denominator at
    precision 53, [None] where that is an infinity.  It is used to check
    [binary64] on sample inputs. *)
Definition spec_float_value (f : SpecFloat.spec_float) : option Q :=
  match f with
  | SpecFloat.S754_zero _ => Some 0
  | SpecFloat.S754_finite s m e =>
      Some (Qred ((if s then -1 else 1) * inject_Z (Zpos m) * pow2 e))
  | _ => None
  end.

Definition binary64_by_division (x : Q) : option Q :=
  match Qnum x with
  | Z0 => Some 0
  | Zpos n =>
      spec_float_value
        (SpecFloat.SFdiv 53 1024 (SpecFloat.S754_finite false n 0)
                         (SpecFloat.S754_finite false (Qden x) 0))
  | Zneg n =>
      spec_float_value
        (SpecFloat.SFdiv 53 1024 (SpecFloat.S754_finite true n 0)
                         (SpecFloat.S754_finite false (Qden x) 0))
  end.

(** The least magnitude that is no finite float. *)
Definition overflow_threshold : Q := pow2 1024.

(** *** Comparisons *)

Definition is_neg (x : float64) : bool :=
  match x with
  | Finite q => if Qlt_le_dec q 0 then true else false
  | NegInf => true
  | _ => false
  end.

(** [x == 0] *)
Definition is_zero (x : float64) : bool :=
  match x with
  | Finite q => Qeq_bool q 0
  | _ => false
  end.

Definition inf_of (neg : bool) : float64 := if neg then NegInf else PosInf.

(** [x < y] and [x <= y]: false as soon as one side is NaN. *)
Definition flt (x y : float64) : bool :=
  match x, y with
  | NaN, _ | _, NaN => false
  | _, NegInf | PosInf, _ => false
  | NegInf, _ | _, PosInf => true
  | Finite a, Finite b => if Qlt_le_dec a b then true else false
  end.

Definition fle (x y : float64) : bool :=
  match x, y with
  | NaN, _ | _, NaN => false
  | NegInf, _ | _, PosInf => true
  | _, NegInf | PosInf, _ => false
  | Finite a, Finite b => Qle_bool a b
  end.

(** The value of a number as Python compares it: an [int] is compared with
    a [float] by its exact value. *)
Definition exact (v : number) : float64 :=
  match v with
  | PyInt n => Finite (inject_Z n)
  | PyFloat x => x
  end.

(** [max(xs)]: the first largest element, [ValueError] on an empty
    sequence. *)
Definition py_max (xs : list number) : result number :=
  match xs with
  | [] => Err (ValueError MaxOfEmpty)
  | x :: xs' =>
      Ok (fold_left (fun best y => if flt (exact best) (exact y) then y else best)
                    xs' x)
  end.

(** [np.clip(x, lo, hi)] on floats: the larger of [x] and [lo], then the
    smaller of that and [hi], a NaN on either side giving NaN. *)
Definition np_clip (x lo hi : float64) : float64 :=
  let y := match x with
           | NaN => NaN
           | _ => if flt lo x then x else lo
           end in
  match y with
  | NaN => NaN
  | _ => if flt y hi then y else hi
  end.

(** *** The operations, for a rounding [rnd] of the exact results *)

Section Rounding.
Variable rnd : Q -> Q.

(** The float of a real result [x]. *)
Definition fl (x : Q) : float64 :=
  let y := rnd x in
  if Qle_bool overflow_threshold y then PosInf
  else if Qle_bool y (- overflow_threshold) then NegInf
  else Finite y.

(** [x * y], [x + y] and [x / y] on floats; [fdiv] is used with a non-zero
    divisor only. *)
Definition fmul (x y : float64) : float64 :=
  match x, y with
  | NaN, _ | _, NaN => NaN
  | Finite a, Finite b => fl (a * b)
  | _, _ => if is_zero x || is_zero y then NaN
            else inf_of (xorb (is_neg x) (is_neg y))
  end.

Definition fadd (x y : float64) : float64 :=
  match x, y with
  | NaN, _ | _, NaN => NaN
  | Finite a, Finite b => fl (a + b)
  | PosInf, NegInf | NegInf, PosInf => NaN
  | PosInf, _ | _, PosInf => PosInf
  | NegInf, _ | _, NegInf => NegInf
  end.

Definition fdiv (x y : float64) : float64 :=
  match x, y with
  | NaN, _ | _, NaN => NaN
  | Finite a, Finite b => fl (a / b)
  | Finite _, _ => Finite 0
  | _, Finite _ => inf_of (xorb (is_neg x) (is_neg y))
  | _, _ => NaN
  end.

(** [float(n)] for an [int]: [OverflowError] when the nearest float is an
    infinity. *)
Definition float_of_int (n : Z) : result float64 :=
  match fl (inject_Z n) with
  | Finite q => Ok (Finite q)
  | _ => Err OverflowError
  end.

(** The conversion of an operand of a float operation. *)
Definition to_float (v : number) : result float64 :=
  match v with
  | PyInt n => float_of_int n
  | PyFloat x => Ok x
  end.

(** [v * x] and [v + x] for a number [v] and a float [x]. *)
Definition mul_float (v : number) (x : float64) : result float64 :=
  let+ a := to_float v in Ok (fmul a x).

Definition add_float (v : number) (x : float64) : result float64 :=
  let+ a := to_float v in Ok (fadd a x).

(** [a / b].  Of two [int]s it is the exact quotient rounded once, with
    [OverflowError] when that is an infinity; otherwise both operands are
    converted and the floats divided. *)
Definition py_truediv (a b : number) : result float64 :=
  match a, b with
  | PyInt x, PyInt y =>
      if (y =? 0)%Z then Err ZeroDivisionError
      else match fl (inject_Z x / inject_Z y) with
           | Finite q => Ok (Finite q)
           | _ => Err OverflowError
           end
  | _, _ =>
      let+ x := to_float a in
      let+ y := to_float b in
      if is_zero y then Err ZeroDivisionError else Ok (fdiv x y)
  end.

(** [round(x, ndigits=2)]: the float nearest to the multiple of 1/100
    nearest to [x], the even multiple on a tie; an infinity and NaN are
    returned as they are. *)
Definition py_round2 (x : float64) : float64 :=
  match x with
  | Finite q => fl (round_half_even (q * 100) # 100)
  | _ => x
  end.

(** *** [compute_class_weights]

    The dictionary is the list of its items, in the order of the
    dictionary; an update in place keeps the order. *)

Section ClassWeights.
Context {K : Type}.

(** [data.values()] *)
Definition values (data : list (K * number)) : list number := data.*2.

(** [for k in data.keys(): data[k] += smoothed_maxval]: the dictionary as
    the loop leaves it, and the exception that ended it, if any. *)
Fixpoint add_to_all (smoothed_maxval : float64) (data : list (K * number))
  : list (K * number) * result unit :=
  match data with
  | [] => ([], Ok tt)
  | (k, v) :: rest =>
      match add_float v smoothed_maxval with
      | Err e => (data, Err e)
      | Ok v' =>
          let (rest', r) := add_to_all smoothed_maxval rest in
          ((k, PyFloat v') :: rest', r)
      end
  end.

(** What the loop does to an item it reaches: the count is converted to a
    float and [smoothed_maxval] added to it. *)
Definition updated (smoothed_maxval : float64) (old new : K * number) : Prop :=
  new.1 = old.1 /\
  exists a, to_float old.2 = Ok a /\ new.2 = PyFloat (fadd a smoothed_maxval).

(** One entry of the comprehension:
    [np.clip(round(float(majority / v), ndigits=2), 0, clip)]. *)
Definition weight (majority : number) (clip : float64) (v : number)
  : result float64 :=
  let+ r := py_truediv majority v in
  Ok (np_clip (py_round2 r) (Finite 0) clip).

(** [{k: f(v) for k, v in data.items()}] *)
Fixpoint comprehension (f : number -> result float64) (items : list (K * number))
  : result (list (K * float64)) :=
  match items with
  | [] => Ok []
  | (k, v) :: rest =>
      let+ w := f v in
      let+ ws := comprehension f rest in
      Ok ((k, w) :: ws)
  end.

(** The [if smoothing > 0] block. *)
Definition smooth (data : list (K * number)) (smoothing : float64)
  : list (K * number) * result unit :=
  if flt (Finite 0) smoothing then
    match py_max (values data) with
    | Err e => (data, Err e)
    | Ok m =>
        match mul_float m smoothing with
        | Err e => (data, Err e)
        | Ok smoothed_maxval => add_to_all smoothed_maxval data
        end
    end
  else (data, Ok tt).

(** The call [compute_class_weights(data, smoothing, clip)]: the
    dictionary [data] as the call leaves it, and the returned dictionary or
    the exception raised. *)
Definition compute_class_weights (data : list (K * number))
    (smoothing clip : float64)
  : list (K * number) * result (list (K * float64)) :=
  if fle (Finite 0) smoothing && fle smoothing (Finite 1) then
    let (data', r) := smooth data smoothing in
    (data',
     let+ _ := r in
     let+ majority := py_max (values data') in
     comprehension (weight majority clip) data')
  else (data, Err (AssertionError SmoothingOutOfRange)).

End ClassWeights.

(** The count [n] after the smoothing step of a dictionary of [int]s whose
    largest count is [m]: [n + m * smoothing]. *)
Definition smoothed_count (m : Z) (smoothing : float64) (n : Z) : float64 :=
  fadd (fl (inject_Z n)) (fmul (fl (inject_Z m)) smoothing).

(** [np.clip(round(q, ndigits=2), 0, clip)] *)
Definition round_clip (clip : float64) (q : float64) : float64 :=
  np_clip (py_round2 q) (Finite 0) clip.

(** The value of [smoothed_count] where it is finite. *)
Definition smoothed_value (m : Z) (s : Q) (n : Z) : Q :=
  rnd (rnd (inject_Z n) + rnd (rnd (inject_Z m) * s)).

End Rounding.

(** The largest count the properties on bounded counts allow: with it no
    conversion, sum or quotient of counts leaves the finite floats. *)
Definition count_bound : Z := 2 ^ 1022.

(** A dictionary of [int] counts, as the annotation [Dict[Any, int]] has
    it. *)
Definition ints {K : Type} (counts : list (K * Z)) : list (K * number) :=
  (fun item => (item.1, PyInt item.2)) <$> counts.

(** The float a decimal literal denotes. *)
Definition literal (x : Q) : float64 := fl binary64 x.

(** The default arguments [smoothing: float = 0.15] and
    [clip: float = 10.0]. *)
Definition default_smoothing : float64 := literal (15 # 100).
Definition default_clip : float64 := literal 10.

(** The unit roundoff of binary64. *)
Definition eps : Q := pow2 (-53).

(** What a rounding has to satisfy for the properties below; [binary64]
    does.  Rounding keeps zero and the powers of two of the float range,
    and it is monotone. *)
Record rounding (rnd : Q -> Q) : Prop := Rounding {
  rnd_zero : rnd 0 == 0;
  rnd_mono : forall x y : Q, 0 <= x -> x <= y -> rnd x <= rnd y;
  rnd_pow2 : forall e : Z, (0 <= e <= 1023)%Z -> rnd (pow2 e) == pow2 e
}.

End B64.

(** ** Strings *)

Local Open Scope string_scope.

(** [ch in s] for a character [ch]. *)
Fixpoint has_char (ch : ascii) (s : string) : bool :=
  match s with
  | EmptyString => false
  | String c s' => Ascii.eqb ch c || has_char ch s'
  end.

(** [s.startswith(p)] *)
Fixpoint starts_with (p s : string) : bool :=
  match p with
  | EmptyString => true
  | String a p' =>
      match s with
      | EmptyString => false
      | String b s' => Ascii.eqb a b && starts_with p' s'
      end
  end.

(** [os.path.basename(p)]: what follows the last ['/']. *)
Definition has_slash (p : string) : bool := has_char "/" p.

Fixpoint basename (p : string) : string :=
  match p with
  | EmptyString => EmptyString
  | String c p' =>
      if has_slash p' then basename p'
      else if Ascii.eqb "/" c then p' else p
  end.

(** [s.replace(old, new)] for a non-empty [old]: the occurrences of [old]
    are found from the left and do not overlap; [skip] counts the
    characters of a found occurrence still to be passed over. *)
Fixpoint replace_go (old new : string) (skip : nat) (s : string) : string :=
  match s with
  | EmptyString => EmptyString
  | String c s' =>
      match skip with
      | S n => replace_go old new n s'
      | O =>
          if starts_with old s
          then new ++ replace_go old new (String.length old - 1) s'
          else String c (replace_go old new 0 s')
      end
  end.

(** With an empty [old], Python puts [new] before every character and at
    the end. *)
Fixpoint intersperse (new : string) (s : string) : string :=
  match s with
  | EmptyString => new
  | String c s' => new ++ String c (intersperse new s')
  end.

Definition py_replace (s old new : string) : string :=
  match old with
  | EmptyString => intersperse new s
  | _ => replace_go old new 0 s
  end.

(** [s.split(sep)] for a non-empty [sep]; the result is never empty. *)
Fixpoint split_go (sep : string) (skip : nat) (s : string) : list string :=
  match s with
  | EmptyString => [EmptyString]
  | String c s' =>
      match skip with
      | S n => split_go sep n s'
      | O =>
          if starts_with sep s
          then EmptyString :: split_go sep (String.length sep - 1) s'
          else match split_go sep 0 s' with
               | h :: t => String c h :: t
               | [] => [String c EmptyString]
               end
      end
  end.

Definition py_split (s sep : string) : result (list string) :=
  match sep with
  | EmptyString => Err (ValueError EmptySeparator)
  | _ => Ok (split_go sep 0 s)
  end.

(** [metric_str.split("-")[-1]] *)
Definition metric_suffix (metric_str : string) : string :=
  List.last (split_go "-" 0 metric_str) EmptyString.

(** ** [find_best_checkpoint] *)

(** The tuple assignments
    [mtype, _, metric_str = components] (when [len(components) > 2]) and
    [mtype, metric_str = components] (otherwise). *)
Definition unpack_components (components : list string) : result (string * string) :=
  if (2 <? List.length components)%nat then
    match components with
    | [mtype; _; metric_str] => Ok (mtype, metric_str)
    | _ => Err (ValueError Unpack)
    end
  else
    match components with
    | [mtype; metric_str] => Ok (mtype, metric_str)
    | _ => Err (ValueError Unpack)
    end.

(** The loop variables [current_best] and [current_best_metric]. *)
Record best : Type := Best {
  current_best : option string;
  current_best_metric : option Q
}.

(** [not current_best_metric or current_best_metric < model_metric]:
    [not x] holds for [None] and for a zero. *)
Definition replaces (current_best_metric : option Q) (model_metric : Q) : bool :=
  match current_best_metric with
  | None => true
  | Some b => negb (truthy b) || (if Qlt_le_dec b model_metric then true else false)
  end.

Section CheckpointSelector.
(** Python's built-in [float] on strings: [Some] of the value, [None]
    where it raises [ValueError].  The values are rationals: a string
    that [float] reads as [nan] or as an infinity has no value of this
    type, and the properties below hold of lists of file names without
    such a metric. *)
Variable float : string -> option Q.

(** The components of a file name, up to the assertion on the model
    type: the model type and the metric string. *)
Definition name_fields (model_path divider : string) : result (string * string) :=
  let model_name := py_replace (basename model_path) ".pth" "" in
  let* components := py_split model_name divider in
  let* fields := unpack_components components in
  let* _ := py_assert (String.eqb fields.1 "classifier"
                       || String.eqb fields.1 "segmenter") UnknownModelType in
  Ok fields.

(** [float(metric_str.split("-")[-1])] *)
Definition parse_metric (metric_str : string) : result Q :=
  match float (metric_suffix metric_str) with
  | Some m => Ok m
  | None => Err (ValueError FloatOfString)
  end.

Definition model_metric (model_path divider : string) : result Q :=
  let* fields := name_fields model_path divider in
  parse_metric fields.2.

(** One iteration of the loop over [models]. *)
Definition visit (divider : string) (st : best) (model_path : string) : result best :=
  let* m := model_metric model_path divider in
  if replaces (current_best_metric st) m
  then Ok (Best (Some model_path) (Some m))
  else Ok st.

Fixpoint visit_all (divider : string) (st : best) (models : list string) : result best :=
  match models with
  | [] => Ok st
  | model_path :: rest =>
      let* st' := visit divider st model_path in
      visit_all divider st' rest
  end.

(** The call [find_best_checkpoint(folder, model_name, divider)], where
    [models] is the list that [glob] returns for the pattern. *)
Definition find_best_checkpoint (models : list string) (divider : string)
  : result (option string) :=
  let* _ := py_assert (0 <? List.length models)%nat NoModelsFound in
  let* st := visit_all divider (Best None None) models in
  Ok (current_best st).

End CheckpointSelector.

(** *** Decimal literals

    A reading of the strings [[+-]digits[.digits]] with at least one
    digit, which [float] accepts; it stands for [float] on the file names
    of the examples.  [float] accepts more (exponents, surrounding blanks,
    [inf], [nan]); those strings are [None] here. *)

Definition digit_of (c : ascii) : option Z :=
  let n := nat_of_ascii c in
  if ((48 <=? n) && (n <=? 57))%nat then Some (Z.of_nat (n - 48)) else None.

(** Reads a run of digits: its value after [acc], its length after [n],
    and the rest of the string. *)
Fixpoint read_digits (s : string) (acc : Z) (n : nat) : Z * nat * string :=
  match s with
  | EmptyString => (acc, n, s)
  | String c s' =>
      match digit_of c with
      | Some d => read_digits s' (acc * 10 + d)%Z (S n)
      | None => (acc, n, s)
      end
  end.

Definition decimal_unsigned (s : string) : option Q :=
  let '(i, ni, rest) := read_digits s 0%Z 0%nat in
  match rest with
  | EmptyString => if (0 <? ni)%nat then Some (inject_Z i) else None
  | String c rest' =>
      if Ascii.eqb c "." then
        let '(f, nf, rest'') := read_digits rest' 0%Z 0%nat in
        match rest'' with
        | EmptyString =>
            if (0 <? ni + nf)%nat
            then Some (Qred ((i * 10 ^ Z.of_nat nf + f) # Z.to_pos (10 ^ Z.of_nat nf)))
            else None
        | _ => None
        end
      else None
  end.

Definition float_of_decimal (s : string) : option Q :=
  match s with
  | String c s' =>
      if Ascii.eqb c "-" then Qopp <$> decimal_unsigned s'
      else if Ascii.eqb c "+" then decimal_unsigned s'
      else decimal_unsigned s
  | EmptyString => None
  end.

Local Close Scope string_scope.

(** ** Default arguments

    [divider: str = "_"] in the signature of [find_best_checkpoint]. *)
Definition default_divider : string := "_"%string.

(** ** [seed_worker]

    [torch.initial_seed()] is an argument of the embedding.
    [np.random.seed] accepts the integers from 0 to [2**32 - 1] and raises
    [ValueError] on any other; [random.seed] accepts every integer.  The
    embedding returns the seeds the two generators are left with, [None]
    where [np.random.seed] raises (before [random.seed] is reached). *)

Definition worker_seed (initial_seed worker_id : Z) : Z :=
  (initial_seed mod 2 ^ 32 + worker_id)%Z.

Definition np_random_seed (seed : Z) : option Z :=
  if ((0 <=? seed) && (seed <? 2 ^ 32))%Z then Some seed else None.

Record seeds : Set := Seeds { numpy_seed : Z; python_seed : Z }.

Definition seed_worker (initial_seed worker_id : Z) : option seeds :=
  match np_random_seed (worker_seed initial_seed worker_id) with
  | Some s => Some (Seeds s (worker_seed initial_seed worker_id))
  | None => None
  end.

(** ** [solarnet.config]: the enumerations and the validators *)

(** The value of an enumeration member: a string, or a tuple of strings.
    In [Models], [deeplabv3 = "deeplabv3",] and [adaptnet = "adaptnet",]
    end in a comma, which makes their values one-element tuples; the value
    of [unet] is a string. *)
Inductive enum_value : Set :=
  | StrValue (s : string)
  | TupleValue (items : list string).

#[global] Instance enum_value_eq_dec : EqDecision enum_value.
Proof. solve_decision. Defined.

Inductive Models : Set := deeplabv3 | adaptnet | unet.

Definition Models_members : list Models := [deeplabv3; adaptnet; unet].

Definition Models_name (m : Models) : string :=
  match m with
  | deeplabv3 => "deeplabv3"
  | adaptnet => "adaptnet"
  | unet => "unet"
  end%string.

Definition Models_value (m : Models) : enum_value :=
  match m with
  | deeplabv3 => TupleValue ["deeplabv3"%string]
  | adaptnet => TupleValue ["adaptnet"%string]
  | unet => StrValue "unet"
  end.

(** [Models(v)]: the member whose value is [v]; [None] where the call
    raises [ValueError].  This is the lookup pydantic makes for a field of
    type [Models]. *)
Definition Models_call (v : enum_value) : option Models :=
  List.find (fun m => bool_decide (Models_value m = v)) Models_members.

(** [Models[name]]: the member of that name; [None] where it raises
    [KeyError]. *)
Definition Models_getitem (name : string) : option Models :=
  List.find (fun m => String.eqb (Models_name m) name) Models_members.

(** The members of [Losses].  [Losses] is a [CallableEnum], a class that
    these files import; it is taken to be looked up as an [Enum] is, by
    the names of its members. *)
Inductive Losses : Set := bce | crossent | tversky | combo.

#[global] Instance Losses_eq_dec : EqDecision Losses.
Proof. solve_decision. Defined.

Definition Losses_members : list Losses := [bce; crossent; tversky; combo].

Definition Losses_name (l : Losses) : string :=
  match l with
  | bce => "bce"
  | crossent => "crossent"
  | tversky => "tversky"
  | combo => "combo"
  end%string.

(** [Losses[name]] *)
Definition Losses_getitem (name : string) : option Losses :=
  List.find (fun l => String.eqb (Losses_name l) name) Losses_members.

(** What the validator of [loss] is given: a string or a member. *)
Inductive loss_input : Set :=
  | LossName (s : string)
  | LossMember (l : Losses).

(** [CommonSettings.post_load]: [Losses[v]] for a string, [v] itself
    otherwise; [None] where [Losses[v]] raises [KeyError]. *)
Definition CommonSettings_post_load (v : loss_input) : option Losses :=
  match v with
  | LossName s => Losses_getitem s
  | LossMember l => Some l
  end.

(** A validated field value: a loss, or a value of another type. *)
Inductive setting (V : Type) : Type :=
  | LossSetting (l : Losses)
  | OtherSetting (v : V).
Arguments LossSetting {V} l.
Arguments OtherSetting {V} v.

(** [values["loss"] == Losses.bce] *)
Definition is_bce {V : Type} (s : setting V) : bool :=
  match s with
  | LossSetting bce => true
  | _ => false
  end.

Definition bce_warning : string :=
  "WARNING: BCE loss not supported for multi-class training, using standard cross-entropy"%string.

(** [SegmenterTrainSettings.post_load], the validator of [multiclass]: the
    dictionary [values] as the call leaves it, the lines printed and the
    value returned. *)
Definition SegmenterTrainSettings_post_load {V : Type}
    (v : bool) (values : gmap string (setting V))
  : gmap string (setting V) * list string * bool :=
  if v then
    match values !! "loss"%string with
    | Some s =>
        if is_bce s
        then (<["loss"%string := LossSetting crossent]> values, [bce_warning], v)
        else (values, [], v)
    | None => (values, [], v)
    end
  else (values, [], v).

(** ** [one_hot_batch]

    A tensor is embedded as nested lists: [batch], of shape [B, H, W] and
    an integer type, as a list of images, each a list of rows of labels;
    the result, of shape [B, C, H, W], as a list of images, each a list of
    [C] planes.  [num_classes] is a natural number.  Indexing a tensor
    with a tensor of indices counts a negative index from the end and
    raises [IndexError] on an index out of range; [None] stands for that
    exception. *)

(** [target[mask] = num_classes] with [mask = batch == ignore_index], for
    one label. *)
Definition relabel (num_classes : nat) (ignore_index : Z) (t : Z) : Z :=
  if (t =? ignore_index)%Z then Z.of_nat num_classes else t.

(** Row [i] of [torch.eye(size)]. *)
Definition eye_row (size i : nat) : list Q :=
  (fun j => if (j =? i)%nat then 1 else 0) <$> seq 0 size.

(** [torch.eye(size)[t]] for one index [t]. *)
Definition eye_index (size : nat) (t : Z) : option (list Q) :=
  if ((0 <=? t) && (t <? Z.of_nat size))%Z
  then Some (eye_row size (Z.to_nat t))
  else if ((- Z.of_nat size <=? t) && (t <? 0))%Z
       then Some (eye_row size (Z.to_nat (t + Z.of_nat size)))
       else None.

(** [torch.eye(num_classes + 1)[target]] *)
Definition onehot_target (num_classes : nat) (ignore_index : Z)
    (batch : list (list (list Z))) : option (list (list (list (list Q)))) :=
  mapM (mapM (mapM (fun t => eye_index (S num_classes)
                                (relabel num_classes ignore_index t)))) batch.

(** [x[:, :, :, :-1]] *)
Definition drop_last_channel (x : list (list (list (list Q))))
  : list (list (list (list Q))) :=
  (fun img : list (list (list Q)) =>
     (fun row : list (list Q) =>
        (fun px : list Q => take (List.length px - 1) px) <$> row) <$> img)
    <$> x.

(** [x.permute(0, 3, 1, 2)] for [x] of shape [B, H, W, C]. *)
Definition permute_0312 (C : nat) (x : list (list (list (list Q))))
  : list (list (list (list Q))) :=
  (fun img : list (list (list Q)) =>
     (fun c : nat =>
        (fun row : list (list Q) =>
           (fun px : list Q => nth c px 0) <$> row) <$> img) <$> seq 0 C)
    <$> x.

Definition one_hot_batch (batch : list (list (list Z))) (num_classes : nat)
    (ignore_index : Z) : option (list (list (list (list Q)))) :=
  match onehot_target num_classes ignore_index batch with
  | Some x => Some (permute_0312 num_classes (drop_last_channel x))
  | None => None
  end.

Definition default_ignore_index : Z := 255.

(** ** [_copy_channel]

    The weight of a layer, of shape [O, I, ...], is embedded as its number
    [I] of input channels and the list of its [O] filters, each the list of
    its [I] kernels; a kernel is a value of any type [A]. *)

Record layer_weight (A : Type) : Type := Weight {
  in_channels : nat;
  filters : list (list A)
}.
Arguments Weight {A} in_channels filters.
Arguments in_channels {A} _.
Arguments filters {A} _.

(** The position an index [i] selects in a dimension of size [size]: a
    negative index counts from the end; [None] where indexing raises
    [IndexError]. *)
Definition py_index (size : nat) (i : Z) : option nat :=
  if ((0 <=? i) && (i <? Z.of_nat size))%Z then Some (Z.to_nat i)
  else if ((- Z.of_nat size <=? i) && (i <? 0))%Z
       then Some (Z.to_nat (i + Z.of_nat size))
       else None.

(** [_copy_channel(layer, channel)], with [input_weights = layer.weight]
    as its argument:
    [torch.cat((input_weights, input_weights[:, channel].unsqueeze(dim=1)),
    dim=1)]; [None] where the indexing raises. *)
Definition _copy_channel {A : Type} (input_weights : layer_weight A) (channel : Z)
  : option (layer_weight A) :=
  match py_index (in_channels input_weights) channel with
  | Some c =>
      Some (Weight (S (in_channels input_weights))
                   ((fun kernels : list A => kernels ++ take 1 (drop c kernels))
                      <$> filters input_weights))
  | None => None
  end.

(** A weight whose filters all have [in_channels] kernels. *)
Definition well_shaped {A : Type} (w : layer_weight A) : Prop :=
  Forall (fun kernels => List.length kernels = in_channels w) (filters w).

(** ** [mask_to_rgb]

    The mask is an array of integer labels of shape [H, W] or [B, H, W];
    the palette is the list of the items of the dictionary, in the order
    of [palette.items()], each colour the list of the integers of the
    tuple.  The look-up table [lut] is the list of its 256 rows.  [None]
    stands for an exception. *)

Inductive mask_array : Type :=
  | Mask2 (m : list (list Z))
  | Mask3 (m : list (list (list Z))).

Inductive rgb_array : Type :=
  | Rgb3 (x : list (list (list Z)))
  | Rgb4 (x : list (list (list (list Z)))).

(** [np.zeros((256, 3), dtype=np.uint8)] *)
Definition lut_zeros : list (list Z) := replicate 256 [0; 0; 0]%Z.

(** What assigning an array of shape [(n,)] to a row of shape [(3,)]
    stores: the array for [n = 3], its element three times for [n = 1];
    another length does not broadcast. *)
Definition broadcast_row (arr : list Z) : option (list Z) :=
  match arr with
  | [x] => Some [x; x; x]
  | [_; _; _] => Some arr
  | _ => None
  end.

(** [x.transpose(2, 0, 1)] for [x] of shape [H, W, C]. *)
Definition transpose_201 (C : nat) (x : list (list (list Z)))
  : list (list (list Z)) :=
  (fun c : nat =>
     (fun row : list (list Z) => (fun px : list Z => nth c px 0%Z) <$> row) <$> x)
    <$> seq 0 C.

(** A conversion of the integers from 0 to 255 only, as
    [np.array(..., dtype=np.uint8)] is in NumPy 2. *)
Definition to_uint8_strict (z : Z) : option Z :=
  if ((0 <=? z) && (z <=? 255))%Z then Some z else None.

Section MaskToRgb.
(** [np.array(z, dtype=np.uint8)] for one integer [z]: what it does with
    an integer outside 0..255 depends on the version of NumPy. *)
Variable to_uint8 : Z -> option Z.

(** [lut[index] = np.array(color, dtype=np.uint8)] *)
Definition set_color (lut : list (list Z)) (item : Z * list Z)
  : option (list (list Z)) :=
  match mapM to_uint8 item.2 with
  | Some arr =>
      match py_index 256 item.1 with
      | Some i =>
          match broadcast_row arr with
          | Some row => Some (<[i := row]> lut)
          | None => None
          end
      | None => None
      end
  | None => None
  end.

(** The loop over [palette.items()]. *)
Fixpoint build_lut (lut : list (list Z)) (items : list (Z * list Z))
  : option (list (list Z)) :=
  match items with
  | [] => Some lut
  | item :: rest =>
      match set_color lut item with
      | Some lut' => build_lut lut' rest
      | None => None
      end
  end.

(** [lut[t]] for one label [t]. *)
Definition lut_index (lut : list (list Z)) (t : Z) : option (list Z) :=
  match py_index 256 t with
  | Some i => lut !! i
  | None => None
  end.

Definition mask_to_rgb (mask : mask_array) (palette : list (Z * list Z))
    (channels_first : bool) : option rgb_array :=
  match build_lut lut_zeros palette with
  | Some lut =>
      match mask with
      | Mask2 m =>
          match mapM (mapM (lut_index lut)) m with
          | Some result =>
              if channels_first then Some (Rgb3 (transpose_201 3 result))
              else Some (Rgb3 result)
          | None => None
          end
      | Mask3 m =>
          match mapM (mapM (mapM (lut_index lut))) m with
          | Some result =>
              if channels_first then None
              else Some (Rgb4 result)
          | None => None
          end
      end
  | None => None
  end.

End MaskToRgb.

(** A colour of three integers from 0 to 255. *)
Definition rgb_color (color : list Z) : Prop :=
  List.length color = 3%nat /\ Forall (fun z => (0 <= z <= 255)%Z) color.

(** The palette gives the label [t] the colour [color]: the colour of the
    last item whose index selects the same row of the table as [t], and
    black when no item does. *)
Definition palette_color (palette : list (Z * list Z)) (t : Z)
    (color : list Z) : Prop :=
  exists i : nat,
    py_index 256 t = Some i /\
    ((exists (pre post : list (Z * list Z)) (k : Z),
        palette = pre ++ (k, color) :: post /\
        py_index 256 k = Some i /\
        Forall (fun item => py_index 256 item.1 <> Some i) post) \/
     (color = [0; 0; 0]%Z /\
      Forall (fun item => py_index 256 item.1 <> Some i) palette)).

(** ** Facts about the numeric primitives *)

Lemma Qeq_bool_false (x y : Q) : Qeq_bool x y = false <-> ~ x == y.
Proof.
  split.
  - intros E Hx. apply Qeq_bool_iff in Hx. congruence.
  - intros Hn. destruct (Qeq_bool x y) eqn:E; [|reflexivity].
    apply Qeq_bool_iff in E. contradiction.
Qed.

Lemma py_max_fold_spec (xs : list Q) (x0 : Q) :
  let m := fold_left (fun best y => if Qlt_le_dec best y then y else best) xs x0 in
  (m = x0 \/ m ∈ xs) /\ x0 <= m /\ (forall x, x ∈ xs -> x <= m).
Proof.
  revert x0. induction xs as [|y xs IH]; intros x0; simpl.
  - split; [by left|]. split; [apply Qle_refl|]. intros x Hx. inversion Hx.
  - destruct (Qlt_le_dec x0 y) as [Hlt|Hle].
    + destruct (IH y) as (Hm & Hy & Hall). split.
      * destruct Hm as [->|Hm]; right; [left|by right].
      * split; [apply Qlt_le_weak in Hlt; eapply Qle_trans; eauto|].
        intros x Hx. apply elem_of_cons in Hx as [->|Hx]; auto.
    + destruct (IH x0) as (Hm & Hx0 & Hall). split.
      * destruct Hm as [Hm|Hm]; [by left|right; by right].
      * split; [done|].
        intros x Hx. apply elem_of_cons in Hx as [->|Hx]; auto.
        eapply Qle_trans; eauto.
Qed.

Lemma py_max_Ok (xs : list Q) (m : Q) :
  py_max xs = Ok m -> m ∈ xs /\ (forall x, x ∈ xs -> x <= m).
Proof.
  destruct xs as [|x0 xs]; simpl; [discriminate|].
  intros [= <-].
  destruct (py_max_fold_spec xs x0) as (Hm & Hx0 & Hall). split.
  - destruct Hm as [->|Hm]; [left|by right].
  - intros x Hx. apply elem_of_cons in Hx as [->|Hx]; auto.
Qed.

Lemma py_max_nonempty (xs : list Q) :
  xs <> [] -> exists m, py_max xs = Ok m.
Proof. destruct xs; [done|]. intros _. simpl. eauto. Qed.

Lemma py_max_empty (xs : list Q) (e : exception) :
  py_max xs = Err e -> xs = [] /\ e = ValueError MaxOfEmpty.
Proof. destruct xs; simpl; [intros [= <-]; done | discriminate]. Qed.

(** *** Rounding *)

Lemma round_half_even_bounds (x : Q) :
  (Qfloor x <= round_half_even x <= Qfloor x + 1)%Z.
Proof.
  unfold round_half_even.
  destruct (Qcompare _ _); [destruct (Z.even _)| |]; lia.
Qed.

Lemma round_half_even_comp (x y : Q) :
  x == y -> round_half_even x = round_half_even y.
Proof.
  intros E. unfold round_half_even.
  rewrite (Qfloor_comp _ _ E).
  assert (Hc : Qcompare (x - inject_Z (Qfloor y)) (1 # 2)
               = Qcompare (y - inject_Z (Qfloor y)) (1 # 2)).
  { apply Qcompare_comp; [by rewrite E | reflexivity]. }
  by rewrite Hc.
Qed.

Lemma round_half_even_mono (x y : Q) :
  x <= y -> (round_half_even x <= round_half_even y)%Z.
Proof.
  intros Hxy.
  pose proof (Qfloor_resp_le _ _ Hxy) as Hf.
  destruct (Z.eq_dec (Qfloor x) (Qfloor y)) as [E|Hne].
  - unfold round_half_even. rewrite E.
    destruct (Qcompare_spec (x - inject_Z (Qfloor y)) (1 # 2)) as [Hx|Hx|Hx];
      destruct (Qcompare_spec (y - inject_Z (Qfloor y)) (1 # 2)) as [Hy|Hy|Hy];
      try (destruct (Z.even (Qfloor y))); try lia; exfalso; lra.
  - pose proof (round_half_even_bounds x). pose proof (round_half_even_bounds y).
    lia.
Qed.

(** The rounded value is a nearest integer, and the even one on a tie. *)
Lemma round_half_even_nearest (x : Q) :
  let n := round_half_even x in
  inject_Z n - (1 # 2) <= x /\ x <= inject_Z n + (1 # 2) /\
  ((x == inject_Z n + (1 # 2) \/ x == inject_Z n - (1 # 2)) -> Z.even n = true).
Proof.
  pose proof (Qfloor_le x) as Hlo. pose proof (Qlt_floor x) as Hhi.
  rewrite inject_Z_plus in Hhi.
  assert (Hone : inject_Z 1 == 1) by reflexivity.
  unfold round_half_even.
  destruct (Qcompare_spec (x - inject_Z (Qfloor x)) (1 # 2)) as [Hx|Hx|Hx].
  - destruct (Z.even (Qfloor x)) eqn:Ev.
    + repeat split; try lra. done.
    + rewrite inject_Z_plus. repeat split; try lra.
      intros _. rewrite Z.even_add, Ev. reflexivity.
  - repeat split; lra.
  - rewrite inject_Z_plus. repeat split; lra.
Qed.

Lemma py_round2_eq (x : Q) : py_round2 x == round_half_even (x * 100) # 100.
Proof. unfold py_round2. apply Qred_correct. Qed.

Lemma Qmake_100_le (n m : Z) : (n <= m)%Z -> n # 100 <= m # 100.
Proof. intros Hnm. unfold Qle. simpl. lia. Qed.

Lemma Qmake_100_inject (n : Z) : n # 100 == inject_Z n * (1 # 100).
Proof. unfold Qeq, Qmult, inject_Z. simpl. lia. Qed.




(** [round(x, 2)] is a multiple of 1/100 nearest to [x]; on a tie it is
    the even multiple. *)
Lemma py_round2_nearest (x : Q) :
  exists n : Z,
    py_round2 x == n # 100 /\
    (n # 100) - (1 # 200) <= x /\ x <= (n # 100) + (1 # 200) /\
    ((x == (n # 100) + (1 # 200) \/ x == (n # 100) - (1 # 200)) ->
     Z.even n = true).
Proof.
  exists (round_half_even (x * 100)). split; [apply py_round2_eq|].
  destruct (round_half_even_nearest (x * 100)) as (Hlo & Hhi & Htie).
  rewrite Qmake_100_inject.
  repeat split; try lra.
  intros [Ht|Ht]; apply Htie; [left|right]; lra.
Qed.

Lemma Qdiv_le_cross (a b c d : Q) :
  0 < b -> 0 < d -> a * d <= c * b -> a / b <= c / d.
Proof.
  intros Hb Hd Hx.
  apply Qle_shift_div_r; [done|].
  assert (E : c / d * b == c * b / d) by (field; lra).
  rewrite E. by apply Qle_shift_div_l.
Qed.

(** *** Clipping *)



Lemma np_clip_above (x lo hi : Q) : hi < x -> np_clip x lo hi = hi.
Proof.
  intros Hhi. unfold np_clip, Qmin, Qmax, GenericMinMax.gmin, GenericMinMax.gmax.
  destruct (Qcompare_spec x lo) as [E|Hlt|Hgt].
  - destruct (Qcompare_spec x hi); [exfalso; lra|exfalso; lra|done].
  - destruct (Qcompare_spec lo hi); [exfalso; lra|exfalso; lra|done].
  - destruct (Qcompare_spec x hi); [exfalso; lra|exfalso; lra|done].
Qed.


(** ** Facts about the embedding of [compute_class_weights] *)

Section ClassWeightsFacts.
Context {K : Type} `{Countable K}.
Implicit Types (data : gmap K Q) (k : K).

Lemma elem_of_values data (x : Q) :
  x ∈ values data <-> exists k, data !! k = Some x.
Proof.
  unfold values. rewrite list_elem_of_fmap. split.
  - intros [[k v] [-> Hkv]]. exists k. by apply elem_of_map_to_list.
  - intros [k Hk]. exists (k, x). split; [done|]. by apply elem_of_map_to_list.
Qed.

Lemma values_nil data : values data = [] <-> data = ∅.
Proof.
  unfold values. split.
  - intros E. apply fmap_nil_inv in E. by apply map_to_list_empty_iff.
  - intros ->. by rewrite map_to_list_empty.
Qed.

Lemma lookup_add_to_all (c : Q) data k :
  add_to_all c data !! k = (fun v => v + c) <$> data !! k.
Proof. unfold add_to_all. apply lookup_fmap. Qed.

Lemma add_to_all_empty (c : Q) data : add_to_all c data = ∅ <-> data = ∅.
Proof. unfold add_to_all. apply fmap_empty_iff. Qed.

Lemma weight_nonzero (majority clip v : Q) :
  ~ v == 0 -> weight majority clip v = Ok (weight_value majority clip v).
Proof.
  intros Hv. unfold weight, py_truediv.
  apply Qeq_bool_false in Hv. by rewrite Hv.
Qed.

Lemma weight_zero (majority clip v : Q) :
  v == 0 -> weight majority clip v = Err ZeroDivisionError.
Proof.
  intros Hv. unfold weight, py_truediv.
  apply Qeq_bool_iff in Hv. by rewrite Hv.
Qed.

Lemma weight_cases (majority clip v : Q) :
  (v == 0 /\ weight majority clip v = Err ZeroDivisionError) \/
  (~ v == 0 /\ weight majority clip v = Ok (weight_value majority clip v)).
Proof.
  destruct (Qeq_dec v 0) as [Hv|Hv]; [left|right]; split; auto using weight_zero, weight_nonzero.
Qed.

Lemma comprehension_weight_Ok (majority clip : Q) (items : list (K * Q)) :
  Forall (fun kv => ~ kv.2 == 0) items ->
  comprehension (weight majority clip) items
  = Ok (prod_map id (weight_value majority clip) <$> items).
Proof.
  induction 1 as [|[k v] items Hv _ IH]; simpl; [done|].
  rewrite (weight_nonzero _ _ _ Hv). simpl. by rewrite IH.
Qed.

Lemma comprehension_weight_Err (majority clip : Q) (items : list (K * Q)) :
  Exists (fun kv => kv.2 == 0) items ->
  comprehension (weight majority clip) items = Err ZeroDivisionError.
Proof.
  induction items as [|[k v] items IH]; intros Hex; [by inversion Hex|].
  simpl. destruct (weight_cases majority clip v) as [[Hv ->]|[Hv ->]]; [done|].
  simpl. rewrite IH; [done|]. by inversion Hex; subst.
Qed.

(** The dictionary comprehension over the whole dictionary. *)
Lemma comprehension_items_Err (majority clip : Q) data k (v : Q) :
  data !! k = Some v -> v == 0 ->
  (let* ws := comprehension (weight majority clip) (map_to_list data) in
   Ok (list_to_map ws : gmap K Q)) = Err ZeroDivisionError.
Proof.
  intros Hk Hv. rewrite comprehension_weight_Err; [done|].
  apply Exists_exists. exists (k, v). split; [|done].
  by apply elem_of_map_to_list.
Qed.

Lemma comprehension_items_Ok (majority clip : Q) data :
  (forall k (v : Q), data !! k = Some v -> ~ v == 0) ->
  (let* ws := comprehension (weight majority clip) (map_to_list data) in
   Ok (list_to_map ws : gmap K Q)) = Ok (weight_value majority clip <$> data).
Proof.
  intros Hz. rewrite comprehension_weight_Ok.
  - simpl. f_equal. rewrite list_to_map_fmap. by rewrite list_to_map_to_list.
  - apply Forall_forall. intros [k v] Hkv Hv.
    apply elem_of_map_to_list in Hkv. by apply (Hz k v).
Qed.

Lemma zero_count_cases data :
  (exists k (v : Q), data !! k = Some v /\ v == 0) \/
  (forall k (v : Q), data !! k = Some v -> ~ v == 0).
Proof.
  assert (Hl : forall l : list (K * Q),
             Exists (fun kv => kv.2 == 0) l \/ Forall (fun kv => ~ kv.2 == 0) l).
  { induction l as [|[k v] l [IH|IH]].
    - right. constructor.
    - left. by constructor 2.
    - destruct (Qeq_dec v 0) as [Hv|Hv].
      + left. by constructor 1.
      + right. by constructor. }
  destruct (Hl (map_to_list data)) as [Hex|Hall].
  - left. apply Exists_exists in Hex as ([k v] & Hkv & Hv).
    exists k, v. split; [|done]. by apply elem_of_map_to_list.
  - right. intros k v Hk. rewrite Forall_forall in Hall.
    apply (Hall (k, v)). by apply elem_of_map_to_list.
Qed.

Lemma smoothing_check_true (smoothing : Q) :
  Qle_bool 0 smoothing && Qle_bool smoothing 1 = true
  <-> 0 <= smoothing /\ smoothing <= 1.
Proof. by rewrite andb_true_iff, !Qle_bool_iff. Qed.

(** The maximum of the smoothed counts is the smoothed maximum. *)
Lemma py_max_add_to_all (c m m' : Q) data :
  py_max (values data) = Ok m ->
  py_max (values (add_to_all c data)) = Ok m' ->
  m' == m + c.
Proof.
  intros [Hm Hle]%py_max_Ok [Hm' Hle']%py_max_Ok.
  apply elem_of_values in Hm as [k Hk].
  apply elem_of_values in Hm' as [k' Hk'].
  rewrite lookup_add_to_all in Hk'.
  destruct (data !! k') as [v'|] eqn:Ek'; [|done]. injection Hk' as <-.
  assert (v' <= m) by (apply Hle, elem_of_values; eauto).
  assert (m + c <= v' + c).
  { apply Hle', elem_of_values. exists k.
    by rewrite lookup_add_to_all, Hk. }
  lra.
Qed.

(** What a call does once the assertion has passed on a non-empty
    dictionary. *)
Lemma compute_run data (smoothing clip : Q) :
  0 <= smoothing -> smoothing <= 1 -> data <> ∅ ->
  exists (m majority : Q) (data' : gmap K Q),
    py_max (values data) = Ok m /\
    data' = (if Qlt_le_dec 0 smoothing
             then add_to_all (m * smoothing) data else data) /\
    py_max (values data') = Ok majority /\
    majority == m + m * smoothing /\
    (compute_class_weights data smoothing clip).1 = data' /\
    ((exists k (v : Q), data' !! k = Some v /\ v == 0) ->
     (compute_class_weights data smoothing clip).2 = Err ZeroDivisionError) /\
    ((forall k (v : Q), data' !! k = Some v -> ~ v == 0) ->
     (compute_class_weights data smoothing clip).2
     = Ok (weight_value majority clip <$> data')).
Proof.
  intros Hs0 Hs1 Hne.
  destruct (py_max_nonempty (values data)) as [m Hm];
    [by rewrite values_nil|].
  set (data' := if Qlt_le_dec 0 smoothing
                then add_to_all (m * smoothing) data else data).
  assert (Hne' : data' <> ∅).
  { unfold data'. destruct (Qlt_le_dec 0 smoothing); [|done].
    by rewrite add_to_all_empty. }
  destruct (py_max_nonempty (values data')) as [majority Hmaj];
    [by rewrite values_nil|].
  exists m, majority, data'.
  assert (Hsm : smooth data smoothing = Ok data').
  { unfold smooth, data'. destruct (Qlt_le_dec 0 smoothing); [|done].
    by rewrite Hm. }
  assert (Hrun : compute_class_weights data smoothing clip
                 = (data', let* ws := comprehension (weight majority clip)
                                        (map_to_list data') in
                           Ok (list_to_map ws))).
  { unfold compute_class_weights.
    assert (Hc : Qle_bool 0 smoothing && Qle_bool smoothing 1 = true)
      by by apply smoothing_check_true.
    rewrite Hc. simpl. rewrite Hsm. by rewrite Hmaj. }
  split; [done|]. split; [done|]. split; [done|]. split.
  { unfold data' in Hmaj. destruct (Qlt_le_dec 0 smoothing) as [Hpos|Hnp].
    - by apply (py_max_add_to_all _ _ _ data).
    - rewrite Hm in Hmaj. injection Hmaj as <-.
      assert (smoothing == 0) as -> by lra. ring. }
  rewrite Hrun. simpl. split; [done|]. split.
  - intros (k & v & Hk & Hv). by apply (comprehension_items_Err _ _ _ k v).
  - intros Hz. by apply comprehension_items_Ok.
Qed.

Lemma compute_smoothing_out_of_range data (smoothing clip : Q) :
  ~ (0 <= smoothing /\ smoothing <= 1) ->
  compute_class_weights data smoothing clip
  = (data, Err (AssertionError SmoothingOutOfRange)).
Proof.
  intros Hs. unfold compute_class_weights.
  destruct (Qle_bool 0 smoothing && Qle_bool smoothing 1) eqn:E; [|done].
  by apply smoothing_check_true in E.
Qed.

Lemma compute_empty (smoothing clip : Q) :
  0 <= smoothing -> smoothing <= 1 ->
  compute_class_weights (∅ : gmap K Q) smoothing clip
  = (∅, Err (ValueError MaxOfEmpty)).
Proof.
  intros Hs0 Hs1. unfold compute_class_weights.
  assert (Hc : Qle_bool 0 smoothing && Qle_bool smoothing 1 = true)
    by by apply smoothing_check_true.
  rewrite Hc. simpl. unfold smooth.
  destruct (Qlt_le_dec 0 smoothing); simpl.
  - unfold values. by rewrite map_to_list_empty.
  - unfold values. by rewrite map_to_list_empty.
Qed.

(** A call returns or raises one of three exceptions. *)
Lemma compute_cases data (smoothing clip : Q) :
  let r := compute_class_weights data smoothing clip in
  (~ (0 <= smoothing /\ smoothing <= 1) /\
   r = (data, Err (AssertionError SmoothingOutOfRange))) \/
  (0 <= smoothing /\ smoothing <= 1 /\ data = ∅ /\
   r = (data, Err (ValueError MaxOfEmpty))) \/
  (0 <= smoothing /\ smoothing <= 1 /\ data <> ∅ /\
   (exists k (v : Q), r.1 !! k = Some v /\ v == 0) /\
   r.2 = Err ZeroDivisionError) \/
  (0 <= smoothing /\ smoothing <= 1 /\ data <> ∅ /\
   (forall k (v : Q), r.1 !! k = Some v -> ~ v == 0) /\
   exists majority, py_max (values r.1) = Ok majority /\
                    r.2 = Ok (weight_value majority clip <$> r.1)).
Proof.
  intros r. unfold r.
  destruct (Qlt_le_dec smoothing 0) as [Hneg|Hs0].
  { left. split; [lra|]. apply compute_smoothing_out_of_range. lra. }
  destruct (Qlt_le_dec 1 smoothing) as [Hbig|Hs1].
  { left. split; [lra|]. apply compute_smoothing_out_of_range. lra. }
  right. destruct (decide (data = ∅)) as [->|Hne].
  { left. repeat split; try done. by apply compute_empty. }
  right.
  destruct (compute_run data smoothing clip Hs0 Hs1 Hne)
    as (m & majority & data' & Hm & Hd' & Hmaj & Hmm & H1 & Hz & Hnz).
  rewrite H1.
  destruct (zero_count_cases data') as [Hex|Hall]; [left|right].
  - repeat split; try done. by apply Hz.
  - repeat split; try done. exists majority. split; [done|]. by apply Hnz.
Qed.

Lemma compute_Ok_inv data (smoothing clip : Q) (w : gmap K Q) :
  (compute_class_weights data smoothing clip).2 = Ok w ->
  0 <= smoothing /\ smoothing <= 1 /\ data <> ∅ /\
  (forall k (v : Q),
     (compute_class_weights data smoothing clip).1 !! k = Some v -> ~ v == 0) /\
  exists majority,
    py_max (values (compute_class_weights data smoothing clip).1) = Ok majority /\
    w = weight_value majority clip <$> (compute_class_weights data smoothing clip).1.
Proof.
  intros Hw.
  destruct (compute_cases data smoothing clip)
    as [[_ E]|[(_ & _ & _ & E)|[(_ & _ & _ & _ & E)|(Hs0 & Hs1 & Hne & Hnz & maj & Hmaj & E)]]].
  - rewrite E in Hw. discriminate.
  - rewrite E in Hw. discriminate.
  - rewrite E in Hw. discriminate.
  - rewrite E in Hw. injection Hw as <-. repeat split; try done. eauto.
Qed.



Lemma compute_Ok_intro data (smoothing clip m : Q) :
  0 <= smoothing -> smoothing <= 1 ->
  py_max (values data) = Ok m ->
  (forall k (c : Q), data !! k = Some c -> ~ c + m * smoothing == 0) ->
  exists w, (compute_class_weights data smoothing clip).2 = Ok w.
Proof.
  intros Hs0 Hs1 Hm Hnz.
  assert (Hne : data <> ∅).
  { intros ->. unfold values in Hm. by rewrite map_to_list_empty in Hm. }
  destruct (compute_run data smoothing clip Hs0 Hs1 Hne)
    as (m' & maj & data' & Hm' & Hd' & _ & _ & _ & _ & Hok).
  rewrite Hm in Hm'. injection Hm' as <-.
  eexists. apply Hok. intros k v Hk Hv. rewrite Hd' in Hk.
  destruct (Qlt_le_dec 0 smoothing) as [Hlt|Hle].
  - rewrite lookup_add_to_all in Hk.
    destruct (data !! k) as [c|] eqn:Ek; [|done]. injection Hk as <-.
    by apply (Hnz k c).
  - apply (Hnz k v Hk). assert (smoothing == 0) as -> by lra. lra.
Qed.


(** The maximum before and after the count of [k] grows from [c] to
    [c']. *)
Lemma py_max_insert_grow data k (c c' m m' : Q) :
  data !! k = Some c -> c <= c' ->
  py_max (values data) = Ok m ->
  py_max (values (<[k:=c']> data)) = Ok m' ->
  c <= m /\ c' <= m' /\ m <= m' /\ (m' == c' \/ m' == m).
Proof.
  intros Hk Hcc [Hm Hle]%py_max_Ok [Hm' Hle']%py_max_Ok.
  apply elem_of_values in Hm as [k0 Hk0].
  apply elem_of_values in Hm' as [k1 Hk1].
  assert (Hc : c <= m) by (apply Hle, elem_of_values; eauto).
  assert (Hc' : c' <= m').
  { apply Hle', elem_of_values. exists k. by rewrite lookup_insert_eq. }
  assert (Hmm : m <= m').
  { destruct (decide (k0 = k)) as [->|Hne].
    - rewrite Hk in Hk0. injection Hk0 as <-. lra.
    - apply Hle', elem_of_values. exists k0. by rewrite lookup_insert_ne. }
  repeat split; try done.
  destruct (decide (k1 = k)) as [->|Hne].
  - rewrite lookup_insert_eq in Hk1. injection Hk1 as <-. by left.
  - rewrite lookup_insert_ne in Hk1 by done. right.
    assert (m' <= m) by (apply Hle, elem_of_values; eauto). lra.
Qed.

End ClassWeightsFacts.

(** ** Facts about the binary64 embedding of [compute_class_weights] *)

Section B64Facts.
Import B64.
Context {K : Type}.
Variable rnd : Q -> Q.

Lemma fl_cases (x : Q) :
  (fl rnd x = PosInf /\ overflow_threshold <= rnd x) \/
  (fl rnd x = NegInf /\ rnd x <= - overflow_threshold) \/
  (fl rnd x = Finite (rnd x) /\
   - overflow_threshold < rnd x /\ rnd x < overflow_threshold).
Proof.
  unfold fl.
  destruct (Qle_bool overflow_threshold (rnd x)) eqn:E1.
  - left. split; [done|]. by apply Qle_bool_iff.
  - destruct (Qle_bool (rnd x) (- overflow_threshold)) eqn:E2.
    + right; left. split; [done|]. by apply Qle_bool_iff.
    + right; right. split; [done|]. split; apply Qnot_le_lt; intros Hle;
        apply Qle_bool_iff in Hle; congruence.
Qed.

Lemma fl_not_NaN (x : Q) : fl rnd x <> NaN.
Proof.
  destruct (fl_cases x) as [[E _]|[[E _]|[E _]]]; rewrite E; discriminate.
Qed.

Lemma to_float_Err (v : number) (e : exception) :
  to_float rnd v = Err e ->
  e = OverflowError /\
  exists n, v = PyInt n /\ float_of_int rnd n = Err OverflowError.
Proof.
  destruct v as [n|x]; simpl; [|discriminate].
  intros E. assert (e = OverflowError) as ->.
  { unfold float_of_int in E. destruct (fl rnd (inject_Z n)); congruence. }
  eauto.
Qed.

Lemma add_float_Err (v : number) (x : float64) (e : exception) :
  add_float rnd v x = Err e ->
  e = OverflowError /\
  exists n, v = PyInt n /\ float_of_int rnd n = Err OverflowError.
Proof.
  unfold add_float. destruct (to_float rnd v) eqn:E; simpl; [discriminate|].
  intros [= <-]. by apply to_float_Err.
Qed.

Lemma add_float_Ok (v : number) (x y : float64) :
  add_float rnd v x = Ok y ->
  exists a, to_float rnd v = Ok a /\ y = fadd rnd a x.
Proof.
  unfold add_float. destruct (to_float rnd v) eqn:E; simpl; [|discriminate].
  intros [= <-]. eauto.
Qed.

Lemma add_to_all_spec (sm : float64) (data : list (K * number)) :
  exists (done done' rest : list (K * number)),
    data = done ++ rest /\
    (add_to_all rnd sm data).1 = done' ++ rest /\
    Forall2 (updated rnd sm) done done' /\
    ((rest = [] /\ (add_to_all rnd sm data).2 = Ok tt) \/
     (exists k n rest', rest = (k, PyInt n) :: rest' /\
        float_of_int rnd n = Err OverflowError /\
        (add_to_all rnd sm data).2 = Err OverflowError)).
Proof.
  induction data as [|[k v] data IH]; simpl.
  - exists [], [], []. repeat split; try done. by left.
  - destruct (add_float rnd v sm) as [v'|e] eqn:E.
    + destruct IH as (done & done' & rest & Hd & H1 & HF & Hr).
      destruct (add_to_all rnd sm data) as [rest0 r0]. simpl in *.
      exists ((k, v) :: done), ((k, PyFloat v') :: done'), rest.
      split; [by rewrite Hd|]. split; [by rewrite H1|]. split; [|done].
      constructor; [|done]. split; [done|]. simpl.
      apply add_float_Ok in E as (a & Ha & ->). eauto.
    + apply add_float_Err in E as (-> & n & -> & Hn).
      exists [], [], ((k, PyInt n) :: data). simpl.
      repeat split; try done. right. eauto 6.
Qed.

Lemma py_max_nonempty_b64 (xs : list number) :
  xs <> [] -> exists m, py_max xs = Ok m.
Proof. destruct xs; [done|]. intros _. simpl. eauto. Qed.

Lemma py_max_Err (xs : list number) (e : exception) :
  py_max xs = Err e -> xs = [] /\ e = ValueError MaxOfEmpty.
Proof. destruct xs; simpl; [intros [= <-]; done | discriminate]. Qed.

Lemma values_nil_b64 (data : list (K * number)) : values data = [] <-> data = [].
Proof. unfold values. destruct data; simpl; split; congruence. Qed.


Lemma compute_out_of_range (data : list (K * number)) (smoothing clip : float64) :
  fle (Finite 0) smoothing && fle smoothing (Finite 1) = false ->
  compute_class_weights rnd data smoothing clip
  = (data, Err (AssertionError SmoothingOutOfRange)).
Proof. intros E. unfold compute_class_weights. by rewrite E. Qed.

Lemma compute_in_range (data : list (K * number)) (smoothing clip : float64) :
  fle (Finite 0) smoothing && fle smoothing (Finite 1) = true ->
  compute_class_weights rnd data smoothing clip
  = ((smooth rnd data smoothing).1,
     let+ _ := (smooth rnd data smoothing).2 in
     let+ majority := py_max (values (smooth rnd data smoothing).1) in
     comprehension (weight rnd majority clip) (smooth rnd data smoothing).1).
Proof.
  intros E. unfold compute_class_weights. rewrite E.
  by destruct (smooth rnd data smoothing).
Qed.

Lemma smooth_zero (data : list (K * number)) (smoothing : float64) :
  flt (Finite 0) smoothing = false -> smooth rnd data smoothing = (data, Ok tt).
Proof. intros E. unfold smooth. by rewrite E. Qed.

Lemma mul_float_Err (v : number) (x : float64) (e : exception) :
  mul_float rnd v x = Err e ->
  e = OverflowError /\
  exists n, v = PyInt n /\ float_of_int rnd n = Err OverflowError.
Proof.
  unfold mul_float. destruct (to_float rnd v) eqn:E; simpl; [discriminate|].
  intros [= <-]. by apply to_float_Err.
Qed.

(** *** The comprehension *)

Lemma comprehension_Ok (f : number -> result float64) (items : list (K * number))
    (ws : list (K * float64)) :
  comprehension f items = Ok ws <->
  Forall2 (fun item w => w.1 = item.1 /\ f item.2 = Ok w.2) items ws.
Proof.
  revert ws. induction items as [|[k v] items IH]; intros ws; simpl.
  - split; [intros [= <-]; constructor | intros Hf; by inversion Hf].
  - destruct (f v) as [w|e] eqn:Ew; simpl.
    + destruct (comprehension f items) as [ws0|e] eqn:Ec; simpl.
      * split.
        -- intros [= <-]. constructor; [done|]. by apply IH.
        -- intros Hf. inversion Hf as [|? [k' w'] ? ws' [Hk Hw] Hrest]; subst.
           simpl in *. subst. rewrite Ew in Hw. injection Hw as <-.
           apply IH in Hrest. by injection Hrest as <-.
      * split; [discriminate|].
        intros Hf. inversion Hf as [|? ? ? ws' _ Hrest]; subst.
        apply IH in Hrest. discriminate.
    + split; [discriminate|].
      intros Hf. inversion Hf as [|? ? ? ? [_ Hw] _]; subst. simpl in Hw.
      congruence.
Qed.

Lemma comprehension_Err (f : number -> result float64) (items : list (K * number))
    (e : exception) :
  comprehension f items = Err e <->
  exists pre k v post,
    items = pre ++ (k, v) :: post /\
    Forall (fun item => exists w, f item.2 = Ok w) pre /\
    f v = Err e.
Proof.
  induction items as [|[k v] items IH]; simpl.
  - split; [discriminate|]. intros (pre & k & v & post & E & _).
    by destruct pre.
  - destruct (f v) as [w|e'] eqn:Ew; simpl.
    + assert (Hr : (let+ ws := comprehension f items in Ok ((k, w) :: ws)) = Err e
                   <-> comprehension f items = Err e).
      { destruct (comprehension f items); simpl; split; congruence. }
      rewrite Hr, IH. split.
      * intros (pre & k' & v' & post & E & Hpre & Hv).
        exists ((k, v) :: pre), k', v', post. split; [by rewrite E|].
        split; [|done]. constructor; [simpl; eauto | done].
      * intros (pre & k' & v' & post & E & Hpre & Hv).
        destruct pre as [|p pre]; simpl in E; injection E as ? ?; subst.
        -- congruence.
        -- exists pre, k', v', post. split; [done|].
           split; [by inversion Hpre | done].
    + split.
      * intros [= <-]. exists [], k, v, items. by repeat split.
      * intros (pre & k' & v' & post & E & Hpre & Hv).
        destruct pre as [|p pre]; simpl in E; injection E as ? ?; subst.
        -- congruence.
        -- inversion Hpre as [|? ? [w Hw] _]; subst. simpl in Hw. congruence.
Qed.

(** *** One entry *)

Lemma weight_ints (m n : Z) (clip : float64) :
  weight rnd (PyInt m) clip (PyInt n)
  = if (n =? 0)%Z then Err ZeroDivisionError
    else match fl rnd (inject_Z m / inject_Z n) with
         | Finite q => Ok (round_clip rnd clip (Finite q))
         | _ => Err OverflowError
         end.
Proof.
  unfold weight, py_truediv. destruct (n =? 0)%Z; [done|].
  by destruct (fl rnd _).
Qed.

Lemma weight_floats (a b : float64) (clip : float64) :
  weight rnd (PyFloat a) clip (PyFloat b)
  = if is_zero b then Err ZeroDivisionError
    else Ok (round_clip rnd clip (fdiv rnd a b)).
Proof. unfold weight, py_truediv. simpl. by destruct (is_zero b). Qed.

(** *** Dictionaries of [int]s *)

Lemma values_ints (counts : list (K * Z)) :
  values (ints counts) = PyInt <$> counts.*2.
Proof.
  unfold values, ints. rewrite <- !list_fmap_compose. done.
Qed.

Lemma ints_nil (counts : list (K * Z)) : ints counts = [] <-> counts = [].
Proof. unfold ints. destruct counts; simpl; split; congruence. Qed.

Lemma elem_of_ints (counts : list (K * Z)) (k : K) (v : number) :
  (k, v) ∈ ints counts <-> exists n, v = PyInt n /\ (k, n) ∈ counts.
Proof.
  unfold ints. rewrite list_elem_of_fmap. split.
  - intros ([k' n] & [= -> ->] & Hin). eauto.
  - intros (n & -> & Hin). by exists (k, n).
Qed.

Lemma fold_max_ints (ns : list Z) (a : Z) :
  exists m,
    fold_left (fun best y => if flt (exact best) (exact y) then y else best)
              (PyInt <$> ns) (PyInt a) = PyInt m /\
    (m = a \/ m ∈ ns) /\ (a <= m)%Z /\ forall n, n ∈ ns -> (n <= m)%Z.
Proof.
  revert a. induction ns as [|b ns IH]; intros a; simpl.
  - exists a. split; [done|]. split; [by left|]. split; [lia|].
    intros n Hn. inversion Hn.
  - destruct (Qlt_le_dec (inject_Z a) (inject_Z b)) as [Hlt|Hge];
      [rewrite <- Zlt_Qlt in Hlt | rewrite <- Zle_Qle in Hge].
    + destruct (IH b) as (m & E & Hm & Hb & Hall). exists m.
      split; [done|]. split.
      * destruct Hm as [->|Hm]; right; [left | by right].
      * split; [lia|]. intros n Hn.
        apply elem_of_cons in Hn as [->|Hn]; auto.
    + destruct (IH a) as (m & E & Hm & Ha & Hall). exists m.
      split; [done|]. split.
      * destruct Hm as [->|Hm]; [by left | right; by right].
      * split; [lia|]. intros n Hn.
        apply elem_of_cons in Hn as [->|Hn]; [lia | auto].
Qed.

Lemma py_max_ints (counts : list (K * Z)) :
  counts <> [] ->
  exists m, py_max (values (ints counts)) = Ok (PyInt m) /\
            m ∈ counts.*2 /\ forall n, n ∈ counts.*2 -> (n <= m)%Z.
Proof.
  intros Hne. rewrite values_ints.
  destruct counts as [|[k a] counts]; [done|]. rewrite !fmap_cons.
  cbn [py_max snd].
  destruct (fold_max_ints counts.*2 a) as (m & E & Hm & Ha & Hall).
  exists m. rewrite E. split; [done|]. split.
  - destruct Hm as [->|Hm]; [left | by right].
  - intros n Hn. apply elem_of_cons in Hn as [->|Hn]; auto.
Qed.

Lemma float_of_int_cases (n : Z) :
  (float_of_int rnd n = Err OverflowError /\
   forall q, fl rnd (inject_Z n) <> Finite q) \/
  (exists q, fl rnd (inject_Z n) = Finite q /\ float_of_int rnd n = Ok (Finite q)).
Proof.
  unfold float_of_int. destruct (fl rnd (inject_Z n)) eqn:E;
    [right; eauto | left; split; [done|discriminate] ..].
Qed.

Lemma add_to_all_ints (sm : float64) (counts : list (K * Z)) :
  (forall n, n ∈ counts.*2 -> exists q, fl rnd (inject_Z n) = Finite q) ->
  add_to_all rnd sm (ints counts)
  = ((fun item => (item.1, PyFloat (fadd rnd (fl rnd (inject_Z item.2)) sm)))
       <$> counts, Ok tt).
Proof.
  induction counts as [|[k n] counts IH]; intros Hfin; [done|].
  simpl. unfold add_float. simpl. unfold float_of_int.
  destruct (Hfin n) as [q Hq]; [left|]. rewrite Hq. simpl.
  fold (ints counts). rewrite IH; [done|].
  intros n' Hn'. apply Hfin. by right.
Qed.

Lemma add_to_all_ints_Err (sm : float64) (counts : list (K * Z)) (e : exception) :
  (add_to_all rnd sm (ints counts)).2 = Err e ->
  e = OverflowError /\
  exists n, n ∈ counts.*2 /\ float_of_int rnd n = Err OverflowError.
Proof.
  intros He.
  destruct (add_to_all_spec sm (ints counts))
    as (done & done' & rest & Hd & _ & _ & [[_ Hr]|(k & n & rest' & -> & Hn & Hr)]).
  - rewrite Hr in He. discriminate.
  - rewrite Hr in He. injection He as <-. split; [done|]. exists n.
    split; [|done].
    assert (Hin : (k, PyInt n) ∈ ints counts).
    { rewrite Hd. apply elem_of_app. right. left. }
    apply elem_of_ints in Hin as (n' & [= <-] & Hin).
    apply list_elem_of_fmap. by exists (k, n).
Qed.

Lemma smooth_ints (counts : list (K * Z)) (smoothing : float64) (m : Z) :
  flt (Finite 0) smoothing = true ->
  py_max (values (ints counts)) = Ok (PyInt m) ->
  (forall n, n ∈ counts.*2 -> exists q, fl rnd (inject_Z n) = Finite q) ->
  (exists q, fl rnd (inject_Z m) = Finite q) ->
  smooth rnd (ints counts) smoothing
  = ((fun item => (item.1, PyFloat (smoothed_count rnd m smoothing item.2)))
       <$> counts, Ok tt).
Proof.
  intros Hs Hm Hfin [q Hq]. unfold smooth. rewrite Hs, Hm.
  unfold mul_float. simpl. unfold float_of_int. rewrite Hq. simpl.
  rewrite add_to_all_ints by done. unfold smoothed_count. by rewrite Hq.
Qed.


Lemma comprehension_all_Ok (f : number -> result float64)
    (g : K * number -> float64) (items : list (K * number)) :
  (forall item, item ∈ items -> f item.2 = Ok (g item)) ->
  comprehension f items = Ok ((fun item => (item.1, g item)) <$> items).
Proof.
  induction items as [|[k v] items IH]; intros Hall; [done|]. simpl.
  pose proof (Hall (k, v) ltac:(left)) as Hv. simpl in Hv. rewrite Hv.
  simpl. rewrite IH; [done|].
  intros item Hin. apply Hall. by right.
Qed.

Lemma comprehension_some_Err (f : number -> result float64) (e0 : exception)
    (items : list (K * number)) :
  (forall item, item ∈ items ->
     (exists w, f item.2 = Ok w) \/ f item.2 = Err e0) ->
  (exists item, item ∈ items /\ f item.2 = Err e0) ->
  comprehension f items = Err e0.
Proof.
  intros Hall (item & Hin & He).
  destruct (comprehension f items) as [ws|e] eqn:E.
  - apply comprehension_Ok in E.
    apply list_elem_of_lookup in Hin as [i Hi].
    destruct (Forall2_lookup_l _ _ _ _ _ E Hi) as (w & _ & _ & Hw).
    congruence.
  - apply comprehension_Err in E as (pre & k & v & post & -> & _ & Hv).
    destruct (Hall (k, v)) as [[w Hw]|Hw].
    + apply elem_of_app. right. left.
    + simpl in Hw. congruence.
    + simpl in Hw. congruence.
Qed.

Lemma fold_max_elem (xs : list number) (x0 : number) :
  let m := fold_left (fun best y => if flt (exact best) (exact y) then y else best)
                     xs x0 in
  m = x0 \/ m ∈ xs.
Proof.
  revert x0. induction xs as [|y xs IH]; intros x0; simpl; [by left|].
  destruct (flt (exact x0) (exact y)).
  - destruct (IH y) as [->|Hm]; right; [left | by right].
  - destruct (IH x0) as [->|Hm]; [by left | right; by right].
Qed.

Lemma py_max_elem (xs : list number) (m : number) :
  py_max xs = Ok m -> m ∈ xs.
Proof.
  destruct xs as [|x0 xs]; simpl; [discriminate|]. intros [= <-].
  destruct (fold_max_elem xs x0) as [->|Hm]; [left | by right].
Qed.

Lemma fold_max_finite (qs : list Q) (a : Q) :
  exists m,
    fold_left (fun best y => if flt (exact best) (exact y) then y else best)
              ((fun q => PyFloat (Finite q)) <$> qs) (PyFloat (Finite a))
    = PyFloat (Finite m) /\
    (m = a \/ m ∈ qs) /\ a <= m /\ forall q, q ∈ qs -> q <= m.
Proof.
  revert a. induction qs as [|b qs IH]; intros a; simpl.
  - exists a. split; [done|]. split; [by left|]. split; [lra|].
    intros n Hn. inversion Hn.
  - destruct (Qlt_le_dec a b) as [Hlt|Hge].
    + destruct (IH b) as (m & E & Hm & Hb & Hall). exists m.
      split; [done|]. split.
      * destruct Hm as [->|Hm]; right; [left | by right].
      * split; [lra|]. intros n Hn.
        apply elem_of_cons in Hn as [->|Hn]; auto.
    + destruct (IH a) as (m & E & Hm & Ha & Hall). exists m.
      split; [done|]. split.
      * destruct Hm as [->|Hm]; [by left | right; by right].
      * split; [lra|]. intros n Hn.
        apply elem_of_cons in Hn as [->|Hn]; [lra | auto].
Qed.

Lemma py_max_finite (qs : list Q) :
  qs <> [] ->
  exists m, py_max ((fun q => PyFloat (Finite q)) <$> qs) = Ok (PyFloat (Finite m)) /\
            m ∈ qs /\ forall q, q ∈ qs -> q <= m.
Proof.
  intros Hne. destruct qs as [|a qs]; [done|]. rewrite fmap_cons.
  cbn [py_max].
  destruct (fold_max_finite qs a) as (m & E & Hm & Ha & Hall).
  exists m. rewrite E. split; [done|]. split.
  - destruct Hm as [->|Hm]; [left | by right].
  - intros n Hn. apply elem_of_cons in Hn as [->|Hn]; auto.
Qed.

(** *** The shape of a call *)

(** A call that returns has passed the assertion and the smoothing step,
    found a majority and computed every entry. *)
Lemma compute_Ok_inv_b64 (data : list (K * number)) (smoothing clip : float64)
    (ws : list (K * float64)) :
  let r := compute_class_weights rnd data smoothing clip in
  r.2 = Ok ws ->
  fle (Finite 0) smoothing && fle smoothing (Finite 1) = true /\
  exists majority,
    py_max (values r.1) = Ok majority /\
    Forall2 (fun item w => w.1 = item.1 /\
                           weight rnd majority clip item.2 = Ok w.2) r.1 ws.
Proof.
  intros r. unfold r. clear r.
  destruct (fle (Finite 0) smoothing && fle smoothing (Finite 1)) eqn:Er;
    [|by rewrite compute_out_of_range].
  rewrite compute_in_range by done. cbn [fst snd].
  destruct (smooth rnd data smoothing) as [data' [[]|e]]; [|discriminate].
  cbn [fst snd rbind].
  destruct (py_max (values data')) as [majority|e]; [|discriminate].
  cbn [rbind]. intros Hc. split; [done|]. exists majority. split; [done|].
  by apply comprehension_Ok.
Qed.

(** The call on a dictionary of [int]s, case by case. *)
Lemma compute_ints_cases (counts : list (K * Z)) (smoothing clip : float64) :
  let r := compute_class_weights rnd (ints counts) smoothing clip in
  let in_range := fle (Finite 0) smoothing && fle smoothing (Finite 1) in
  (in_range = false /\
   r = (ints counts, Err (AssertionError SmoothingOutOfRange))) \/
  (in_range = true /\ counts = [] /\
   r = ([], Err (ValueError MaxOfEmpty))) \/
  (in_range = true /\ counts <> [] /\ flt (Finite 0) smoothing = false /\
   exists m, py_max (values (ints counts)) = Ok (PyInt m) /\
     m ∈ counts.*2 /\ (forall n, n ∈ counts.*2 -> (n <= m)%Z) /\
     r = (ints counts, comprehension (weight rnd (PyInt m) clip) (ints counts))) \/
  (in_range = true /\ counts <> [] /\ flt (Finite 0) smoothing = true /\
   r.2 = Err OverflowError /\
   exists n, n ∈ counts.*2 /\ float_of_int rnd n = Err OverflowError) \/
  (in_range = true /\ counts <> [] /\ flt (Finite 0) smoothing = true /\
   exists m, py_max (values (ints counts)) = Ok (PyInt m) /\
     m ∈ counts.*2 /\ (forall n, n ∈ counts.*2 -> (n <= m)%Z) /\
     (forall n, n ∈ counts.*2 -> exists q, fl rnd (inject_Z n) = Finite q) /\
     let data' := (fun item =>
                     (item.1, PyFloat (smoothed_count rnd m smoothing item.2)))
                    <$> counts in
     exists a, py_max (values data') = Ok (PyFloat a) /\
               PyFloat a ∈ values data' /\
               r = (data', comprehension (weight rnd (PyFloat a) clip) data')).
Proof.
  intros r in_range. unfold r, in_range. clear r in_range.
  destruct (fle (Finite 0) smoothing && fle smoothing (Finite 1)) eqn:Er;
    [|left; split; [done|]; by apply compute_out_of_range].
  right. rewrite compute_in_range by done.
  destruct counts as [|item counts].
  { left. split; [done|]. split; [done|]. unfold smooth.
    destruct (flt (Finite 0) smoothing); reflexivity. }
  right. set (cs := item :: counts).
  assert (Hne : cs <> []) by done.
  destruct (py_max_ints cs Hne) as (m & Hm & Hin & Hmax).
  destruct (flt (Finite 0) smoothing) eqn:Es.
  - right.
    assert (Hconv : (exists n, n ∈ cs.*2 /\ float_of_int rnd n = Err OverflowError)
                    \/ forall n, n ∈ cs.*2 ->
                         exists q, fl rnd (inject_Z n) = Finite q).
    { clear. induction cs as [|[k n] cs IH]; [right; intros n Hn; inversion Hn|].
      destruct (float_of_int_cases n) as [[Hn _]|(q & Hq & _)].
      - left. exists n. split; [left|done].
      - destruct IH as [(n' & Hn' & He)|Hall].
        + left. exists n'. split; [by right|done].
        + right. intros n' Hn'. apply elem_of_cons in Hn' as [->|Hn']; eauto. }
    destruct Hconv as [Hbad|Hfin].
    + left. split; [done|]. split; [done|]. split; [done|]. split; [|done].
      unfold smooth. rewrite Es, Hm.
      destruct (mul_float rnd (PyInt m) smoothing) as [sm|e] eqn:Emul.
      * destruct (add_to_all rnd sm (ints cs)) as [data' [[]|e]] eqn:Eadd.
        -- exfalso. destruct Hbad as (n & Hn & He).
           assert (Hq : exists q, fl rnd (inject_Z n) = Finite q).
           { destruct (add_to_all_spec sm (ints cs))
               as (done & done' & rest & Hd & _ & HF & Hr).
             rewrite Eadd in Hr. simpl in Hr.
             destruct Hr as [[-> _]|(? & ? & ? & _ & _ & ?)]; [|done].
             rewrite app_nil_r in Hd. subst done.
             apply list_elem_of_fmap in Hn as ([k n'] & -> & Hitem).
             assert (Hi : (k, PyInt n') ∈ ints cs) by (apply elem_of_ints; eauto).
             apply list_elem_of_lookup in Hi as [i Hi].
             destruct (Forall2_lookup_l _ _ _ _ _ HF Hi) as (new & _ & _ & a & Ha & _).
             simpl in Ha. simpl.
             destruct (float_of_int_cases n') as [[Hx _]|(q & Hq & _)]; [|eauto].
             congruence. }
           destruct Hq as [q Hq]. unfold float_of_int in He. by rewrite Hq in He.
        -- cbn [fst snd rbind].
           assert (He : (add_to_all rnd sm (ints cs)).2 = Err e) by (by rewrite Eadd).
           apply add_to_all_ints_Err in He as [-> _]. done.
      * cbn [fst snd rbind]. apply mul_float_Err in Emul as [-> _]. done.
    + right. split; [done|]. split; [done|]. split; [done|].
      exists m. split; [done|]. split; [done|]. split; [done|]. split; [done|].
      rewrite (smooth_ints cs smoothing m Es Hm Hfin (Hfin m Hin)).
      cbn [fst snd rbind]. cbv zeta.
      set (data' := (fun item0 : K * Z =>
                       (item0.1, PyFloat (smoothed_count rnd m smoothing item0.2)))
                      <$> cs).
      destruct (py_max_nonempty_b64 (values data')) as [mj Hmj].
      { unfold data', cs. rewrite values_nil_b64. simpl. done. }
      pose proof (py_max_elem _ _ Hmj) as Hmjin.
      assert (Hf : exists a, mj = PyFloat a).
      { unfold values in Hmjin.
        apply list_elem_of_fmap in Hmjin as ([k v] & -> & Hitem).
        unfold data' in Hitem.
        apply list_elem_of_fmap in Hitem as ([k' n'] & [= -> ->] & _).
        simpl. eauto. }
      destruct Hf as [a ->]. exists a. rewrite Hmj. done.
  - left. split; [done|]. split; [done|]. split; [done|].
    exists m. split; [done|]. split; [done|]. split; [done|].
    rewrite smooth_zero by done. cbn [fst snd rbind]. by rewrite Hm.
Qed.

(** *** NaN and the infinities *)

Lemma np_clip_Finite (x : float64) (c : Q) :
  x <> NaN -> exists q, np_clip x (Finite 0) (Finite c) = Finite q.
Proof.
  intros Hx. unfold np_clip. destruct x as [a| | |]; try done; simpl.
  - destruct (Qlt_le_dec 0 a); simpl; destruct (Qlt_le_dec _ c); eauto.
  - eauto.
  - destruct (Qlt_le_dec 0 c); eauto.
Qed.

Lemma py_round2_NaN (x : float64) : py_round2 rnd x = NaN -> x = NaN.
Proof.
  destruct x; simpl; try done. intros E. by apply fl_not_NaN in E.
Qed.

Lemma round_clip_Finite (x : float64) (c : Q) :
  x <> NaN -> exists q, round_clip rnd (Finite c) x = Finite q.
Proof.
  intros Hx. apply np_clip_Finite. intros E. by apply py_round2_NaN in E.
Qed.

Lemma round_clip_not_inf (x : float64) (c : Q) :
  round_clip rnd (Finite c) x <> PosInf /\ round_clip rnd (Finite c) x <> NegInf.
Proof.
  destruct x as [a| | |] eqn:Ex.
  4: { unfold round_clip, np_clip. simpl. done. }
  all: destruct (round_clip_Finite x c) as [q Hq]; [by subst|];
    subst x; rewrite Hq; done.
Qed.

Lemma to_float_not_Finite (v : number) (x : float64) :
  to_float rnd v = Ok x -> (forall q, x <> Finite q) -> v = PyFloat x.
Proof.
  destruct v as [n|y]; simpl; [|by intros [= ->]].
  unfold float_of_int. destruct (fl rnd (inject_Z n)); try done.
  intros [= <-] Hq. by destruct (Hq q).
Qed.

Lemma py_truediv_NaN (a b : number) :
  py_truediv rnd a b = Ok NaN ->
  (forall q, exact a <> Finite q) \/ (forall q, exact b <> Finite q).
Proof.
  assert (Hgen : forall x y, to_float rnd a = Ok x -> to_float rnd b = Ok y ->
                   fdiv rnd x y = NaN ->
                   (forall q, exact a <> Finite q) \/ (forall q, exact b <> Finite q)).
  { intros x y Hx Hy Hd.
    destruct x as [qa| | |].
    - destruct y as [qb| | |]; simpl in Hd; try done.
      + by apply fl_not_NaN in Hd.
      + right. rewrite (to_float_not_Finite b NaN Hy) by done. done.
    - left. rewrite (to_float_not_Finite a PosInf Hx) by done. done.
    - left. rewrite (to_float_not_Finite a NegInf Hx) by done. done.
    - left. rewrite (to_float_not_Finite a NaN Hx) by done. done. }
  unfold py_truediv. destruct a as [m|x], b as [n|y].
  - destruct (n =? 0)%Z; [done|]. by destruct (fl rnd _).
  - destruct (to_float rnd (PyInt m)) as [x|] eqn:Ex; [|done].
    cbn [rbind to_float]. destruct (is_zero y); [done|].
    intros [= E]. by apply (Hgen x y).
  - cbn [rbind to_float].
    destruct (float_of_int rnd n) as [y|] eqn:Ey; [|done].
    cbn [rbind]. destruct (is_zero y); [done|].
    intros [= E]. by apply (Hgen x y).
  - cbn [rbind to_float]. destruct (is_zero y); [done|].
    intros [= E]. by apply (Hgen x y).
Qed.

(** *** The exceptions of a call *)

Lemma comprehension_weight_Err_b64 (majority : number) (clip : float64)
    (items : list (K * number)) (e : exception) :
  comprehension (weight rnd majority clip) items = Err e ->
  exists k v, (k, v) ∈ items /\ weight rnd majority clip v = Err e.
Proof.
  intros E. apply comprehension_Err in E as (pre & k & v & post & -> & _ & Hv).
  exists k, v. split; [|done]. apply elem_of_app. right. left.
Qed.

Lemma weight_ints_Err (m n : Z) (clip : float64) (e : exception) :
  weight rnd (PyInt m) clip (PyInt n) = Err e ->
  (e = ZeroDivisionError /\ n = 0%Z) \/
  (e = OverflowError /\ n <> 0%Z /\
   forall q, fl rnd (inject_Z m / inject_Z n) <> Finite q).
Proof.
  rewrite weight_ints. destruct (Z.eqb_spec n 0%Z) as [->|Hn].
  - intros [= <-]. by left.
  - destruct (fl rnd (inject_Z m / inject_Z n)) eqn:E; [done|..];
      intros [= <-]; right; done.
Qed.

Lemma weight_floats_Err (a b : float64) (clip : float64) (e : exception) :
  weight rnd (PyFloat a) clip (PyFloat b) = Err e ->
  e = ZeroDivisionError /\ is_zero b = true.
Proof.
  rewrite weight_floats. destruct (is_zero b); [|done]. by intros [= <-].
Qed.

Lemma is_zero_int (n : Z) : is_zero (exact (PyInt n)) = true <-> n = 0%Z.
Proof.
  simpl. rewrite Qeq_bool_iff. split.
  - intros E. unfold Qeq in E. simpl in E. lia.
  - by intros ->.
Qed.

(** The exceptions a call on [int] counts raises, and what each tells. *)
Lemma compute_ints_Err (counts : list (K * Z)) (smoothing clip : float64)
    (e : exception) :
  let r := compute_class_weights rnd (ints counts) smoothing clip in
  let in_range := fle (Finite 0) smoothing && fle smoothing (Finite 1) in
  r.2 = Err e ->
  (e = AssertionError SmoothingOutOfRange /\ in_range = false) \/
  (e = ValueError MaxOfEmpty /\ in_range = true /\ counts = []) \/
  (e = ZeroDivisionError /\ in_range = true /\ counts <> [] /\
   exists k v, (k, v) ∈ r.1 /\ is_zero (exact v) = true) \/
  (e = OverflowError /\ in_range = true /\ counts <> [] /\
   exists n, n ∈ counts.*2 /\
     (float_of_int rnd n = Err OverflowError \/
      (flt (Finite 0) smoothing = false /\
       exists m, m ∈ counts.*2 /\ n <> 0%Z /\
         forall q, fl rnd (inject_Z m / inject_Z n) <> Finite q))).
Proof.
  intros r in_range. unfold r, in_range. clear r in_range.
  destruct (compute_ints_cases counts smoothing clip)
    as [[Er E]|[(Er & -> & E)|[(Er & Hne & Es & m & Hm & Hin & Hmax & E)|
        [(Er & Hne & Es & E & n & Hn & Hbad)|
         (Er & Hne & Es & m & Hm & Hin & Hmax & Hfin & a & Ha & Hain & E)]]]];
    cbv zeta in *.
  - rewrite E. intros [= <-]. by left.
  - rewrite E. intros [= <-]. right; left. done.
  - rewrite E. cbn [fst snd]. intros He.
    apply comprehension_weight_Err_b64 in He as (k & v & Hkv & Hw).
    pose proof Hkv as Hkv'.
    apply elem_of_ints in Hkv' as (n & -> & Hitem).
    apply weight_ints_Err in Hw as [[-> ->]|(-> & Hnz & Hq)].
    + right; right; left. repeat split; try done.
      exists k, (PyInt 0%Z). split; [done|]. by apply is_zero_int.
    + right; right; right. repeat split; try done.
      exists n. split; [by apply list_elem_of_fmap; exists (k, n)|].
      right. split; [done|]. exists m. done.
  - rewrite E. intros [= <-]. right; right; right. repeat split; try done.
    exists n. split; [done|]. by left.
  - rewrite E. cbn [fst snd]. intros He.
    apply comprehension_weight_Err_b64 in He as (k & v & Hkv & Hw).
    pose proof Hkv as Hkv'.
    apply list_elem_of_fmap in Hkv' as ([k' n'] & [= -> ->] & Hitem).
    apply weight_floats_Err in Hw as [-> Hz].
    right; right; left. repeat split; try done.
    eexists _, _. split; [exact Hkv|]. done.
Qed.

Lemma compute_ints_empty (smoothing clip : float64) :
  fle (Finite 0) smoothing && fle smoothing (Finite 1) = true ->
  (compute_class_weights rnd (ints ([] : list (K * Z))) smoothing clip).2
  = Err (ValueError MaxOfEmpty).
Proof.
  intros Er.
  destruct (compute_ints_cases [] smoothing clip)
    as [[Er' _]|[(_ & _ & E)|[(_ & Hne & _)|[(_ & Hne & _)|(_ & Hne & _)]]]];
    cbv zeta in *; try done; try congruence.
  by rewrite E.
Qed.

(** A zero count after the smoothing step makes the call raise. *)
Lemma compute_ints_zero_count (counts : list (K * Z)) (smoothing clip : float64) :
  let r := compute_class_weights rnd (ints counts) smoothing clip in
  (exists k v, (k, v) ∈ r.1 /\ is_zero (exact v) = true) ->
  exists e, r.2 = Err e.
Proof.
  intros r. unfold r. clear r. intros (k & v & Hkv & Hz).
  destruct (compute_class_weights rnd (ints counts) smoothing clip)
    as [data' [ws|e]] eqn:E; [|eauto]. exfalso.
  assert (Hw : (compute_class_weights rnd (ints counts) smoothing clip).2 = Ok ws)
    by (by rewrite E).
  assert (Hd : (compute_class_weights rnd (ints counts) smoothing clip).1 = data')
    by (by rewrite E).
  apply compute_Ok_inv_b64 in Hw as (_ & majority & Hmaj & HF).
  rewrite Hd in Hmaj, HF. cbn [fst] in Hkv.
  apply list_elem_of_lookup in Hkv as [i Hi].
  destruct (Forall2_lookup_l _ _ _ _ _ HF Hi) as (w & _ & _ & Hweight).
  cbn [snd] in Hweight.
  apply py_max_elem in Hmaj.
  unfold weight, py_truediv in Hweight.
  destruct majority as [m|a], v as [n|b].
  - apply is_zero_int in Hz as ->. done.
  - simpl in Hz. cbn [to_float rbind] in Hweight.
    destruct (float_of_int rnd m); [|done]. cbn [rbind] in Hweight.
    by rewrite Hz in Hweight.
  - exfalso.
    (* a float majority next to an int count: not in a dictionary that a
       call on ints leaves *)
    destruct (compute_ints_cases counts smoothing clip)
      as [[_ E']|[(_ & _ & E')|[(_ & _ & _ & m & _ & _ & _ & E')|
          [(_ & _ & _ & E' & _)|(_ & _ & _ & m & _ & _ & _ & _ & a' & _ & _ & E')]]]];
      cbv zeta in *; rewrite E in E'; try done.
    + injection E' as -> _. unfold values in Hmaj.
      apply list_elem_of_fmap in Hmaj as ([k' v'] & Hv' & Hin').
      apply elem_of_ints in Hin' as (n' & -> & _). done.
    + injection E' as -> _. apply list_elem_of_lookup_2 in Hi.
      apply list_elem_of_fmap in Hi as ([k' n'] & [= _ ?] & _).
  - simpl in Hz. cbn [to_float rbind] in Hweight. by rewrite Hz in Hweight.
Qed.

(** The weights of a returned dictionary, against NaN and the infinities. *)
Lemma compute_weights_finite (data : list (K * number)) (smoothing : float64)
    (c : Q) (ws : list (K * float64)) (k : K) (w : float64) :
  let r := compute_class_weights rnd data smoothing (Finite c) in
  r.2 = Ok ws -> (k, w) ∈ ws ->
  w <> PosInf /\ w <> NegInf /\
  ((forall k' v, (k', v) ∈ r.1 -> exists q, exact v = Finite q) ->
   exists q, w = Finite q).
Proof.
  intros r Hws Hkw. unfold r in *. clear r.
  apply compute_Ok_inv_b64 in Hws as (_ & majority & Hmaj & HF).
  apply list_elem_of_lookup in Hkw as [i Hi].
  destruct (Forall2_lookup_r _ _ _ _ _ HF Hi) as ([k' v] & Hv & _ & Hweight).
  cbn [snd] in Hweight. unfold weight in Hweight.
  destruct (py_truediv rnd majority v) as [q|] eqn:Eq; [|done].
  cbn [rbind] in Hweight. injection Hweight as <-.
  fold (round_clip rnd (Finite c) q).
  destruct (round_clip_not_inf q c) as [H1 H2]. split; [done|]. split; [done|].
  intros Hfin. apply round_clip_Finite. intros ->.
  apply py_truediv_NaN in Eq as [Hx|Hx].
  - apply py_max_elem in Hmaj. unfold values in Hmaj.
    apply list_elem_of_fmap in Hmaj as ([k0 v0] & -> & Hin0).
    destruct (Hfin k0 v0 Hin0) as [q Hq]. by apply (Hx q).
  - apply list_elem_of_lookup_2 in Hv.
    destruct (Hfin k' v Hv) as [q Hq]. by apply (Hx q).
Qed.

(** *** Clipping a finite value by a finite [clip] *)

Lemma np_clip_Finite_cases (y c : Q) :
  let x := np_clip (Finite y) (Finite 0) (Finite c) in
  (0 <= y -> y <= c -> exists x', x = Finite x' /\ x' == y) /\
  (c < y -> x = Finite c) /\
  (y < 0 -> 0 <= c -> exists x', x = Finite x' /\ x' == 0).
Proof.
  unfold np_clip. simpl.
  destruct (Qlt_le_dec 0 y); simpl; destruct (Qlt_le_dec _ c);
    (split; [|split]); try (intros; exfalso; lra); try done;
    intros; eexists; (split; [reflexivity|lra]).
Qed.

(** *** Raising one count *)

Lemma elem_of_counts_middle (pre post : list (K * Z)) (k : K) (c n : Z) :
  n ∈ (pre ++ (k, c) :: post).*2 <-> n ∈ pre.*2 \/ n = c \/ n ∈ post.*2.
Proof.
  rewrite fmap_app, fmap_cons, elem_of_app, elem_of_cons. done.
Qed.

Lemma lookup_middle_ne {A : Type} (pre post : list A) (x y : A) (j : nat) :
  j <> length pre -> (pre ++ x :: post) !! j = (pre ++ y :: post) !! j.
Proof.
  intros Hj. destruct (decide (j < length pre)%nat) as [Hlt|Hge].
  - by rewrite !lookup_app_l.
  - rewrite !lookup_app_r by lia.
    destruct (j - length pre)%nat as [|j'] eqn:E; [lia|done].
Qed.

Lemma max_after_raise (pre post : list (K * Z)) (k : K) (c c' m m' : Z) :
  (c <= c')%Z ->
  m ∈ (pre ++ (k, c) :: post).*2 ->
  (forall n, n ∈ (pre ++ (k, c) :: post).*2 -> (n <= m)%Z) ->
  m' ∈ (pre ++ (k, c') :: post).*2 ->
  (forall n, n ∈ (pre ++ (k, c') :: post).*2 -> (n <= m')%Z) ->
  (c <= m)%Z /\ (m <= m')%Z /\
  ((c' <= m)%Z /\ m' = m \/ (m < c')%Z /\ m' = c').
Proof.
  intros Hcc Hm Hmax Hm' Hmax'.
  assert (Hc : (c <= m)%Z) by (apply Hmax, elem_of_counts_middle; auto).
  assert (Hc' : (c' <= m')%Z) by (apply Hmax', elem_of_counts_middle; auto).
  assert (Hle : (m <= m')%Z).
  { apply elem_of_counts_middle in Hm as [Hm|[->|Hm]].
    - apply Hmax', elem_of_counts_middle. auto.
    - lia.
    - apply Hmax', elem_of_counts_middle. auto. }
  split; [done|]. split; [done|].
  apply elem_of_counts_middle in Hm' as [Hm'|[->|Hm']].
  - assert ((m' <= m)%Z) by (apply Hmax, elem_of_counts_middle; auto).
    left. lia.
  - destruct (Z_lt_le_dec m c'); [right; lia | left; lia].
  - assert ((m' <= m)%Z) by (apply Hmax, elem_of_counts_middle; auto).
    left. lia.
Qed.

End B64Facts.
(** ** Facts about rounding *)

Section B64Rounding.
Import B64.
Variable rnd : Q -> Q.
Hypothesis R : rounding rnd.

Lemma pow2_pos (e : Z) : 0 < pow2 e.
Proof. apply Qpower_0_lt. reflexivity. Qed.

Lemma pow2_le (a b : Z) : (a <= b)%Z -> pow2 a <= pow2 b.
Proof. intros Hab. apply Qpower_le_compat_l; [done|]. discriminate. Qed.

Lemma pow2_lt (a b : Z) : (a < b)%Z -> pow2 a < pow2 b.
Proof. intros Hab. apply Qpower_lt_compat_l; [done|]. reflexivity. Qed.

Lemma pow2_succ (e : Z) : pow2 (e + 1) == pow2 e + pow2 e.
Proof.
  unfold pow2. rewrite Qpower_plus by discriminate.
  rewrite Qpower_1_r. ring.
Qed.

Lemma pow2_0 : pow2 0 == 1.
Proof. reflexivity. Qed.

Lemma count_bound_pow2 : inject_Z count_bound == pow2 1022.
Proof. unfold count_bound, pow2. by rewrite Zpower_Qpower. Qed.

Lemma rnd_comp (x y : Q) : 0 <= x -> x == y -> rnd x == rnd y.
Proof.
  intros Hx E. apply Qle_antisym; apply (rnd_mono rnd R); lra.
Qed.

Lemma rnd_nonneg (x : Q) : 0 <= x -> 0 <= rnd x.
Proof.
  intros Hx. rewrite <- (rnd_zero rnd R). apply (rnd_mono rnd R); lra.
Qed.

Lemma rnd_one : rnd 1 == 1.
Proof. apply (rnd_pow2 rnd R 0). lia. Qed.

Lemma rnd_ge_one (x : Q) : 1 <= x -> 1 <= rnd x.
Proof.
  intros Hx. rewrite <- rnd_one. apply (rnd_mono rnd R); lra.
Qed.

Lemma rnd_le_pow2 (x : Q) (e : Z) :
  (0 <= e <= 1023)%Z -> 0 <= x -> x <= pow2 e -> rnd x <= pow2 e.
Proof.
  intros He Hx Hle. rewrite <- (rnd_pow2 rnd R e He).
  by apply (rnd_mono rnd R).
Qed.

Lemma fl_finite (x : Q) :
  0 <= x -> x <= pow2 1023 -> fl rnd x = Finite (rnd x).
Proof.
  intros Hx Hle.
  pose proof (rnd_nonneg x Hx) as H0.
  pose proof (rnd_le_pow2 x 1023 ltac:(lia) Hx Hle) as H1.
  pose proof (pow2_lt 1023 1024 ltac:(lia)) as Ht.
  pose proof (pow2_pos 1024) as Hp.
  destruct (fl_cases rnd x) as [[_ H]|[[_ H]|[E _]]]; [| |done];
    unfold overflow_threshold in H; exfalso; lra.
Qed.

Lemma fl_nonneg (x : Q) :
  0 <= x ->
  fl rnd x = PosInf \/ (fl rnd x = Finite (rnd x) /\ 0 <= rnd x).
Proof.
  intros Hx. pose proof (rnd_nonneg x Hx) as H0.
  pose proof (pow2_pos 1024) as Hp.
  destruct (fl_cases rnd x) as [[E _]|[[_ H]|[E _]]]; [by left| |by right].
  unfold overflow_threshold in H. exfalso; lra.
Qed.

Lemma fl_mono (x y : Q) :
  0 <= x -> x <= y -> fle (fl rnd x) (fl rnd y) = true.
Proof.
  intros Hx Hxy.
  pose proof (rnd_mono rnd R x y Hx Hxy) as Hr.
  destruct (fl_nonneg x Hx) as [Ex|[Ex H0]];
    destruct (fl_nonneg y ltac:(lra)) as [Ey|[Ey H0']]; rewrite Ex, Ey; try done.
  - destruct (fl_cases rnd x) as [[_ H]|[[E _]|[E _]]]; [|congruence..].
    destruct (fl_cases rnd y) as [[E _]|[[E _]|[_ [_ H']]]]; [congruence..|].
    exfalso; lra.
  - simpl. by apply Qle_bool_iff.
Qed.


(** *** The order of the floats *)

Lemma fle_PosInf (x : float64) : x <> NaN -> fle x PosInf = true.
Proof. by destruct x. Qed.

Lemma fle_refl (x : float64) : x <> NaN -> fle x x = true.
Proof. destruct x; try done. intros _. simpl. apply Qle_bool_iff. lra. Qed.

Lemma fle_trans (x y z : float64) :
  fle x y = true -> fle y z = true -> fle x z = true.
Proof.
  destruct x as [a| | |], y as [b| | |], z as [c| | |]; simpl; try done.
  rewrite !Qle_bool_iff. lra.
Qed.

Lemma fle_not_flt (x y : float64) : fle x y = true -> flt y x = false.
Proof.
  destruct x as [a| | |], y as [b| | |]; simpl; try done.
  rewrite Qle_bool_iff. intros Hab. destruct (Qlt_le_dec b a); [lra|done].
Qed.

Lemma not_flt_fle (x y : float64) :
  x <> NaN -> y <> NaN -> flt x y = false -> fle y x = true.
Proof.
  destruct x as [a| | |], y as [b| | |]; simpl; try done.
  intros _ _. destruct (Qlt_le_dec a b); [done|]. intros _.
  by apply Qle_bool_iff.
Qed.

Lemma flt_pos_not_zero (x : float64) :
  flt (Finite 0) x = true -> is_zero x = false.
Proof.
  destruct x as [a| | |]; simpl; try done.
  destruct (Qlt_le_dec 0 a); [|done]. intros _.
  apply Qeq_bool_false. lra.
Qed.

(** *** Rounding to two places and clipping are monotone *)

Lemma round_half_even_Z (n : Z) : round_half_even (inject_Z n) = n.
Proof.
  unfold round_half_even. rewrite Qfloor_Z.
  assert (E : Qcompare (inject_Z n - inject_Z n) (1 # 2) = Lt).
  { rewrite <- Qlt_alt. generalize (inject_Z n). intros q. lra. }
  by rewrite E.
Qed.

Lemma round_half_even_nonneg (x : Q) : 0 <= x -> (0 <= round_half_even x)%Z.
Proof.
  intros Hx. rewrite <- (round_half_even_Z 0).
  by apply round_half_even_mono.
Qed.

Lemma py_round2_not_NaN (x : float64) : x <> NaN -> py_round2 rnd x <> NaN.
Proof. destruct x; simpl; try done. intros _. apply fl_not_NaN. Qed.

Lemma py_round2_mono_b64 (x y : float64) :
  fle (Finite 0) x = true -> fle x y = true ->
  fle (py_round2 rnd x) (py_round2 rnd y) = true.
Proof.
  destruct x as [a| | |], y as [b| | |]; simpl; try done.
  - rewrite !Qle_bool_iff. intros Ha Hab. apply fl_mono.
    + assert (H0 : (0 <= round_half_even (a * 100))%Z)
        by (apply round_half_even_nonneg; lra).
      unfold Qle. simpl. lia.
    + apply Qmake_100_le, round_half_even_mono. lra.
  - intros _ _. apply fle_PosInf, fl_not_NaN.
Qed.

Lemma np_clip_NaN (x lo : float64) : np_clip x lo NaN = NaN.
Proof.
  unfold np_clip. destruct x; try done;
    destruct (flt lo _); try done; by destruct lo.
Qed.

Lemma np_clip_not_NaN (x hi : float64) :
  x <> NaN -> hi <> NaN -> np_clip x (Finite 0) hi <> NaN.
Proof.
  intros Hx Hhi. unfold np_clip.
  destruct x as [a| | |]; try done; simpl.
  - destruct (Qlt_le_dec 0 a); destruct hi as [c| | |]; simpl; try done;
      by destruct (Qlt_le_dec _ c).
  - by destruct hi.
  - destruct hi as [c| | |]; simpl; try done. by destruct (Qlt_le_dec 0 c).
Qed.

Lemma np_clip_mono_b64 (x y hi : float64) :
  fle x y = true -> hi <> NaN ->
  fle (np_clip x (Finite 0) hi) (np_clip y (Finite 0) hi) = true.
Proof.
  intros Hxy Hhi. unfold np_clip.
  destruct x as [a| | |], y as [b| | |], hi as [c| | |]; simpl in *; try done;
    try apply Qle_bool_iff in Hxy;
    repeat (destruct (Qlt_le_dec _ _); simpl; try done);
    try (apply Qle_bool_iff; lra); exfalso; lra.
Qed.

Lemma round_clip_mono (clip x y : float64) :
  fle (Finite 0) x = true -> fle x y = true ->
  flt (round_clip rnd clip y) (round_clip rnd clip x) = false /\
  (clip <> NaN -> fle (round_clip rnd clip x) (round_clip rnd clip y) = true).
Proof.
  intros H0 Hxy. unfold round_clip.
  pose proof (py_round2_mono_b64 x y H0 Hxy) as Hr.
  assert (Hd : clip = NaN \/ clip <> NaN)
    by (destruct clip; [right; discriminate ..|by left]).
  destruct Hd as [->|Hc].
  - rewrite !np_clip_NaN. done.
  - pose proof (np_clip_mono_b64 _ _ clip Hr Hc) as Hm.
    split; [by apply fle_not_flt | done].
Qed.

Lemma fl_nonneg_fle (x : Q) : 0 <= x -> fle (Finite 0) (fl rnd x) = true.
Proof.
  intros Hx. destruct (fl_nonneg x Hx) as [E|[E H0]]; rewrite E; [done|].
  simpl. by apply Qle_bool_iff.
Qed.

End B64Rounding.
(** ** The call on bounded counts *)

Section B64Run.
Import B64.
Context {K : Type}.
Variable rnd : Q -> Q.
Hypothesis R : rounding rnd.

Lemma int_bounds (n : Z) :
  (0 <= n <= count_bound)%Z -> 0 <= inject_Z n /\ inject_Z n <= pow2 1022.
Proof.
  intros [H0 H1]. split.
  - change 0 with (inject_Z 0). by rewrite <- Zle_Qle.
  - rewrite <- count_bound_pow2. by rewrite <- Zle_Qle.
Qed.

Lemma rnd_int_bounds (n : Z) :
  (0 <= n <= count_bound)%Z ->
  0 <= rnd (inject_Z n) /\ rnd (inject_Z n) <= pow2 1022.
Proof.
  intros Hn. destruct (int_bounds n Hn) as [H0 H1]. split.
  - by apply rnd_nonneg.
  - apply rnd_le_pow2; [done|lia|done|done].
Qed.

Lemma fl_int_finite (n : Z) :
  (0 <= n <= count_bound)%Z -> fl rnd (inject_Z n) = Finite (rnd (inject_Z n)).
Proof.
  intros Hn. destruct (int_bounds n Hn) as [H0 H1].
  apply fl_finite; [done|done|].
  pose proof (pow2_le 1022 1023 ltac:(lia)). lra.
Qed.

Lemma smoothed_maxval_bounds (m : Z) (s : Q) :
  (0 <= m <= count_bound)%Z -> 0 <= s -> s <= 1 ->
  0 <= rnd (inject_Z m) * s /\ rnd (inject_Z m) * s <= pow2 1022 /\
  0 <= rnd (rnd (inject_Z m) * s) /\ rnd (rnd (inject_Z m) * s) <= pow2 1022.
Proof.
  intros Hm Hs0 Hs1. destruct (rnd_int_bounds m Hm) as [H0 H1].
  assert (Ha : 0 <= rnd (inject_Z m) * s) by nra.
  assert (Hb : rnd (inject_Z m) * s <= pow2 1022) by nra.
  split; [done|]. split; [done|]. split.
  - by apply rnd_nonneg.
  - apply rnd_le_pow2; [done|lia|done|done].
Qed.

Lemma smoothed_value_bounds (m n : Z) (s : Q) :
  (0 <= m <= count_bound)%Z -> (0 <= n <= count_bound)%Z -> 0 <= s -> s <= 1 ->
  0 <= smoothed_value rnd m s n /\ smoothed_value rnd m s n <= pow2 1023.
Proof.
  intros Hm Hn Hs0 Hs1.
  destruct (rnd_int_bounds n Hn) as [H0 H1].
  destruct (smoothed_maxval_bounds m s Hm Hs0 Hs1) as (_ & _ & H2 & H3).
  pose proof (pow2_succ 1022) as Hp. change (1022 + 1)%Z with 1023%Z in Hp.
  unfold smoothed_value. split.
  - apply rnd_nonneg; [done|]. lra.
  - apply rnd_le_pow2; [done|lia|lra|lra].
Qed.

Lemma smoothed_count_finite (m n : Z) (s : Q) :
  (0 <= m <= count_bound)%Z -> (0 <= n <= count_bound)%Z -> 0 <= s -> s <= 1 ->
  smoothed_count rnd m (Finite s) n = Finite (smoothed_value rnd m s n).
Proof.
  intros Hm Hn Hs0 Hs1.
  destruct (rnd_int_bounds n Hn) as [H0 H1].
  destruct (smoothed_maxval_bounds m s Hm Hs0 Hs1) as (H2 & H3 & H4 & H5).
  pose proof (pow2_succ 1022) as Hp. change (1022 + 1)%Z with 1023%Z in Hp.
  pose proof (pow2_pos 1022) as Hpp.
  unfold smoothed_count, smoothed_value.
  rewrite !fl_int_finite by done. simpl.
  rewrite (fl_finite rnd R (rnd (inject_Z m) * s)) by lra. simpl.
  apply fl_finite; [done|lra|lra].
Qed.

Lemma smoothed_value_mono (m m' n n' : Z) (s : Q) :
  (0 <= m)%Z -> (m <= m')%Z -> (0 <= n)%Z -> (n <= n')%Z -> 0 <= s ->
  smoothed_value rnd m s n <= smoothed_value rnd m' s n'.
Proof.
  intros Hm Hmm Hn Hnn Hs. unfold smoothed_value.
  assert (Hqm : 0 <= inject_Z m).
  { change 0 with (inject_Z 0). by rewrite <- Zle_Qle. }
  assert (Hqn : 0 <= inject_Z n).
  { change 0 with (inject_Z 0). by rewrite <- Zle_Qle. }
  assert (Hqmm : inject_Z m <= inject_Z m') by (by rewrite <- Zle_Qle).
  assert (Hqnn : inject_Z n <= inject_Z n') by (by rewrite <- Zle_Qle).
  pose proof (rnd_nonneg rnd R _ Hqm) as H1.
  pose proof (rnd_nonneg rnd R _ Hqn) as H2.
  pose proof (rnd_mono rnd R _ _ Hqm Hqmm) as H3.
  pose proof (rnd_mono rnd R _ _ Hqn Hqnn) as H4.
  assert (H5 : 0 <= rnd (inject_Z m) * s) by nra.
  assert (H6 : rnd (inject_Z m) * s <= rnd (inject_Z m') * s) by nra.
  pose proof (rnd_nonneg rnd R _ H5) as H7.
  pose proof (rnd_mono rnd R _ _ H5 H6) as H8.
  apply (rnd_mono rnd R); lra.
Qed.

Lemma smoothed_value_pos (m n : Z) (s : Q) :
  (1 <= m)%Z -> (0 <= n)%Z -> rnd s == s -> 0 < s ->
  s <= smoothed_value rnd m s n.
Proof.
  intros Hm Hn Hrs Hs. unfold smoothed_value.
  assert (Hqm : 1 <= inject_Z m).
  { change 1 with (inject_Z 1). by rewrite <- Zle_Qle. }
  assert (Hqn : 0 <= inject_Z n).
  { change 0 with (inject_Z 0). by rewrite <- Zle_Qle. }
  pose proof (rnd_ge_one rnd R _ Hqm) as H1.
  pose proof (rnd_nonneg rnd R _ Hqn) as H2.
  assert (H3 : s <= rnd (inject_Z m) * s) by nra.
  pose proof (rnd_mono rnd R s _ ltac:(lra) H3) as H4.
  rewrite <- Hrs at 1.
  apply (rnd_mono rnd R); lra.
Qed.


Lemma in_unit_Finite (x : float64) :
  fle (Finite 0) x && fle x (Finite 1) = true ->
  exists s, x = Finite s /\ 0 <= s /\ s <= 1.
Proof.
  destruct x as [s| | |]; simpl; try done.
  intros H. apply andb_true_iff in H as [H0 H1].
  apply Qle_bool_iff in H0, H1. eauto.
Qed.

Lemma in_unit_intro (s : Q) :
  0 <= s -> s <= 1 -> fle (Finite 0) (Finite s) && fle (Finite s) (Finite 1) = true.
Proof.
  intros H0 H1. simpl. apply andb_true_iff. by rewrite !Qle_bool_iff.
Qed.

Lemma flt_zero_pos (s : Q) : flt (Finite 0) (Finite s) = true <-> 0 < s.
Proof. simpl. destruct (Qlt_le_dec 0 s); split; try done. lra. Qed.

Lemma flt_zero_not_pos (s : Q) : flt (Finite 0) (Finite s) = false <-> s <= 0.
Proof. simpl. destruct (Qlt_le_dec 0 s); split; try done. lra. Qed.

Lemma elem_of_counts (counts : list (K * Z)) (item : K * Z) :
  item ∈ counts -> item.2 ∈ counts.*2.
Proof. intros Hin. apply list_elem_of_fmap. eauto. Qed.

(** The call with [smoothing > 0] on bounded counts. *)
Lemma compute_smoothing (counts : list (K * Z)) (s : Q) (clip : float64) (m : Z) :
  (forall n, n ∈ counts.*2 -> (0 <= n <= count_bound)%Z) ->
  0 < s -> s <= 1 ->
  py_max (values (ints counts)) = Ok (PyInt m) ->
  m ∈ counts.*2 -> (forall n, n ∈ counts.*2 -> (n <= m)%Z) ->
  let r := compute_class_weights rnd (ints counts) (Finite s) clip in
  exists mj,
    mj == smoothed_value rnd m s m /\
    r.1 = (fun item => (item.1, PyFloat (Finite (smoothed_value rnd m s item.2))))
            <$> counts /\
    ((exists n, n ∈ counts.*2 /\ smoothed_value rnd m s n == 0) ->
     r.2 = Err ZeroDivisionError) /\
    ((forall n, n ∈ counts.*2 -> ~ smoothed_value rnd m s n == 0) ->
     r.2 = Ok ((fun item =>
                  (item.1, round_clip rnd clip
                             (fl rnd (mj / smoothed_value rnd m s item.2))))
                 <$> counts)).
Proof.
  intros Hb Hs0 Hs1 Hm Hin Hmax r. unfold r. clear r.
  assert (Hbm : (0 <= m <= count_bound)%Z) by auto.
  rewrite compute_in_range by (apply in_unit_intro; lra).
  rewrite (smooth_ints rnd counts (Finite s) m); cycle 1.
  { by apply flt_zero_pos. }
  { done. }
  { intros n Hn. rewrite fl_int_finite by auto. eauto. }
  { rewrite fl_int_finite by auto. eauto. }
  cbn [fst snd rbind].
  assert (Hd : (fun item : K * Z =>
                  (item.1, PyFloat (smoothed_count rnd m (Finite s) item.2)))
                 <$> counts
               = (fun item : K * Z =>
                    (item.1, PyFloat (Finite (smoothed_value rnd m s item.2))))
                   <$> counts).
  { apply list_fmap_ext. intros i item Hi.
    rewrite smoothed_count_finite; [done|done| |lra|lra].
    apply Hb, elem_of_counts. apply list_elem_of_lookup. eauto. }
  rewrite Hd. clear Hd.
  set (data' := (fun item : K * Z =>
                   (item.1, PyFloat (Finite (smoothed_value rnd m s item.2))))
                  <$> counts).
  assert (Hv : values data'
               = (fun q => PyFloat (Finite q))
                   <$> (smoothed_value rnd m s <$> counts.*2)).
  { unfold values, data'. rewrite <- !list_fmap_compose. done. }
  destruct (py_max_finite (smoothed_value rnd m s <$> counts.*2))
    as (mj & Hmj & Hmjin & Hmjmax).
  { intros E. apply fmap_nil_inv in E. rewrite E in Hin. inversion Hin. }
  rewrite Hv, Hmj. cbn [rbind].
  assert (Emj : mj == smoothed_value rnd m s m).
  { apply Qle_antisym.
    - apply list_elem_of_fmap in Hmjin as (n & -> & Hn).
      apply smoothed_value_mono; try lia; try lra; try done.
      + apply (Hb n Hn).
      + by apply Hmax.
    - apply Hmjmax. apply list_elem_of_fmap. eauto. }
  exists mj. split; [done|]. split; [done|]. split.
  - intros (n & Hn & Hz).
    apply comprehension_some_Err.
    + intros [k v] Hitem. unfold data' in Hitem.
      apply list_elem_of_fmap in Hitem as ([k' n'] & [= -> ->] & _).
      simpl. rewrite weight_floats. destruct (is_zero _); eauto.
    + apply list_elem_of_fmap in Hn as ([k n'] & -> & Hitem).
      exists (k, PyFloat (Finite (smoothed_value rnd m s n'))). split.
      * unfold data'. apply list_elem_of_fmap. by exists (k, n').
      * simpl. rewrite weight_floats. simpl.
        apply Qeq_bool_iff in Hz. simpl in Hz. by rewrite Hz.
  - intros Hnz.
    rewrite (comprehension_all_Ok _
               (fun item => round_clip rnd clip
                              (fdiv rnd (Finite mj) (exact item.2)))).
    + unfold data'. rewrite <- list_fmap_compose. done.
    + intros [k v] Hitem. unfold data' in Hitem.
      apply list_elem_of_fmap in Hitem as ([k' n'] & [= -> ->] & Hitem).
      simpl. rewrite weight_floats. simpl.
      assert (Hq : Qeq_bool (smoothed_value rnd m s n') 0 = false).
      { apply Qeq_bool_false. apply Hnz. by apply (elem_of_counts _ (k', n')). }
      by rewrite Hq.
Qed.

(** The call with [smoothing = 0] on bounded counts. *)
Lemma compute_no_smoothing (counts : list (K * Z)) (s : Q) (clip : float64) (m : Z) :
  (forall n, n ∈ counts.*2 -> (0 <= n <= count_bound)%Z) ->
  s == 0 ->
  py_max (values (ints counts)) = Ok (PyInt m) ->
  m ∈ counts.*2 -> (forall n, n ∈ counts.*2 -> (n <= m)%Z) ->
  let r := compute_class_weights rnd (ints counts) (Finite s) clip in
  r.1 = ints counts /\
  ((exists n, n ∈ counts.*2 /\ n = 0%Z) -> r.2 = Err ZeroDivisionError) /\
  ((forall n, n ∈ counts.*2 -> (0 < n)%Z) ->
   r.2 = Ok ((fun item =>
                (item.1, round_clip rnd clip
                           (fl rnd (inject_Z m / inject_Z item.2))))
               <$> counts)).
Proof.
  intros Hb Hs Hm Hin Hmax r. unfold r. clear r.
  assert (Hbm : (0 <= m <= count_bound)%Z) by auto.
  rewrite compute_in_range by (apply in_unit_intro; lra).
  rewrite smooth_zero by (apply flt_zero_not_pos; lra).
  cbn [fst snd rbind]. rewrite Hm. cbn [rbind].
  assert (Hw : forall n, (0 <= n <= count_bound)%Z -> n <> 0%Z ->
             weight rnd (PyInt m) clip (PyInt n)
             = Ok (round_clip rnd clip (fl rnd (inject_Z m / inject_Z n)))).
  { intros n Hn Hnz. rewrite weight_ints.
    destruct (Z.eqb_spec n 0%Z) as [|_]; [done|].
    destruct (int_bounds m Hbm) as [Hm0 Hm1].
    assert (Hn1 : 1 <= inject_Z n).
    { change 1 with (inject_Z 1). rewrite <- Zle_Qle. lia. }
    assert (Hq0 : 0 <= inject_Z m / inject_Z n).
    { apply Qle_shift_div_l; lra. }
    assert (Hq1 : inject_Z m / inject_Z n <= inject_Z m).
    { apply Qle_shift_div_r; [lra|]. nra. }
    pose proof (pow2_le 1022 1023 ltac:(lia)).
    rewrite (fl_finite rnd R) by lra. done. }
  split; [done|]. split.
  - intros (n & Hn & ->).
    apply comprehension_some_Err.
    + intros [k v] Hitem.
      apply elem_of_ints in Hitem as (n & -> & Hitem). simpl.
      destruct (Z.eq_dec n 0%Z) as [->|Hnz].
      * right. rewrite weight_ints. done.
      * left. rewrite Hw; [eauto| |done].
        by apply Hb, (elem_of_counts _ (k, n)).
    + apply list_elem_of_fmap in Hn as ([k n'] & Hn' & Hitem).
      simpl in Hn'. subst n'.
      exists (k, PyInt 0%Z). split.
      * apply elem_of_ints. eauto.
      * simpl. by rewrite weight_ints.
  - intros Hpos.
    rewrite (comprehension_all_Ok _
               (fun item => round_clip rnd clip
                              (match item.2 with
                               | PyInt n => fl rnd (inject_Z m / inject_Z n)
                               | PyFloat x => x
                               end))).
    + unfold ints. rewrite <- list_fmap_compose. done.
    + intros [k v] Hitem.
      apply elem_of_ints in Hitem as (n & -> & Hitem). simpl.
      pose proof (elem_of_counts _ _ Hitem) as Hn. simpl in Hn.
      apply Hw; [by apply Hb|]. apply Hpos in Hn. lia.
Qed.


(** With a positive largest count and a positive [smoothing], a count is
    positive after the smoothing step, or an infinity. *)
Lemma smoothed_count_pos (m n : Z) (s : Q) :
  rnd s == s -> 0 < s -> (1 <= m)%Z -> (0 <= n)%Z ->
  (exists q, fl rnd (inject_Z m) = Finite q) ->
  (exists q, fl rnd (inject_Z n) = Finite q) ->
  flt (Finite 0) (smoothed_count rnd m (Finite s) n) = true.
Proof.
  intros Hrs Hs Hm Hn [fm Hfm] [fn Hfn].
  assert (Hqm : 1 <= inject_Z m).
  { change 1 with (inject_Z 1). by rewrite <- Zle_Qle. }
  assert (Hqn : 0 <= inject_Z n).
  { change 0 with (inject_Z 0). by rewrite <- Zle_Qle. }
  pose proof (rnd_ge_one rnd R _ Hqm) as H1.
  pose proof (rnd_nonneg rnd R _ Hqn) as H2.
  destruct (fl_nonneg rnd R (inject_Z m) ltac:(lra)) as [E|[E _]];
    [congruence|].
  destruct (fl_nonneg rnd R (inject_Z n) Hqn) as [E'|[E' _]]; [congruence|].
  unfold smoothed_count. rewrite E, E'. cbn [fmul].
  assert (H3 : s <= rnd (inject_Z m) * s) by nra.
  pose proof (rnd_mono rnd R s _ ltac:(lra) H3) as H4.
  destruct (fl_nonneg rnd R (rnd (inject_Z m) * s) ltac:(lra)) as [Ep|[Ep _]];
    rewrite Ep; [done|]. cbn [fadd].
  assert (H5 : s <= rnd (inject_Z n) + rnd (rnd (inject_Z m) * s)) by lra.
  pose proof (rnd_mono rnd R s _ ltac:(lra) H5) as H6.
  destruct (fl_nonneg rnd R (rnd (inject_Z n) + rnd (rnd (inject_Z m) * s))
              ltac:(lra)) as [Eq|[Eq _]]; rewrite Eq; [done|].
  apply flt_zero_pos. lra.
Qed.

Lemma quotient_finite (m n : Z) :
  (0 <= m <= count_bound)%Z -> (1 <= n)%Z ->
  fl rnd (inject_Z m / inject_Z n) = Finite (rnd (inject_Z m / inject_Z n)) /\
  0 <= inject_Z m / inject_Z n.
Proof.
  intros Hm Hn. destruct (int_bounds m Hm) as [Hm0 Hm1].
  assert (Hn1 : 1 <= inject_Z n).
  { change 1 with (inject_Z 1). by rewrite <- Zle_Qle. }
  assert (Hq0 : 0 <= inject_Z m / inject_Z n).
  { apply Qle_shift_div_l; lra. }
  assert (Hq1 : inject_Z m / inject_Z n <= inject_Z m).
  { apply Qle_shift_div_r; [lra|]. nra. }
  pose proof (pow2_le 1022 1023 ltac:(lia)).
  split; [|done]. apply (fl_finite rnd R); lra.
Qed.

(** On bounded counts no conversion and no quotient overflows. *)
Lemma compute_bounded_no_overflow (counts : list (K * Z))
    (smoothing clip : float64) :
  (forall n, n ∈ counts.*2 -> (0 <= n <= count_bound)%Z) ->
  (compute_class_weights rnd (ints counts) smoothing clip).2 <> Err OverflowError.
Proof.
  intros Hb He.
  apply compute_ints_Err in He
    as [[? _]|[[? _]|[[? _]|(_ & _ & _ & n & Hn & [Hbad|(_ & m & Hm & Hnz & Hq)])]]];
    try done.
  - unfold float_of_int in Hbad. by rewrite fl_int_finite in Hbad by auto.
  - destruct (quotient_finite m n) as [E _]; [auto|pose proof (Hb n Hn); lia|].
    by apply (Hq _ E).
Qed.

Lemma count_bound_nonneg : (0 <= count_bound)%Z.
Proof. unfold count_bound. apply Z.pow_nonneg. lia. Qed.

(** A dictionary whose counts are all zero. *)
Lemma compute_all_zero (counts : list (K * Z)) (smoothing clip : float64) :
  fle (Finite 0) smoothing && fle smoothing (Finite 1) = true ->
  counts <> [] ->
  (forall n, n ∈ counts.*2 -> n = 0%Z) ->
  (compute_class_weights rnd (ints counts) smoothing clip).2
  = Err ZeroDivisionError.
Proof.
  intros Er Hne Hz.
  apply in_unit_Finite in Er as (s & -> & Hs0 & Hs1).
  destruct (py_max_ints counts Hne) as (m & Hm & Hin & Hmax).
  pose proof count_bound_nonneg as Hcb.
  assert (Hb : forall n, n ∈ counts.*2 -> (0 <= n <= count_bound)%Z).
  { intros n Hn. rewrite (Hz n Hn). lia. }
  destruct (Qlt_le_dec 0 s) as [Hpos|Hle].
  - destruct (compute_smoothing counts s clip m Hb Hpos Hs1 Hm Hin Hmax)
      as (mj & _ & _ & Hzero & _).
    apply Hzero. exists m. split; [done|].
    rewrite (Hz m Hin). unfold smoothed_value.
    pose proof (rnd_zero rnd R) as H0.
    assert (E0 : rnd (inject_Z 0) == 0) by exact H0.
    assert (E1 : rnd (rnd (inject_Z 0) * s) == 0).
    { transitivity (rnd 0); [|exact H0].
      apply (rnd_comp rnd R); generalize dependent (rnd (inject_Z 0));
        intros a Ha; nra. }
    transitivity (rnd 0); [|exact H0].
    apply (rnd_comp rnd R); lra.
  - destruct (compute_no_smoothing counts s clip m Hb ltac:(lra) Hm Hin Hmax)
      as (_ & Hzero & _).
    apply Hzero. exists m. split; [done|]. by apply Hz.
Qed.

Lemma smoothed_value_zero (s : Q) :
  0 <= s -> smoothed_value rnd 0 s 0 == 0.
Proof.
  intros Hs. unfold smoothed_value.
  pose proof (rnd_zero rnd R) as H0.
  assert (E0 : rnd (inject_Z 0) == 0) by exact H0.
  assert (E1 : rnd (rnd (inject_Z 0) * s) == 0).
  { transitivity (rnd 0); [|exact H0].
    apply (rnd_comp rnd R); generalize dependent (rnd (inject_Z 0));
      intros a Ha; nra. }
  transitivity (rnd 0); [|exact H0].
  apply (rnd_comp rnd R); lra.
Qed.

End B64Run.
(** ** [binary64] is a rounding *)

Section B64Binary64.
Import B64.

Lemma pow2_plus (a b : Z) : pow2 (a + b) == pow2 a * pow2 b.
Proof. unfold pow2. apply Qpower_plus. discriminate. Qed.

Lemma pow2_Z (a : Z) : (0 <= a)%Z -> pow2 a == inject_Z (2 ^ a).
Proof. intros Ha. unfold pow2. by rewrite Zpower_Qpower. Qed.

Lemma pow2_lt_inv (a b : Z) : pow2 a < pow2 b -> (a < b)%Z.
Proof. intros H. apply (Qpower_lt_compat_l_inv 2); [done|reflexivity]. Qed.

Lemma ilog2_spec (x : Q) :
  0 < x -> pow2 (ilog2 x) <= x /\ x < pow2 (ilog2 x + 1).
Proof.
  intros Hx. destruct x as [n d].
  assert (Hn : (0 < n)%Z).
  { unfold Qlt in Hx. simpl in Hx. lia. }
  unfold ilog2. cbn [Qnum Qden].
  set (a := Z.log2 n). set (b := Z.log2 (Z.pos d)).
  pose proof (Z.log2_nonneg n) as Ha0. fold a in Ha0.
  pose proof (Z.log2_nonneg (Z.pos d)) as Hb0. fold b in Hb0.
  destruct (Z.log2_spec n Hn) as [Ha1 Ha2]. fold a in Ha1, Ha2.
  destruct (Z.log2_spec (Z.pos d) ltac:(lia)) as [Hb1 Hb2]. fold b in Hb1, Hb2.
  rewrite Zle_Qle in Ha1, Hb1. rewrite Zlt_Qlt in Ha2, Hb2.
  rewrite <- pow2_Z in Ha1, Hb1 by lia.
  rewrite <- !pow2_Z in Ha2, Hb2 by lia.
  replace (Z.succ a) with (a + 1)%Z in Ha2 by lia.
  replace (Z.succ b) with (b + 1)%Z in Hb2 by lia.
  rewrite pow2_plus in Ha2, Hb2.
  pose proof (pow2_plus (a - b) b) as Hl.
  replace (a - b + b)%Z with a in Hl by lia.
  pose proof (pow2_plus (a - b - 1) 1) as Hl1.
  replace (a - b - 1 + 1)%Z with (a - b)%Z in Hl1 by lia.
  pose proof (pow2_plus (a - b) 1) as Hl2.
  assert (E1 : pow2 1 == 2) by reflexivity.
  pose proof (pow2_pos (a - b)) as Hp. pose proof (pow2_pos (a - b - 1)) as Hp1.
  pose proof (pow2_pos a) as HA. pose proof (pow2_pos b) as HB.
  assert (Ex : (n # d) * inject_Z (Z.pos d) == inject_Z n).
  { unfold Qeq, Qmult, inject_Z. simpl. lia. }
  assert (HD : 0 < inject_Z (Z.pos d)).
  { change 0 with (inject_Z 0). rewrite <- Zlt_Qlt. lia. }
  assert (Hgoal : pow2 (a - b - 1) <= n # d /\ n # d < pow2 (a - b + 1)).
  { remember (inject_Z (Z.pos d)) as D eqn:HeqD. clear HeqD.
    remember (inject_Z n) as N eqn:HeqN. clear HeqN.
    remember (n # d) as x eqn:Heqx. clear Heqx.
    remember (pow2 (a - b + 1)) as P2 eqn:HeqP2. clear HeqP2.
    remember (pow2 (a - b - 1)) as P1 eqn:HeqP1. clear HeqP1.
    remember (pow2 (a - b)) as P eqn:HeqP. clear HeqP.
    remember (pow2 a) as A eqn:HeqA. clear HeqA.
    remember (pow2 b) as B eqn:HeqB. clear HeqB.
    remember (pow2 1) as T eqn:HeqT. clear HeqT.
    split.
    - destruct (Qlt_le_dec x P1) as [Hlt|]; [|done]. exfalso.
      assert (x * D < P1 * D) by nra.
      assert (P1 * D < P1 * (B * T)) by nra.
      nra.
    - destruct (Qlt_le_dec x P2) as [|Hge]; [done|]. exfalso.
      assert (P2 * D <= x * D) by nra.
      assert (P2 * B <= P2 * D) by nra.
      nra. }
  destruct Hgoal as [Hlow Hhigh].
  destruct (Qle_bool (pow2 (a - b)) (n # d)) eqn:E.
  - apply Qle_bool_iff in E. done.
  - assert (Hlt : n # d < pow2 (a - b)).
    { apply Qnot_le_lt. intros Hle. apply Qle_bool_iff in Hle. congruence. }
    replace (a - b - 1 + 1)%Z with (a - b)%Z by lia. done.
Qed.


Lemma ilog2_unique (x : Q) (e : Z) :
  pow2 e <= x -> x < pow2 (e + 1) -> ilog2 x = e.
Proof.
  intros Hlo Hhi.
  assert (Hx : 0 < x) by (pose proof (pow2_pos e); lra).
  destruct (ilog2_spec x Hx) as [Hlo' Hhi'].
  assert (H1 : (e < ilog2 x + 1)%Z) by (apply pow2_lt_inv; lra).
  assert (H2 : (ilog2 x < e + 1)%Z) by (apply pow2_lt_inv; lra).
  lia.
Qed.

Lemma ilog2_mono (x y : Q) : 0 < x -> x <= y -> (ilog2 x <= ilog2 y)%Z.
Proof.
  intros Hx Hxy.
  destruct (ilog2_spec x Hx) as [Hlo _].
  destruct (ilog2_spec y ltac:(lra)) as [_ Hhi].
  assert (H : (ilog2 x < ilog2 y + 1)%Z) by (apply pow2_lt_inv; lra).
  lia.
Qed.

Lemma Qabs_nonneg_eq (x : Q) : 0 <= x -> Qabs x = x.
Proof.
  destruct x as [n d]. unfold Qle. simpl. intros Hn.
  unfold Qabs. f_equal. lia.
Qed.

(** The exponent of the last bit kept. *)
Lemma binary64_eq (x : Q) :
  0 <= x ->
  let e := Z.max (ilog2 x - 52) (-1074) in
  binary64 x == inject_Z (round_half_even (x / pow2 e)) * pow2 e.
Proof.
  intros Hx. unfold binary64. rewrite Qabs_nonneg_eq by done.
  apply Qred_correct.
Qed.

Lemma binary64_zero : binary64 0 == 0.
Proof. vm_compute. reflexivity. Qed.

Lemma binary64_nonneg (x : Q) : 0 <= x -> 0 <= binary64 x.
Proof.
  intros Hx. rewrite binary64_eq by done. cbv zeta.
  set (e := Z.max (ilog2 x - 52) (-1074)).
  pose proof (pow2_pos e) as He.
  assert (H0 : 0 <= x / pow2 e) by (apply Qle_shift_div_l; lra).
  apply round_half_even_nonneg in H0. rewrite Zle_Qle in H0.
  change (inject_Z 0) with 0 in H0. nra.
Qed.

Lemma binary64_pow2 (e : Z) : (0 <= e <= 1023)%Z -> binary64 (pow2 e) == pow2 e.
Proof.
  intros He. pose proof (pow2_pos e) as Hp.
  rewrite binary64_eq by lra. cbv zeta.
  rewrite (ilog2_unique (pow2 e) e); [|lra|apply pow2_lt; lia].
  replace (Z.max (e - 52) (-1074)) with (e - 52)%Z by lia.
  pose proof (pow2_plus 52 (e - 52)) as Hs.
  replace (52 + (e - 52))%Z with e in Hs by lia.
  pose proof (pow2_pos (e - 52)) as Hp'.
  assert (Eq : pow2 e / pow2 (e - 52) == inject_Z (2 ^ 52)).
  { rewrite <- pow2_Z by lia. rewrite Hs. field. lra. }
  rewrite (round_half_even_comp _ _ Eq), round_half_even_Z.
  rewrite <- pow2_Z by lia. by rewrite Hs.
Qed.

Lemma binary64_mono (x y : Q) : 0 <= x -> x <= y -> binary64 x <= binary64 y.
Proof.
  intros Hx Hxy.
  destruct (Qlt_le_dec 0 x) as [Hpos|Hle].
  2: { assert (E : binary64 x == 0).
       { rewrite binary64_eq by done. cbv zeta.
         set (e := Z.max (ilog2 x - 52) (-1074)).
         pose proof (pow2_pos e) as He.
         assert (E0 : x / pow2 e == inject_Z 0).
         { change (inject_Z 0) with 0. assert (x == 0) as -> by lra.
           field. lra. }
         rewrite (round_half_even_comp _ _ E0), round_half_even_Z.
         change (inject_Z 0) with 0. ring. }
       rewrite E. apply binary64_nonneg. lra. }
  rewrite (binary64_eq x), (binary64_eq y) by lra. cbv zeta.
  set (ex := Z.max (ilog2 x - 52) (-1074)).
  set (ey := Z.max (ilog2 y - 52) (-1074)).
  pose proof (ilog2_mono x y Hpos Hxy) as Hlog.
  pose proof (pow2_pos ex) as Hpx. pose proof (pow2_pos ey) as Hpy.
  destruct (Z.eq_dec ex ey) as [E|Hne].
  - rewrite E.
    assert (Hq : x / pow2 ey <= y / pow2 ey).
    { apply Qdiv_le_cross; [done|done|]. nra. }
    apply round_half_even_mono in Hq. rewrite Zle_Qle in Hq. nra.
  - assert (Hlt : (ex + 1 <= ey)%Z) by lia.
    assert (Hey : ey = (ilog2 y - 52)%Z) by lia.
    destruct (ilog2_spec x Hpos) as [_ Hxhi].
    destruct (ilog2_spec y ltac:(lra)) as [Hylo _].
    (* x stays below 2^(ex + 53) *)
    pose proof (pow2_le (ilog2 x + 1) (ex + 53) ltac:(lia)) as H1.
    pose proof (pow2_plus 53 ex) as H53.
    replace (53 + ex)%Z with (ex + 53)%Z in H53 by lia.
    assert (Hqx : x / pow2 ex <= inject_Z (2 ^ 53)).
    { rewrite <- pow2_Z by lia. apply Qle_shift_div_r; [done|]. lra. }
    apply round_half_even_mono in Hqx. rewrite round_half_even_Z in Hqx.
    rewrite Zle_Qle in Hqx. rewrite <- pow2_Z in Hqx by lia.
    (* y is at least 2^(ey + 52) *)
    pose proof (pow2_plus 52 ey) as H52.
    replace (52 + ey)%Z with (ilog2 y) in H52 by lia.
    assert (Hqy : inject_Z (2 ^ 52) <= y / pow2 ey).
    { rewrite <- pow2_Z by lia. apply Qle_shift_div_l; [done|]. lra. }
    apply round_half_even_mono in Hqy. rewrite round_half_even_Z in Hqy.
    rewrite Zle_Qle in Hqy. rewrite <- pow2_Z in Hqy by lia.
    (* and 2^(ex + 53) <= 2^(ey + 52) *)
    pose proof (pow2_le (ex + 53) (ey + 52) ltac:(lia)) as H2.
    pose proof (pow2_plus 52 ey) as H52'.
    replace (52 + ey)%Z with (ey + 52)%Z in H52' by lia.
    pose proof (pow2_pos 52). pose proof (pow2_pos 53).
    generalize dependent (inject_Z (round_half_even (x / pow2 ex))).
    generalize dependent (inject_Z (round_half_even (y / pow2 ey))).
    intros. nra.
Qed.

Lemma binary64_rounding : rounding binary64.
Proof.
  constructor; [exact binary64_zero | exact binary64_mono | exact binary64_pow2].
Qed.

(** In the range of the normal numbers the relative error of rounding is
    at most [eps]. *)
Lemma binary64_error (x : Q) :
  pow2 (-1022) <= x ->
  x * (1 - eps) <= binary64 x /\ binary64 x <= x * (1 + eps).
Proof.
  intros Hx. pose proof (pow2_pos (-1022)) as Hp0.
  assert (Hpos : 0 < x) by lra.
  rewrite binary64_eq by lra. cbv zeta.
  assert (Hlog : (-1022 <= ilog2 x)%Z).
  { rewrite <- (ilog2_unique (pow2 (-1022)) (-1022)); [|lra|apply pow2_lt; lia].
    by apply ilog2_mono. }
  replace (Z.max (ilog2 x - 52) (-1074)) with (ilog2 x - 52)%Z by lia.
  destruct (ilog2_spec x Hpos) as [Hlo _].
  set (e := ilog2 x) in *.
  pose proof (pow2_pos (e - 52)) as Hp.
  destruct (round_half_even_nearest (x / pow2 (e - 52))) as (H1 & H2 & _).
  cbv zeta in H1, H2.
  assert (Ex : x / pow2 (e - 52) * pow2 (e - 52) == x) by (field; lra).
  pose proof (pow2_plus (e - 52) (-1)) as Hhalf.
  replace (e - 52 + -1)%Z with (e - 53)%Z in Hhalf by lia.
  assert (E1 : pow2 (-1) == 1 # 2) by reflexivity.
  pose proof (pow2_plus e (-53)) as He.
  replace (e + -53)%Z with (e - 53)%Z in He by lia.
  unfold eps.
  pose proof (pow2_pos (-53)) as Heps.
  pose proof (pow2_pos (e - 53)) as Hp53.
  remember (inject_Z (round_half_even (x / pow2 (e - 52)))) as r eqn:Hr. clear Hr.
  remember (x / pow2 (e - 52)) as z eqn:Hz. clear Hz.
  remember (pow2 (e - 52)) as p eqn:Hpp. clear Hpp.
  remember (pow2 (e - 53)) as h eqn:Hh. clear Hh.
  remember (pow2 (-53)) as u eqn:Hu. clear Hu.
  remember (pow2 (-1)) as t eqn:Ht. clear Ht.
  remember (pow2 e) as P eqn:HP. clear HP.
  assert (Hxu : h <= x * u) by nra.
  split; nra.
Qed.

(** [binary64] against the division of [SpecFloat]: decimal fractions,
    ties, integers beyond 2^53, subnormal numbers and the neighbours of the
    largest float. *)
Example binary64_samples :
  Forall (fun x => binary64_by_division x = Some (binary64 x))
    [1 # 10; 15 # 100; 32 # 100; 43 # 40; 9 # 8; 1 # 3; - (7 # 3);
     4125 # 1000; 767 # 100; inject_Z (2 ^ 53 + 1); inject_Z (2 ^ 53 + 3);
     inject_Z (10 ^ 23); inject_Z (10 ^ 308); 1 # (10 ^ 400)%positive;
     1 # (2 ^ 1074)%positive; 1 # (2 ^ 1075)%positive; 3 # (2 ^ 1075)%positive;
     5 # (2 ^ 1076)%positive; (2 ^ 53 + 1) # (2 ^ 1074)%positive;
     inject_Z (2 ^ 1024 - 2 ^ 970 - 1)] /\
  Forall (fun x => binary64_by_division x = None /\
                   overflow_threshold <= binary64 x)
    [inject_Z (2 ^ 1024 - 2 ^ 970); inject_Z (2 ^ 1024); inject_Z (10 ^ 400)].
Proof.
  split.
  - repeat constructor; vm_compute; reflexivity.
  - repeat constructor; try (vm_compute; reflexivity);
      apply Qle_bool_iff; vm_compute; reflexivity.
Qed.

End B64Binary64.

(** ** Properties of [compute_class_weights] *)

(** The examples of the specification:
    [compute({"a": 100, "b": 1}, smoothing=0, clip=10)] is
    [{"a": 1.0, "b": 10.0}] and [compute({"a": 10, "b": 10}, smoothing=0)]
    is [{"a": 1.0, "b": 1.0}]. *)
Example compute_class_weights_a100_b1 :
  let r := compute_class_weights
             ({[ "a"%string := 100; "b"%string := 1 ]} : gmap string Q) 0 10 in
  returned_weight r "a"%string = Some 1 /\ returned_weight r "b"%string = Some 10.
Proof. split; vm_compute; reflexivity. Qed.

Example compute_class_weights_a10_b10 :
  let r := compute_class_weights
             ({[ "a"%string := 10; "b"%string := 10 ]} : gmap string Q) 0 10 in
  returned_weight r "a"%string = Some 1 /\ returned_weight r "b"%string = Some 1.
Proof. split; vm_compute; reflexivity. Qed.





(** The properties on the binary64 embedding are stated for every
    rounding [rnd]; where they need it they assume [rounding rnd], which
    [binary64] satisfies ([binary64_rounding]). *)

Section B64Properties.
Import B64.
Context {K : Type}.
Variable rnd : Q -> Q.

(** C1, as the code has it: the call is not free of side effects.  It
    leaves the caller's dictionary as it was when [smoothing] is outside
    [0, 1] (the assertion), when [smoothing] is not above 0, when the
    dictionary is empty, and when [max(counts) * smoothing] raises
    [OverflowError] (line 59).  Otherwise the loop of lines 60-61 replaces
    the counts in the order of the dictionary, each by its float plus
    [max(counts) * smoothing]: all of them, or those before the first
    [int] too large for a float, where the call raises [OverflowError]
    with the earlier counts already replaced. *)
Theorem compute_class_weights_frame
    (data : list (K * number)) (smoothing clip : float64) :
  let r := compute_class_weights rnd data smoothing clip in
  (fle (Finite 0) smoothing && fle smoothing (Finite 1) = false ->
   r = (data, Err (AssertionError SmoothingOutOfRange))) /\
  (flt (Finite 0) smoothing = false -> r.1 = data) /\
  (data = [] -> r.1 = data) /\
  (forall m,
     fle (Finite 0) smoothing && fle smoothing (Finite 1) = true ->
     flt (Finite 0) smoothing = true ->
     py_max (values data) = Ok m ->
     (forall e, mul_float rnd m smoothing = Err e ->
        e = OverflowError /\ r = (data, Err OverflowError)) /\
     (forall smoothed_maxval, mul_float rnd m smoothing = Ok smoothed_maxval ->
        exists done done' rest,
          data = done ++ rest /\ r.1 = done' ++ rest /\
          Forall2 (updated rnd smoothed_maxval) done done' /\
          (rest = [] \/
           (r.2 = Err OverflowError /\
            exists k n rest', rest = (k, PyInt n) :: rest' /\
              float_of_int rnd n = Err OverflowError)))).
Proof.
  intros r. unfold r. clear r. split; [apply compute_out_of_range|].
  assert (Hz : flt (Finite 0) smoothing = false ->
               (compute_class_weights rnd data smoothing clip).1 = data).
  { intros Hs.
    destruct (fle (Finite 0) smoothing && fle smoothing (Finite 1)) eqn:Er.
    - rewrite compute_in_range by done. by rewrite smooth_zero.
    - by rewrite compute_out_of_range. }
  split; [done|]. split.
  - intros ->.
    destruct (fle (Finite 0) smoothing && fle smoothing (Finite 1)) eqn:Er.
    + rewrite compute_in_range by done. unfold smooth.
      destruct (flt (Finite 0) smoothing); reflexivity.
    + by rewrite compute_out_of_range.
  - intros m Er Hs Hm. rewrite compute_in_range by done.
    unfold smooth. rewrite Hs, Hm. split.
    + intros e He. rewrite He.
      apply mul_float_Err in He as [-> _]. done.
    + intros sm Hsm. rewrite Hsm.
      destruct (add_to_all_spec rnd sm data)
        as (done & done' & rest & Hd & H1 & HF & Hr).
      exists done, done', rest. split; [done|]. split; [done|]. split; [done|].
      destruct Hr as [[-> _]|(k & n & rest' & -> & Hn & Hr)]; [by left|].
      right. simpl. rewrite Hr. simpl. eauto 6.
Qed.

(** C3, as the code has it, for a dictionary of [int] counts.  A call
    with [smoothing] outside [0, 1] raises [AssertionError], a call on an
    empty dictionary raises [ValueError] (of [max]), and a call that leaves
    a zero count after the smoothing step raises.  Conversely an exception
    is one of four: [AssertionError], only for [smoothing] outside [0, 1];
    [ValueError], only for an empty dictionary; [ZeroDivisionError], only
    with a zero count after the smoothing step; [OverflowError], only with
    an [int] count too large for a float or, when [smoothing] is 0, a
    quotient of two counts too large for a float.  On counts between 0 and
    [2^1022] there is no [OverflowError], so the call raises exactly in
    the first three cases; a dictionary whose counts are all zero is in
    the third.  With a finite [clip] no returned weight is an infinity,
    and none is NaN unless a count is an infinity or NaN after the
    smoothing step. *)
Theorem compute_class_weights_raises_iff
    (counts : list (K * Z)) (smoothing clip : float64) :
  let r := compute_class_weights rnd (ints counts) smoothing clip in
  let in_range := fle (Finite 0) smoothing && fle smoothing (Finite 1) in
  (in_range = false -> r.2 = Err (AssertionError SmoothingOutOfRange)) /\
  (in_range = true -> counts = [] -> r.2 = Err (ValueError MaxOfEmpty)) /\
  ((exists k v, (k, v) ∈ r.1 /\ is_zero (exact v) = true) ->
   exists e, r.2 = Err e) /\
  (forall e, r.2 = Err e ->
     (e = AssertionError SmoothingOutOfRange /\ in_range = false) \/
     (e = ValueError MaxOfEmpty /\ in_range = true /\ counts = []) \/
     (e = ZeroDivisionError /\ in_range = true /\ counts <> [] /\
      exists k v, (k, v) ∈ r.1 /\ is_zero (exact v) = true) \/
     (e = OverflowError /\ in_range = true /\ counts <> [] /\
      exists n, n ∈ counts.*2 /\
        (float_of_int rnd n = Err OverflowError \/
         (flt (Finite 0) smoothing = false /\
          exists m, m ∈ counts.*2 /\ n <> 0%Z /\
            forall q, fl rnd (inject_Z m / inject_Z n) <> Finite q)))) /\
  (rounding rnd ->
   (forall n, n ∈ counts.*2 -> (0 <= n <= count_bound)%Z) ->
   forall e, r.2 = Err e <->
     (e = AssertionError SmoothingOutOfRange /\ in_range = false) \/
     (e = ValueError MaxOfEmpty /\ in_range = true /\ counts = []) \/
     (e = ZeroDivisionError /\ in_range = true /\ counts <> [] /\
      exists k v, (k, v) ∈ r.1 /\ is_zero (exact v) = true)) /\
  (rounding rnd -> in_range = true -> counts <> [] ->
   (forall n, n ∈ counts.*2 -> n = 0%Z) -> r.2 = Err ZeroDivisionError) /\
  (forall c ws k w, clip = Finite c -> r.2 = Ok ws -> (k, w) ∈ ws ->
     w <> PosInf /\ w <> NegInf /\
     ((forall k' v, (k', v) ∈ r.1 -> exists q, exact v = Finite q) ->
      exists q, w = Finite q)).
Proof.
  intros r in_range. unfold r, in_range. clear r in_range.
  split; [intros Er; by rewrite compute_out_of_range|].
  split; [intros Er ->; by apply compute_ints_empty|].
  split; [apply compute_ints_zero_count|].
  split; [intros e; apply compute_ints_Err|].
  split.
  - intros R Hb e. split.
    + intros He. pose proof He as He'.
      apply compute_ints_Err in He as [H|[H|[H|(-> & _)]]]; auto.
      by apply (compute_bounded_no_overflow rnd R) in He'.
    + intros [[-> Er]|[(-> & Er & ->)|(-> & Er & Hne & Hz)]].
      * by rewrite compute_out_of_range.
      * by apply compute_ints_empty.
      * destruct (compute_ints_zero_count rnd counts smoothing clip Hz) as [e He].
        pose proof He as He'.
        apply compute_ints_Err in He as [[_ H]|[(_ & _ & H)|[[-> _]|(-> & _)]]];
          try done; try congruence.
        by apply (compute_bounded_no_overflow rnd R) in He'.
  - split; [intros R; by apply compute_all_zero|].
    intros c ws k w -> Hws Hkw.
    by apply (compute_weights_finite rnd (ints counts) smoothing c ws k w).
Qed.

(** C5, as the code has it: a returned weight is obtained from the float
    quotient [majority / count] by rounding first and clipping second.
    For a finite quotient [q] the rounded value is the float nearest to
    [n/100], a multiple of 1/100 nearest to [q], the even multiple when [q]
    is exactly half way (round half to even).  With a finite [clip] the
    weight is the rounded value when that lies in [0, clip], both ends
    included, [clip] when the rounded value exceeds [clip], and 0 when the
    rounded value is negative and [clip] is not. *)
Theorem compute_class_weights_round_then_clip
    (data : list (K * number)) (smoothing clip : float64)
    (ws : list (K * float64)) (i : nat) (k : K) (x : float64) :
  (compute_class_weights rnd data smoothing clip).2 = Ok ws ->
  ws !! i = Some (k, x) ->
  exists majority v quotient,
    py_max (values (compute_class_weights rnd data smoothing clip).1)
    = Ok majority /\
    (compute_class_weights rnd data smoothing clip).1 !! i = Some (k, v) /\
    py_truediv rnd majority v = Ok quotient /\
    x = np_clip (py_round2 rnd quotient) (Finite 0) clip /\
    forall q, quotient = Finite q ->
      exists n : Z,
        py_round2 rnd quotient = fl rnd (n # 100) /\
        (n # 100) - (1 # 200) <= q /\ q <= (n # 100) + (1 # 200) /\
        ((q == (n # 100) + (1 # 200) \/ q == (n # 100) - (1 # 200)) ->
         Z.even n = true) /\
        forall y c, fl rnd (n # 100) = Finite y -> clip = Finite c ->
          (0 <= y -> y <= c -> exists x', x = Finite x' /\ x' == y) /\
          (c < y -> x = clip) /\
          (y < 0 -> 0 <= c -> exists x', x = Finite x' /\ x' == 0).
Proof.
  intros Hws Hi.
  apply compute_Ok_inv_b64 in Hws as (_ & majority & Hmaj & HF).
  destruct (Forall2_lookup_r _ _ _ _ _ HF Hi) as ([k' v] & Hv & Hk & Hweight).
  cbn [fst snd] in Hk, Hweight. subst k'. unfold weight in Hweight.
  destruct (py_truediv rnd majority v) as [quotient|] eqn:Eq; [|done].
  cbn [rbind] in Hweight. injection Hweight as <-.
  exists majority, v, quotient. repeat split; try done.
  intros q ->. exists (round_half_even (q * 100)).
  destruct (round_half_even_nearest (q * 100)) as (Hlo & Hhi & Htie).
  cbv zeta in Hlo, Hhi, Htie.
  pose proof (Qmake_100_inject (round_half_even (q * 100))) as Hn.
  split; [done|].
  split; [generalize dependent (round_half_even (q * 100) # 100); intros; lra|].
  split; [generalize dependent (round_half_even (q * 100) # 100); intros; lra|].
  split.
  { intros [Ht|Ht]; apply Htie; [left|right];
      generalize dependent (round_half_even (q * 100) # 100); intros; lra. }
  intros y c Hy ->. cbn [py_round2]. rewrite Hy.
  apply np_clip_Finite_cases.
Qed.

(** C9: on [int] counts that are not negative, with a positive count
    and a float [smoothing] in (0, 1], the call never raises
    [ZeroDivisionError]: it returns, or it raises [OverflowError] on a
    count too large for a float; when it returns, every count is above 0
    after the smoothing step; and it returns when the counts are at most
    [2^1022].  With [smoothing = 0] a zero count makes the call raise,
    counts that are all positive rule out [ZeroDivisionError], and on
    counts up to [2^1022] the call returns exactly when every count is
    positive. *)
Theorem compute_class_weights_division_defined
    (counts : list (K * Z)) (s : Q) (clip : float64) :
  rounding rnd ->
  (forall n, n ∈ counts.*2 -> (0 <= n)%Z) ->
  let r := compute_class_weights rnd (ints counts) (Finite s) clip in
  (rnd s == s -> 0 < s -> s <= 1 ->
   (exists n, n ∈ counts.*2 /\ (0 < n)%Z) ->
   r.2 <> Err ZeroDivisionError /\
   ((exists ws, r.2 = Ok ws) \/ r.2 = Err OverflowError) /\
   (forall ws, r.2 = Ok ws ->
      forall k v, (k, v) ∈ r.1 -> flt (Finite 0) (exact v) = true) /\
   ((forall n, n ∈ counts.*2 -> (n <= count_bound)%Z) ->
    exists ws, r.2 = Ok ws)) /\
  (s == 0 -> counts <> [] ->
   ((exists n, n ∈ counts.*2 /\ n = 0%Z) -> exists e, r.2 = Err e) /\
   ((forall n, n ∈ counts.*2 -> (0 < n)%Z) -> r.2 <> Err ZeroDivisionError) /\
   ((forall n, n ∈ counts.*2 -> (n <= count_bound)%Z) ->
    ((exists ws, r.2 = Ok ws) <-> forall n, n ∈ counts.*2 -> (0 < n)%Z))).
Proof.
  intros R Hnn r. unfold r. clear r. split.
  - intros Hrs Hs0 Hs1 (n0 & Hn0 & Hpos0).
    destruct (compute_ints_cases rnd counts (Finite s) clip)
      as [[Er _]|[(_ & -> & _)|[(_ & _ & Es & _)|
          [(_ & _ & _ & E & n & Hn & Hbad)|
           (_ & Hne & _ & m & Hm & Hin & Hmax & Hfin & a & Ha & Hain & E)]]]];
      cbv zeta in *.
    + rewrite in_unit_intro in Er by lra. done.
    + inversion Hn0.
    + apply flt_zero_not_pos in Es. lra.
    + rewrite E. split; [done|]. split; [by right|]. split; [done|].
      intros Hb. exfalso.
      apply (compute_bounded_no_overflow rnd R counts (Finite s) clip); [|done].
      intros n' Hn'. split; [by apply Hnn | by apply Hb].
    + assert (Hm1 : (1 <= m)%Z) by (pose proof (Hmax n0 Hn0); lia).
      assert (Hposall : forall n, n ∈ counts.*2 ->
                flt (Finite 0) (smoothed_count rnd m (Finite s) n) = true).
      { intros n Hn. apply (smoothed_count_pos rnd R); auto. }
      set (data' := (fun item : K * Z =>
                       (item.1, PyFloat (smoothed_count rnd m (Finite s) item.2)))
                      <$> counts) in *.
      assert (Hok : exists ws,
                comprehension (weight rnd (PyFloat a) clip) data' = Ok ws).
      { eexists.
        apply (comprehension_all_Ok _
                 (fun item => round_clip rnd clip (fdiv rnd a (exact item.2)))).
        intros [k v] Hitem. unfold data' in Hitem.
        apply list_elem_of_fmap in Hitem as ([k' n'] & [= -> ->] & Hitem).
        cbn [snd]. rewrite weight_floats.
        rewrite (flt_pos_not_zero _ (Hposall n' (elem_of_counts _ _ Hitem))).
        done. }
      destruct Hok as [ws Hok]. rewrite E. cbn [fst snd]. rewrite Hok.
      split; [done|]. split; [left; eauto|]. split; [|eauto].
      intros _ _ k v Hkv. unfold data' in Hkv.
      apply list_elem_of_fmap in Hkv as ([k' n'] & [= -> ->] & Hitem).
      cbn [exact snd]. apply Hposall. by apply (elem_of_counts _ (k', n')).
  - intros Hs Hne.
    assert (Hzero : (exists n, n ∈ counts.*2 /\ n = 0%Z) ->
              exists e, (compute_class_weights rnd (ints counts) (Finite s) clip).2
                        = Err e).
    { intros (n & Hn & ->). apply compute_ints_zero_count.
      apply list_elem_of_fmap in Hn as ([k n'] & Hn' & Hitem).
      cbn [snd] in Hn'. subst n'.
      destruct (compute_ints_cases rnd counts (Finite s) clip)
        as [[Er _]|[(_ & -> & _)|[(_ & _ & _ & m & _ & _ & _ & E)|
            [(_ & _ & Es & _)|(_ & _ & Es & _)]]]]; cbv zeta in *.
      - rewrite in_unit_intro in Er by lra. done.
      - done.
      - rewrite E. cbn [fst]. exists k, (PyInt 0%Z).
        split; [apply elem_of_ints; eauto|]. by apply is_zero_int.
      - apply flt_zero_pos in Es. lra.
      - apply flt_zero_pos in Es. lra. }
    split; [done|]. split.
    + intros Hpos He.
      apply compute_ints_Err in He
        as [[? _]|[[? _]|[(_ & _ & _ & k & v & Hkv & Hz)|[? _]]]]; try done.
      destruct (compute_ints_cases rnd counts (Finite s) clip)
        as [[Er _]|[(_ & -> & _)|[(_ & _ & _ & m & _ & _ & _ & E)|
            [(_ & _ & Es & _)|(_ & _ & Es & _)]]]]; cbv zeta in *.
      * rewrite in_unit_intro in Er by lra. done.
      * done.
      * rewrite E in Hkv. cbn [fst] in Hkv.
        apply elem_of_ints in Hkv as (n & -> & Hitem).
        apply is_zero_int in Hz as ->.
        pose proof (Hpos 0%Z (elem_of_counts _ _ Hitem)). lia.
      * apply flt_zero_pos in Es. lra.
      * apply flt_zero_pos in Es. lra.
    + intros Hb. split.
      * intros [ws Hws] n Hn. pose proof (Hnn n Hn) as H0.
        destruct (Z.eq_dec n 0%Z) as [->|Hnz]; [|lia].
        destruct Hzero as [e He]; [eauto|]. congruence.
      * intros Hpos.
        destruct (py_max_ints counts Hne) as (m & Hm & Hin & Hmax).
        destruct (compute_no_smoothing rnd R counts s clip m) as (_ & _ & Hok);
          try done.
        { intros n Hn. split; [by apply Hnn | by apply Hb]. }
        rewrite (Hok Hpos). eauto.
Qed.

(** C6, as the code has it: on [int] counts between 0 and [2^1022], when
    a call returns and the count of class [k] is then raised (the other
    counts as they were), the call on the new counts returns too and the
    weight of [k] is not larger than before; with [smoothing = 0] the
    weight of every other class is not smaller than before. *)
Theorem compute_class_weights_monotone
    (pre post : list (K * Z)) (k : K) (c c' : Z) (s : Q) (clip : float64)
    (ws : list (K * float64)) :
  rounding rnd -> rnd s == s -> 0 <= s -> s <= 1 ->
  (forall n, n ∈ (pre ++ (k, c) :: post).*2 -> (0 <= n <= count_bound)%Z) ->
  (c <= c' <= count_bound)%Z ->
  (compute_class_weights rnd (ints (pre ++ (k, c) :: post)) (Finite s) clip).2
  = Ok ws ->
  exists ws',
    (compute_class_weights rnd (ints (pre ++ (k, c') :: post)) (Finite s) clip).2
    = Ok ws' /\
    (exists x x',
       ws !! length pre = Some (k, x) /\ ws' !! length pre = Some (k, x') /\
       flt x x' = false /\ (clip <> NaN -> fle x' x = true)) /\
    (s == 0 ->
     forall j kj x, j <> length pre -> ws !! j = Some (kj, x) ->
       exists x', ws' !! j = Some (kj, x') /\
                  flt x' x = false /\ (clip <> NaN -> fle x x' = true)).
Proof.
  intros R Hrs Hs0 Hs1 Hb Hcc Hws.
  set (counts := pre ++ (k, c) :: post) in *.
  set (counts' := pre ++ (k, c') :: post).
  assert (Hc : (0 <= c <= count_bound)%Z).
  { apply Hb. unfold counts. apply elem_of_counts_middle. auto. }
  assert (Hb' : forall n, n ∈ counts'.*2 -> (0 <= n <= count_bound)%Z).
  { intros n Hn. apply elem_of_counts_middle in Hn as [Hn|[->|Hn]].
    - apply Hb, elem_of_counts_middle. auto.
    - lia.
    - apply Hb, elem_of_counts_middle. auto. }
  destruct (py_max_ints counts) as (m & Hm & Hin & Hmax);
    [unfold counts; by destruct pre|].
  destruct (py_max_ints counts') as (m' & Hm' & Hin' & Hmax');
    [unfold counts'; by destruct pre|].
  destruct (max_after_raise pre post k c c' m m' ltac:(lia) Hin Hmax Hin' Hmax')
    as (Hcm & Hmm & Hcase).
  pose proof (Hb m Hin) as Hbm. pose proof (Hb' m' Hin') as Hbm'.
  assert (Hlook : forall (f : K * Z -> K * float64) (x : K * Z) (l1 l2 : list (K * Z)),
            (f <$> (l1 ++ x :: l2)) !! length l1 = Some (f x)).
  { intros f x l1 l2. rewrite list_lookup_fmap.
    by rewrite list_lookup_middle. }
  destruct (Qlt_le_dec 0 s) as [Hpos|Hle].
  - (* smoothing > 0 *)
    destruct (compute_smoothing rnd R counts s clip m Hb Hpos Hs1 Hm Hin Hmax)
      as (mj & Emj & _ & Hzero & Hok).
    destruct (compute_smoothing rnd R counts' s clip m' Hb' Hpos Hs1 Hm' Hin' Hmax')
      as (mj' & Emj' & _ & _ & Hok').
    assert (Hnz : forall n, n ∈ counts.*2 -> ~ smoothed_value rnd m s n == 0).
    { intros n Hn Hz. rewrite Hzero in Hws by eauto. discriminate. }
    assert (Hm1 : (1 <= m)%Z).
    { destruct (Z_lt_le_dec m 1) as [Hlt|]; [|done]. exfalso.
      assert (m = 0%Z) as -> by lia.
      apply (Hnz 0%Z Hin). apply (smoothed_value_zero rnd R). lra. }
    assert (Hsv : forall a n, (1 <= a)%Z -> (0 <= n)%Z ->
              0 < smoothed_value rnd a s n).
    { intros a n Ha Hn.
      pose proof (smoothed_value_pos rnd R a n s Ha Hn Hrs Hpos). lra. }
    assert (Hnz' : forall n, n ∈ counts'.*2 -> ~ smoothed_value rnd m' s n == 0).
    { intros n Hn. pose proof (Hb' n Hn).
      pose proof (Hsv m' n ltac:(lia) ltac:(lia)). lra. }
    rewrite (Hok Hnz) in Hws. injection Hws as <-.
    rewrite (Hok' Hnz'). eexists. split; [reflexivity|]. split.
    + eexists _, _. unfold counts, counts'. rewrite !Hlook. cbn [fst snd].
      split; [reflexivity|]. split; [reflexivity|].
      pose proof (Hsv m c ltac:(lia) ltac:(lia)) as HD.
      pose proof (Hsv m' c' ltac:(lia) ltac:(lia)) as HD'.
      pose proof (Hsv m m ltac:(lia) ltac:(lia)) as HN.
      pose proof (Hsv m' m' ltac:(lia) ltac:(lia)) as HN'.
      assert (Hq0 : 0 <= mj' / smoothed_value rnd m' s c').
      { apply Qle_shift_div_l; lra. }
      assert (Hq : mj' / smoothed_value rnd m' s c'
                   <= mj / smoothed_value rnd m s c).
      { apply Qdiv_le_cross; [done|done|].
        destruct Hcase as [[Hle' ->]|[Hlt' ->]].
        - pose proof (smoothed_value_mono rnd R m m c c' s
                        ltac:(lia) ltac:(lia) ltac:(lia) ltac:(lia) Hs0).
          nra.
        - pose proof (smoothed_value_mono rnd R m m c m s
                        ltac:(lia) ltac:(lia) ltac:(lia) ltac:(lia) Hs0).
          nra. }
      apply (round_clip_mono rnd R).
      * by apply (fl_nonneg_fle rnd R).
      * by apply (fl_mono rnd R).
    + intros Hs. exfalso. lra.
  - (* smoothing = 0 *)
    assert (Hs : s == 0) by lra.
    destruct (compute_no_smoothing rnd R counts s clip m Hb Hs Hm Hin Hmax)
      as (_ & Hzero & Hok).
    destruct (compute_no_smoothing rnd R counts' s clip m' Hb' Hs Hm' Hin' Hmax')
      as (_ & _ & Hok').
    assert (Hp : forall n, n ∈ counts.*2 -> (0 < n)%Z).
    { intros n Hn. pose proof (Hb n Hn).
      destruct (Z.eq_dec n 0%Z) as [->|]; [|lia].
      rewrite Hzero in Hws by eauto. discriminate. }
    assert (Hc0 : (0 < c)%Z).
    { apply Hp. unfold counts. apply elem_of_counts_middle. auto. }
    assert (Hp' : forall n, n ∈ counts'.*2 -> (0 < n)%Z).
    { intros n Hn. apply elem_of_counts_middle in Hn as [Hn|[->|Hn]].
      - apply Hp, elem_of_counts_middle. auto.
      - lia.
      - apply Hp, elem_of_counts_middle. auto. }
    rewrite (Hok Hp) in Hws. injection Hws as <-.
    rewrite (Hok' Hp'). eexists. split; [reflexivity|].
    assert (Hqm : 0 <= inject_Z m).
    { change 0 with (inject_Z 0). rewrite <- Zle_Qle. lia. }
    assert (Hqmm : inject_Z m <= inject_Z m') by (by rewrite <- Zle_Qle).
    assert (Hquot : forall n, (0 < n)%Z -> 0 < inject_Z n).
    { intros n Hn. change 0 with (inject_Z 0). by rewrite <- Zlt_Qlt. }
    split.
    + eexists _, _. unfold counts, counts'. rewrite !Hlook. cbn [fst snd].
      split; [reflexivity|]. split; [reflexivity|].
      pose proof (Hquot c Hc0) as HD.
      pose proof (Hquot c' ltac:(lia)) as HD'.
      assert (Hqcc : inject_Z c <= inject_Z c') by (rewrite <- Zle_Qle; lia).
      assert (Hqcm : inject_Z c <= inject_Z m) by (by rewrite <- Zle_Qle).
      assert (Hq0 : 0 <= inject_Z m' / inject_Z c').
      { apply Qle_shift_div_l; lra. }
      assert (Hq : inject_Z m' / inject_Z c' <= inject_Z m / inject_Z c).
      { apply Qdiv_le_cross; [done|done|].
        destruct Hcase as [[Hle' ->]|[Hlt' ->]]; nra. }
      apply (round_clip_mono rnd R).
      * by apply (fl_nonneg_fle rnd R).
      * by apply (fl_mono rnd R).
    + intros _ j kj x Hj Hx.
      apply list_lookup_fmap_Some in Hx as ([kj' n] & [= -> ->] & Hitem).
      cbn [fst snd].
      assert (Hitem' : counts' !! j = Some (kj', n)).
      { unfold counts'. rewrite <- Hitem. unfold counts.
        symmetry. by apply lookup_middle_ne. }
      eexists. split.
      { rewrite list_lookup_fmap, Hitem'. reflexivity. }
      cbn [fst snd].
      assert (Hn : (0 < n)%Z).
      { apply Hp. apply (elem_of_counts _ (kj', n)).
        apply list_elem_of_lookup. eauto. }
      pose proof (Hquot n Hn) as HD.
      assert (Hq0 : 0 <= inject_Z m / inject_Z n).
      { apply Qle_shift_div_l; lra. }
      assert (Hq : inject_Z m / inject_Z n <= inject_Z m' / inject_Z n).
      { apply Qdiv_le_cross; [done|done|]. nra. }
      apply (round_clip_mono rnd R).
      * by apply (fl_nonneg_fle rnd R).
      * by apply (fl_mono rnd R).
Qed.

End B64Properties.

Local Open Scope string_scope.

(** A count of a small example dictionary, case by case. *)
Ltac by_cases_on_counts H :=
  cbn in H;
  repeat (apply elem_of_cons in H as [->|H]; [lia|]);
  inversion H.

Lemma count_bound_large (n : Z) : (0 <= n <= 1000)%Z -> (0 <= n <= B64.count_bound)%Z.
Proof.
  intros Hn. split; [lia|].
  assert (H : (1000 <= B64.count_bound)%Z) by (apply Z.leb_le; vm_compute; reflexivity).
  lia.
Qed.

Lemma compute_class_weights_frame_witness :
  let data := B64.ints [("a", 4%Z); ("b", 0%Z)] in
  (B64.compute_class_weights B64.binary64 data (B64.Finite 0) (B64.Finite 10)).1
  = data /\
  exists done done' rest,
    data = (done ++ rest)%list /\
    (B64.compute_class_weights B64.binary64 data (B64.Finite (1 # 2))
       (B64.Finite 10)).1 = (done' ++ rest)%list /\
    Forall2 (B64.updated B64.binary64 (B64.Finite 2)) done done' /\
    (rest = [] \/
     ((B64.compute_class_weights B64.binary64 data (B64.Finite (1 # 2))
         (B64.Finite 10)).2 = B64.Err B64.OverflowError /\
      exists k n rest', rest = (k, B64.PyInt n) :: rest' /\
        B64.float_of_int B64.binary64 n = B64.Err B64.OverflowError)).
Proof.
  cbv zeta. split.
  - apply (proj1 (proj2 (compute_class_weights_frame B64.binary64
                           (B64.ints [("a", 4%Z); ("b", 0%Z)])
                           (B64.Finite 0) (B64.Finite 10)))).
    reflexivity.
  - apply (proj2 (proj2 (proj2 (proj2 (compute_class_weights_frame B64.binary64
                           (B64.ints [("a", 4%Z); ("b", 0%Z)])
                           (B64.Finite (1 # 2)) (B64.Finite 10))))
                   (B64.PyInt 4) eq_refl eq_refl eq_refl)).
    vm_compute. reflexivity.
Defined.

(** C1 as stated fails: [compute_class_weights({"a": 4, "b": 0},
    smoothing=0.5)] leaves the caller's dictionary as
    [{"a": 6.0, "b": 2.0}], and a second call on that dictionary returns
    1.8 for ["b"] where the first returned 3.0. *)
Lemma compute_class_weights_mutates_counts :
  let data := B64.ints [("a", 4%Z); ("b", 0%Z)] in
  let first := B64.compute_class_weights B64.binary64 data
                 (B64.Finite (1 # 2)) (B64.Finite 10) in
  let second := B64.compute_class_weights B64.binary64 first.1
                  (B64.Finite (1 # 2)) (B64.Finite 10) in
  first.1 = [("a", B64.PyFloat (B64.Finite 6)); ("b", B64.PyFloat (B64.Finite 2))] /\
  first.1 <> data /\
  first.2 = B64.Ok [("a", B64.Finite 1); ("b", B64.Finite 3)] /\
  second.2 = B64.Ok [("a", B64.Finite 1); ("b", B64.literal (18 # 10))] /\
  B64.literal (18 # 10) <> B64.Finite 3.
Proof.
  cbv zeta. split; [vm_compute; reflexivity|]. split; [vm_compute; discriminate|].
  split; [vm_compute; reflexivity|]. split; [vm_compute; reflexivity|].
  vm_compute. discriminate.
Qed.

Lemma compute_class_weights_raises_iff_witness :
  (B64.compute_class_weights B64.binary64 (B64.ints [("a", 5%Z); ("b", 0%Z)])
     (B64.Finite 0) (B64.Finite 10)).2 = B64.Err B64.ZeroDivisionError.
Proof.
  apply (proj1 (proj2 (proj2 (proj2 (proj2
           (compute_class_weights_raises_iff B64.binary64
              [("a", 5%Z); ("b", 0%Z)] (B64.Finite 0) (B64.Finite 10))))))
           binary64_rounding).
  - intros n Hn. apply count_bound_large.
    by_cases_on_counts Hn.
  - right; right. split; [reflexivity|]. split; [reflexivity|].
    split; [discriminate|].
    exists "b", (B64.PyInt 0). split; [|reflexivity].
    assert (E : (B64.compute_class_weights B64.binary64
                   (B64.ints [("a", 5%Z); ("b", 0%Z)]) (B64.Finite 0)
                   (B64.Finite 10)).1
                = [("a", B64.PyInt 5); ("b", B64.PyInt 0)])
      by (vm_compute; reflexivity).
    rewrite E. right. left.
Defined.

(** C3 as stated fails.  [compute_class_weights({"a": 5, "b": 0},
    smoothing=0)] raises [ZeroDivisionError] although [smoothing] is in
    range, the dictionary is not empty and not every count is zero;
    [{"a": 10**400, "b": 1}] raises [OverflowError] with [smoothing] 0 and
    0.15; and [compute_class_weights({"a": 10**308, "b": 1}, smoothing=1.0)]
    returns NaN for ["a"]: the count of ["a"] becomes an infinity, and so
    the majority. *)
Lemma compute_class_weights_raises_on_one_zero :
  ((B64.compute_class_weights B64.binary64 (B64.ints [("a", 5%Z); ("b", 0%Z)])
      (B64.Finite 0) (B64.Finite 10)).2 = B64.Err B64.ZeroDivisionError /\
   B64.fle (B64.Finite 0) (B64.Finite 0) && B64.fle (B64.Finite 0) (B64.Finite 1)
   = true /\
   ~ (forall n : Z, n ∈ [("a", 5%Z); ("b", 0%Z)].*2 -> n = 0%Z)) /\
  ((B64.compute_class_weights B64.binary64 (B64.ints [("a", (10 ^ 400)%Z); ("b", 1%Z)])
      (B64.Finite 0) (B64.Finite 10)).2 = B64.Err B64.OverflowError /\
   (B64.compute_class_weights B64.binary64 (B64.ints [("a", (10 ^ 400)%Z); ("b", 1%Z)])
      (B64.literal (15 # 100)) (B64.Finite 10)).2 = B64.Err B64.OverflowError) /\
  (B64.compute_class_weights B64.binary64 (B64.ints [("a", (10 ^ 308)%Z); ("b", 1%Z)])
     (B64.Finite 1) (B64.Finite 10)).2
  = B64.Ok [("a", B64.NaN); ("b", B64.Finite 10)].
Proof.
  split; [|split].
  - split; [vm_compute; reflexivity|]. split; [reflexivity|].
    intros Hall. specialize (Hall 5%Z ltac:(left)). discriminate.
  - split; vm_compute; reflexivity.
  - vm_compute. reflexivity.
Qed.

Lemma compute_class_weights_round_then_clip_witness :
  exists majority v quotient,
    B64.py_max (B64.values (B64.compute_class_weights B64.binary64
                  (B64.ints [("a", 40%Z); ("b", 43%Z)])
                  (B64.Finite 0) (B64.Finite 10)).1) = B64.Ok majority /\
    (B64.compute_class_weights B64.binary64
       (B64.ints [("a", 40%Z); ("b", 43%Z)]) (B64.Finite 0) (B64.Finite 10)).1
      !! 0%nat = Some ("a", v) /\
    B64.py_truediv B64.binary64 majority v = B64.Ok quotient /\
    B64.literal (107 # 100)
    = B64.np_clip (B64.py_round2 B64.binary64 quotient) (B64.Finite 0)
        (B64.Finite 10) /\
    forall q, quotient = B64.Finite q ->
      exists n : Z,
        B64.py_round2 B64.binary64 quotient = B64.fl B64.binary64 (n # 100) /\
        (n # 100) - (1 # 200) <= q /\ q <= (n # 100) + (1 # 200) /\
        ((q == (n # 100) + (1 # 200) \/ q == (n # 100) - (1 # 200)) ->
         Z.even n = true) /\
        forall y c, B64.fl B64.binary64 (n # 100) = B64.Finite y ->
          B64.Finite 10 = B64.Finite c ->
          (0 <= y -> y <= c ->
           exists x', B64.literal (107 # 100) = B64.Finite x' /\ x' == y) /\
          (c < y -> B64.literal (107 # 100) = B64.Finite 10) /\
          (y < 0 -> 0 <= c ->
           exists x', B64.literal (107 # 100) = B64.Finite x' /\ x' == 0).
Proof.
  apply (compute_class_weights_round_then_clip B64.binary64
           (B64.ints [("a", 40%Z); ("b", 43%Z)]) (B64.Finite 0) (B64.Finite 10)
           [("a", B64.literal (107 # 100)); ("b", B64.Finite 1)] 0 "a"
           (B64.literal (107 # 100))).
  - vm_compute. reflexivity.
  - reflexivity.
Defined.

(** C5 as stated fails on a tie:
    [compute_class_weights({"a": 9, "b": 8}, smoothing=0)] divides 9 by 8,
    which is 1.125 exactly, and returns 1.12 for ["b"]; rounding half up
    gives 1.13. *)
Lemma compute_class_weights_rounds_half_even :
  (B64.compute_class_weights B64.binary64 (B64.ints [("a", 9%Z); ("b", 8%Z)])
     (B64.Finite 0) (B64.Finite 10)).2
  = B64.Ok [("a", B64.Finite 1); ("b", B64.literal (112 # 100))] /\
  B64.py_truediv B64.binary64 (B64.PyInt 9) (B64.PyInt 8)
  = B64.Ok (B64.Finite (9 # 8)) /\
  round_half_up2 (9 # 8) = 113 # 100 /\
  B64.literal (112 # 100) <> B64.literal (113 # 100).
Proof.
  split; [vm_compute; reflexivity|]. split; [vm_compute; reflexivity|].
  split; [vm_compute; reflexivity|]. vm_compute. discriminate.
Qed.

Lemma compute_class_weights_division_defined_witness :
  ((B64.compute_class_weights B64.binary64 (B64.ints [("a", 4%Z); ("b", 0%Z)])
      (B64.Finite (1 # 2)) (B64.Finite 10)).2 <> B64.Err B64.ZeroDivisionError /\
   exists ws,
     (B64.compute_class_weights B64.binary64 (B64.ints [("a", 4%Z); ("b", 0%Z)])
        (B64.Finite (1 # 2)) (B64.Finite 10)).2 = B64.Ok ws) /\
  ((exists ws,
      (B64.compute_class_weights B64.binary64 (B64.ints [("a", 4%Z)])
         (B64.Finite 0) (B64.Finite 10)).2 = B64.Ok ws) <->
   forall n : Z, n ∈ [("a", 4%Z)].*2 -> (0 < n)%Z).
Proof.
  split.
  - destruct (proj1 (compute_class_weights_division_defined B64.binary64
                       [("a", 4%Z); ("b", 0%Z)] (1 # 2) (B64.Finite 10)
                       binary64_rounding
                       ltac:(intros n Hn; by_cases_on_counts Hn)))
      as (Hz & _ & _ & Hret).
    + vm_compute. reflexivity.
    + reflexivity.
    + discriminate.
    + exists 4%Z. split; [left|lia].
    + split; [exact Hz|]. apply Hret.
      intros n Hn. apply count_bound_large.
      by_cases_on_counts Hn.
  - apply (proj2 (compute_class_weights_division_defined B64.binary64
                    [("a", 4%Z)] 0 (B64.Finite 10) binary64_rounding
                    ltac:(intros n Hn; by_cases_on_counts Hn))).
    + reflexivity.
    + discriminate.
    + intros n Hn. apply count_bound_large.
      by_cases_on_counts Hn.
Defined.

Lemma compute_class_weights_monotone_witness :
  (exists ws',
     (B64.compute_class_weights B64.binary64
        (B64.ints ([] ++ ("a", 5%Z) :: [("b", 2%Z)])%list)
        (B64.Finite (1 # 2)) (B64.Finite 10)).2 = B64.Ok ws' /\
     (exists x x',
        [("a", B64.Finite 1); ("b", B64.Finite (3 # 2))] !! length ([] : list (string * Z))
        = Some ("a", x) /\
        ws' !! length ([] : list (string * Z)) = Some ("a", x') /\
        B64.flt x x' = false /\
        (B64.Finite 10 <> B64.NaN -> B64.fle x' x = true)) /\
     ((1 # 2) == 0 ->
      forall j kj x, j <> length ([] : list (string * Z)) ->
        [("a", B64.Finite 1); ("b", B64.Finite (3 # 2))] !! j = Some (kj, x) ->
        exists x', ws' !! j = Some (kj, x') /\
                   B64.flt x' x = false /\
                   (B64.Finite 10 <> B64.NaN -> B64.fle x x' = true))) /\
  (exists ws',
     (B64.compute_class_weights B64.binary64
        (B64.ints ([("a", 4%Z)] ++ ("b", 3%Z) :: [])%list)
        (B64.Finite 0) (B64.Finite 10)).2 = B64.Ok ws' /\
     (exists x x',
        [("a", B64.Finite 1); ("b", B64.Finite 2)] !! length [("a", 4%Z)]
        = Some ("b", x) /\
        ws' !! length [("a", 4%Z)] = Some ("b", x') /\
        B64.flt x x' = false /\
        (B64.Finite 10 <> B64.NaN -> B64.fle x' x = true)) /\
     (0 == 0 ->
      forall j kj x, j <> length [("a", 4%Z)] ->
        [("a", B64.Finite 1); ("b", B64.Finite 2)] !! j = Some (kj, x) ->
        exists x', ws' !! j = Some (kj, x') /\
                   B64.flt x' x = false /\
                   (B64.Finite 10 <> B64.NaN -> B64.fle x x' = true))).
Proof.
  split.
  - apply (compute_class_weights_monotone B64.binary64 [] [("b", 2%Z)] "a"
             4 5 (1 # 2) (B64.Finite 10)
             [("a", B64.Finite 1); ("b", B64.Finite (3 # 2))]
             binary64_rounding).
    + vm_compute. reflexivity.
    + discriminate.
    + discriminate.
    + intros n Hn. apply count_bound_large.
      by_cases_on_counts Hn.
    + pose proof (count_bound_large 5). lia.
    + vm_compute. reflexivity.
  - apply (compute_class_weights_monotone B64.binary64 [("a", 4%Z)] [] "b"
             2 3 0 (B64.Finite 10)
             [("a", B64.Finite 1); ("b", B64.Finite 2)]
             binary64_rounding).
    + vm_compute. reflexivity.
    + discriminate.
    + discriminate.
    + intros n Hn. apply count_bound_large.
      by_cases_on_counts Hn.
    + pose proof (count_bound_large 3). lia.
    + vm_compute. reflexivity.
Defined.

(** C6 as stated fails for another class when [smoothing > 0]: with
    [smoothing=0.32], [{"k": 49, "j": 0}] gives ["j"] the weight 4.13 and
    [{"k": 50, "j": 0}] gives it 4.12.  The exact quotient is 4.125 in both
    calls; the float quotient is above it in the first and equal to it in
    the second. *)
Lemma compute_class_weights_raise_lowers_other :
  (B64.compute_class_weights B64.binary64 (B64.ints [("k", 49%Z); ("j", 0%Z)])
     (B64.literal (32 # 100)) (B64.Finite 10)).2
  = B64.Ok [("k", B64.Finite 1); ("j", B64.literal (413 # 100))] /\
  (B64.compute_class_weights B64.binary64 (B64.ints [("k", 50%Z); ("j", 0%Z)])
     (B64.literal (32 # 100)) (B64.Finite 10)).2
  = B64.Ok [("k", B64.Finite 1); ("j", B64.literal (412 # 100))] /\
  B64.flt (B64.literal (412 # 100)) (B64.literal (413 # 100)) = true.
Proof.
  split; [vm_compute; reflexivity|]. split; vm_compute; reflexivity.
Qed.

Local Close Scope string_scope.

(** ** Facts about the string primitives *)

Local Open Scope string_scope.

(** Decides the character comparisons of the goal: by cases where the
    second character is a variable, by evaluation where both are known. *)
Ltac case_chars :=
  repeat match goal with
         | |- context [Ascii.eqb ?x ?y] =>
             first [ is_var y; destruct (Ascii.eqb_spec x y); subst
                   | let v := eval vm_compute in (Ascii.eqb x y) in
                     progress change (Ascii.eqb x y) with v ];
             cbn [andb]
         end.

Lemma append_cons (c : ascii) (s t : string) :
  String c s ++ t = String c (s ++ t).
Proof. reflexivity. Qed.

Lemma starts_with_app (p s : string) :
  starts_with p s = true -> exists r, s = p ++ r.
Proof.
  revert s. induction p as [|a p IH]; intros s; cbn [starts_with].
  - intros _. by exists s.
  - destruct s as [|b s]; [discriminate|].
    destruct (Ascii.eqb_spec a b) as [->|]; [|discriminate].
    intros [r ->]%IH. by exists r.
Qed.

(** An occurrence of [".pth"] cannot begin in [a] and end inside a
    following [".pth"]: the only ['.'] of the pattern is its first
    character. *)
Lemma starts_with_pth_straddle (c : ascii) (a b : string) :
  starts_with ".pth" (String c (a ++ ".pth" ++ b))
  = starts_with ".pth" (String c a) /\
  (starts_with ".pth" (String c a) = true -> (3 <= String.length a)%nat).
Proof.
  destruct a as [|c1 [|c2 [|c3 a]]];
    cbv [starts_with String.append]; cbn [String.length];
    case_chars; split; try reflexivity; try discriminate; intros _; lia.
Qed.

Lemma replace_pth_app_go (a b : string) (n : nat) :
  (n <= String.length a)%nat ->
  replace_go ".pth" "" n (a ++ ".pth" ++ b)
  = replace_go ".pth" "" n a ++ replace_go ".pth" "" 0 b.
Proof.
  revert n. induction a as [|c a IH]; intros n Hn.
  - simpl in Hn. assert (n = 0%nat) as -> by lia. reflexivity.
  - destruct n as [|n].
    + destruct (starts_with_pth_straddle c a b) as [E Hlen].
      change (replace_go ".pth" "" 0 (String c a ++ ".pth" ++ b))
        with (if starts_with ".pth" (String c (a ++ ".pth" ++ b))
              then "" ++ replace_go ".pth" "" 3 (a ++ ".pth" ++ b)
              else String c (replace_go ".pth" "" 0 (a ++ ".pth" ++ b))).
      change (replace_go ".pth" "" 0 (String c a))
        with (if starts_with ".pth" (String c a)
              then "" ++ replace_go ".pth" "" 3 a
              else String c (replace_go ".pth" "" 0 a)).
      rewrite E. destruct (starts_with ".pth" (String c a)) eqn:Ep.
      * apply IH. by apply Hlen.
      * rewrite (append_cons c (replace_go ".pth" "" 0 a)). f_equal.
        apply IH. lia.
    + rewrite (append_cons c a). cbn [replace_go]. apply IH.
      simpl in Hn. lia.
Qed.

Lemma replace_pth_none_go (s : string) :
  (forall a b, s <> a ++ ".pth" ++ b) ->
  replace_go ".pth" "" 0 s = s.
Proof.
  induction s as [|c s IH]; intros Hno; [reflexivity|].
  change (replace_go ".pth" "" 0 (String c s))
    with (if starts_with ".pth" (String c s)
          then "" ++ replace_go ".pth" "" 3 s
          else String c (replace_go ".pth" "" 0 s)).
  destruct (starts_with ".pth" (String c s)) eqn:Ep.
  - apply starts_with_app in Ep as [r Hr]. exfalso. by apply (Hno "" r).
  - f_equal. apply IH. intros a b ->. by apply (Hno (String c a) b).
Qed.

Lemma has_char_h_pth (a b : string) : has_char "h" (a ++ ".pth" ++ b) = true.
Proof.
  induction a as [|c a IH]; [reflexivity|].
  rewrite (append_cons c a). cbn [has_char]. rewrite IH. apply orb_true_r.
Qed.

(** Splitting at ['-']. *)
Lemma split_dash_cons (c : ascii) (s : string) :
  split_go "-" 0 (String c s)
  = if Ascii.eqb "-" c then "" :: split_go "-" 0 s
    else match split_go "-" 0 s with
         | h :: t => String c h :: t
         | [] => [String c ""]
         end.
Proof.
  cbn [split_go starts_with String.length Nat.sub].
  by destruct (Ascii.eqb "-" c).
Qed.

Lemma split_dash_none (b : string) :
  has_char "-" b = false -> split_go "-" 0 b = [b].
Proof.
  induction b as [|c b IH]; [reflexivity|].
  cbn [has_char]. intros [Hc Hb]%orb_false_elim.
  by rewrite split_dash_cons, Hc, (IH Hb).
Qed.

Lemma split_dash_app (a b : string) :
  exists l : list string,
    l <> [] /\ split_go "-" 0 (a ++ "-" ++ b) = (l ++ split_go "-" 0 b)%list.
Proof.
  induction a as [|c a (l & Hl & IH)].
  - exists [""]. split; [done|]. reflexivity.
  - rewrite (append_cons c a), split_dash_cons, IH.
    destruct (Ascii.eqb "-" c).
    + exists ("" :: l). split; [done|]. reflexivity.
    + destruct l as [|h t]; [done|].
      exists (String c h :: t). split; [done|]. reflexivity.
Qed.

(** [metric_str.split("-")[-1]] is what follows the last ['-'], and the
    whole string when there is none. *)
Lemma metric_suffix_after_last_dash (a b : string) :
  has_char "-" b = false ->
  metric_suffix (a ++ "-" ++ b) = b /\ metric_suffix b = b.
Proof.
  intros Hb. unfold metric_suffix. split.
  - destruct (split_dash_app a b) as (l & _ & ->).
    rewrite (split_dash_none b Hb). by rewrite List.last_last.
  - by rewrite (split_dash_none b Hb).
Qed.

Local Close Scope string_scope.

(** ** Facts about the embedding of [find_best_checkpoint] *)

Lemma replaces_lt (b m : Q) : b < m -> replaces (Some b) m = true.
Proof.
  intros Hlt. unfold replaces.
  destruct (Qlt_le_dec b m); [apply orb_true_r | exfalso; lra].
Qed.

Lemma replaces_zero (b m : Q) : b == 0 -> replaces (Some b) m = true.
Proof.
  intros Hz. unfold replaces, truthy.
  apply Qeq_bool_iff in Hz. by rewrite Hz.
Qed.

Lemma replaces_ge (b m : Q) : ~ b == 0 -> m <= b -> replaces (Some b) m = false.
Proof.
  intros Hnz Hle. unfold replaces, truthy.
  apply Qeq_bool_false in Hnz. rewrite Hnz.
  destruct (Qlt_le_dec b m); [exfalso; lra | done].
Qed.

Lemma unpack_components_other (components : list string) :
  List.length components <> 2%nat -> List.length components <> 3%nat ->
  unpack_components components = Err (ValueError Unpack).
Proof.
  destruct components as [|c1 [|c2 [|c3 [|c4 l]]]]; simpl; done.
Qed.

Lemma unpack_components_fields (components : list string) :
  List.length components = 2%nat \/ List.length components = 3%nat ->
  exists metric_str,
    unpack_components components = Ok (List.hd EmptyString components, metric_str).
Proof.
  destruct components as [|c1 [|c2 [|c3 [|c4 l]]]]; simpl;
    intros [Hl|Hl]; try discriminate; eauto.
Qed.

Section CheckpointFacts.
Variable float : string -> option Q.
Implicit Types (divider model_path : string) (st : best).

Lemma visit_Err divider st model_path (e : exception) :
  model_metric float model_path divider = Err e ->
  visit float divider st model_path = Err e.
Proof. intros E. unfold visit. by rewrite E. Qed.

Lemma visit_Ok divider st model_path (m : Q) :
  model_metric float model_path divider = Ok m ->
  visit float divider st model_path
  = Ok (if replaces (current_best_metric st) m
        then Best (Some model_path) (Some m) else st).
Proof.
  intros E. unfold visit. rewrite E. simpl.
  by destruct (replaces _ _).
Qed.

Lemma visit_all_app divider st (l1 l2 : list string) :
  visit_all float divider st (l1 ++ l2)
  = let* st' := visit_all float divider st l1 in
    visit_all float divider st' l2.
Proof.
  revert st. induction l1 as [|model_path l1 IH]; intros st; [done|].
  simpl. destruct (visit float divider st model_path); simpl; [apply IH|done].
Qed.

Lemma visit_all_Ok divider st (models : list string) :
  Forall (fun q => is_ok (model_metric float q divider) = true) models ->
  exists st', visit_all float divider st models = Ok st'.
Proof.
  intros Hall. revert st.
  induction Hall as [|model_path l Hq _ IH]; intros st; simpl; [eauto|].
  destruct (model_metric float model_path divider) as [m|e] eqn:E;
    [|discriminate].
  rewrite (visit_Ok _ _ _ _ E). simpl. apply IH.
Qed.

(** The loop stops at the first file whose name it cannot read. *)
Lemma find_best_checkpoint_first_error divider
    (pre post : list string) model_path (e : exception) :
  Forall (fun q => is_ok (model_metric float q divider) = true) pre ->
  model_metric float model_path divider = Err e ->
  find_best_checkpoint float (pre ++ model_path :: post) divider = Err e.
Proof.
  intros Hpre He. unfold find_best_checkpoint.
  rewrite length_app. simpl.
  replace (0 <? List.length pre + S (List.length post))%nat with true
    by (symmetry; apply Nat.ltb_lt; lia).
  simpl. rewrite visit_all_app.
  destruct (visit_all_Ok divider (Best None None) pre Hpre) as [st' ->].
  simpl. by rewrite (visit_Err _ _ _ _ He).
Qed.

(** Where no metric is zero, the loop keeps the first file with the
    largest metric. *)
Lemma visit_all_first_max divider (models : list string) (ms : list Q) :
  Forall2 (fun q m => model_metric float q divider = Ok m) models ms ->
  Forall (fun m => ~ m == 0) ms ->
  models <> [] ->
  exists (i : nat) (q : string) (m : Q),
    visit_all float divider (Best None None) models
    = Ok (Best (Some q) (Some m)) /\
    models !! i = Some q /\ ms !! i = Some m /\
    (forall j (m' : Q), ms !! j = Some m' -> m' <= m) /\
    (forall j (m' : Q), (j < i)%nat -> ms !! j = Some m' -> m' < m).
Proof.
  revert ms. induction models as [|q l IH] using rev_ind; intros ms Hms Hnz Hne;
    [done|]. clear Hne.
  apply Forall2_app_inv_l in Hms as (ms1 & ms2 & Hl & Hq & ->).
  apply Forall2_cons_inv_l in Hq as (mq & ms2' & Hq & Hnil & ->).
  apply Forall2_nil_inv_l in Hnil as ->.
  apply Forall_app in Hnz as [Hnz1 Hnz2].
  pose proof (Forall2_length _ _ _ Hl) as Hlen.
  rewrite visit_all_app.
  destruct l as [|q0 l0].
  - apply Forall2_nil_inv_l in Hl as ->. simpl.
    rewrite (visit_Ok _ _ _ _ Hq). simpl.
    exists 0%nat, q, mq. repeat split; try done.
    + intros [|j] m'; simpl; [intros [= <-]; apply Qle_refl | done].
    + intros j m' Hj. lia.
  - destruct (IH ms1 Hl Hnz1) as (i & qi & mi & -> & Hqi & Hmi & Hub & Hfirst);
      [done|].
    cbn [rbind visit_all]. rewrite (visit_Ok _ _ _ _ Hq).
    cbn [rbind current_best_metric].
    assert (Hmi0 : ~ mi == 0).
    { rewrite Forall_forall in Hnz1. apply Hnz1.
      by apply list_elem_of_lookup_2 in Hmi. }
    pose proof (lookup_lt_Some _ _ _ Hmi) as Hi.
    destruct (Qlt_le_dec mi mq) as [Hlt|Hle].
    + rewrite (replaces_lt mi mq Hlt).
      exists (List.length (q0 :: l0)), q, mq. split; [done|].
      split; [by rewrite list_lookup_middle|].
      split; [by rewrite Hlen, list_lookup_middle|].
      split.
      * intros j m' Hj. destruct (decide (j < List.length ms1)%nat) as [Hj1|Hj1].
        -- rewrite lookup_app_l in Hj by done. apply Hub in Hj. lra.
        -- rewrite lookup_app_r in Hj by lia.
           destruct (j - List.length ms1)%nat; simpl in Hj; [|done].
           injection Hj as <-. apply Qle_refl.
      * intros j m' Hj. rewrite Hlen in Hj.
        rewrite lookup_app_l by done. intros Hm'. apply Hub in Hm'. lra.
    + rewrite (replaces_ge mi mq Hmi0 Hle).
      exists i, qi, mi. split; [done|].
      split; [rewrite lookup_app_l; [done | rewrite Hlen; done]|].
      split; [by rewrite lookup_app_l|].
      split.
      * intros j m' Hj. destruct (decide (j < List.length ms1)%nat) as [Hj1|Hj1].
        -- rewrite lookup_app_l in Hj by done. by apply (Hub j).
        -- rewrite lookup_app_r in Hj by lia.
           destruct (j - List.length ms1)%nat; simpl in Hj; [|done].
           by injection Hj as <-.
      * intros j m' Hj. rewrite lookup_app_l by lia. by apply Hfirst.
Qed.

Lemma find_best_checkpoint_first_max divider (models : list string) (ms : list Q) :
  Forall2 (fun q m => model_metric float q divider = Ok m) models ms ->
  Forall (fun m => ~ m == 0) ms ->
  models <> [] ->
  exists (i : nat) (q : string) (m : Q),
    find_best_checkpoint float models divider = Ok (Some q) /\
    models !! i = Some q /\ ms !! i = Some m /\
    (forall j (m' : Q), ms !! j = Some m' -> m' <= m) /\
    (forall j (m' : Q), (j < i)%nat -> ms !! j = Some m' -> m' < m).
Proof.
  intros Hms Hnz Hne.
  destruct (visit_all_first_max divider models ms Hms Hnz Hne)
    as (i & q & m & Hv & Hrest).
  exists i, q, m. split; [|done].
  unfold find_best_checkpoint. rewrite Hv.
  destruct models; [done|]. reflexivity.
Qed.

End CheckpointFacts.

(** ** Properties of [find_best_checkpoint] *)

Local Open Scope string_scope.

(** C2 at the failing input: on two files whose metrics are both read as
    zero, the loop replaces the first by the second, because
    [not current_best_metric] holds for the metric 0.0; the file returned
    is the last one with the largest metric, not the first. *)
Theorem find_best_checkpoint_zero_tie (float : string -> option Q) (z : Q) :
  float "0.0" = Some z -> z == 0 ->
  model_metric float "classifier_0.0.pth" "_" = Ok z /\
  model_metric float "segmenter_0.0.pth" "_" = Ok z /\
  find_best_checkpoint float ["classifier_0.0.pth"; "segmenter_0.0.pth"] "_"
  = Ok (Some "segmenter_0.0.pth").
Proof.
  intros Hf Hz.
  assert (H1 : model_metric float "classifier_0.0.pth" "_" = Ok z).
  { unfold model_metric, name_fields, parse_metric. vm_compute.
    vm_compute in Hf. by rewrite Hf. }
  assert (H2 : model_metric float "segmenter_0.0.pth" "_" = Ok z).
  { unfold model_metric, name_fields, parse_metric. vm_compute.
    vm_compute in Hf. by rewrite Hf. }
  split; [done|]. split; [done|].
  unfold find_best_checkpoint. cbn [List.length Nat.ltb Nat.leb py_assert rbind visit_all].
  rewrite (visit_Ok _ _ _ _ _ H1). cbn [rbind current_best_metric replaces].
  rewrite (visit_Ok _ _ _ _ _ H2). cbn [rbind current_best_metric].
  by rewrite (replaces_zero z z Hz).
Qed.

Lemma find_best_checkpoint_zero_tie_witness :
  find_best_checkpoint float_of_decimal
    ["classifier_0.0.pth"; "segmenter_0.0.pth"] "_"
  = Ok (Some "segmenter_0.0.pth").
Proof.
  apply (find_best_checkpoint_zero_tie float_of_decimal 0);
    vm_compute; reflexivity.
Defined.

(** C7: on the three files of the example, the strings handed to [float]
    are ["0.70"], ["0.91"] and ["0.50"], each what follows the last ['-']
    of the metric component (the whole component when it has none), and
    the file returned is the one named with 0.91. *)
Theorem find_best_checkpoint_example (float : string -> option Q) (a b c : Q) :
  float "0.70" = Some a -> float "0.91" = Some b -> float "0.50" = Some c ->
  a < b -> c < b -> 0 < b ->
  name_fields "classifier_0.70-0.70.pth" "_" = Ok ("classifier", "0.70-0.70") /\
  name_fields "classifier_0.91-0.91.pth" "_" = Ok ("classifier", "0.91-0.91") /\
  name_fields "segmenter_0.50.pth" "_" = Ok ("segmenter", "0.50") /\
  metric_suffix "0.70-0.70" = "0.70" /\
  metric_suffix "0.91-0.91" = "0.91" /\
  metric_suffix "0.50" = "0.50" /\
  (forall x y, has_char "-" y = false ->
     metric_suffix (x ++ "-" ++ y) = y /\ metric_suffix y = y) /\
  model_metric float "classifier_0.70-0.70.pth" "_" = Ok a /\
  model_metric float "classifier_0.91-0.91.pth" "_" = Ok b /\
  model_metric float "segmenter_0.50.pth" "_" = Ok c /\
  find_best_checkpoint float
    ["classifier_0.70-0.70.pth"; "classifier_0.91-0.91.pth"; "segmenter_0.50.pth"]
    "_"
  = Ok (Some "classifier_0.91-0.91.pth").
Proof.
  intros Ha Hb Hc Hab Hcb Hb0.
  assert (H1 : model_metric float "classifier_0.70-0.70.pth" "_" = Ok a).
  { unfold model_metric, name_fields, parse_metric. vm_compute.
    vm_compute in Ha. by rewrite Ha. }
  assert (H2 : model_metric float "classifier_0.91-0.91.pth" "_" = Ok b).
  { unfold model_metric, name_fields, parse_metric. vm_compute.
    vm_compute in Hb. by rewrite Hb. }
  assert (H3 : model_metric float "segmenter_0.50.pth" "_" = Ok c).
  { unfold model_metric, name_fields, parse_metric. vm_compute.
    vm_compute in Hc. by rewrite Hc. }
  do 6 (split; [vm_compute; reflexivity|]).
  split; [apply metric_suffix_after_last_dash|].
  do 3 (split; [done|]).
  unfold find_best_checkpoint.
  cbn [List.length Nat.ltb Nat.leb py_assert rbind visit_all].
  rewrite (visit_Ok _ _ _ _ _ H1). cbn [rbind current_best_metric replaces].
  rewrite (visit_Ok _ _ _ _ _ H2). cbn [rbind current_best_metric].
  rewrite (replaces_lt a b Hab).
  rewrite (visit_Ok _ _ _ _ _ H3). cbn [rbind current_best_metric].
  rewrite (replaces_ge b c); [done | lra | lra].
Qed.

Lemma find_best_checkpoint_example_witness :
  find_best_checkpoint float_of_decimal
    ["classifier_0.70-0.70.pth"; "classifier_0.91-0.91.pth"; "segmenter_0.50.pth"]
    "_"
  = Ok (Some "classifier_0.91-0.91.pth").
Proof.
  apply (find_best_checkpoint_example float_of_decimal
           (7 # 10) (91 # 100) (1 # 2));
    vm_compute; reflexivity.
Defined.

(** C8: a file name that splits into a number of components other than 2
    or 3 makes the call raise the [ValueError] of the tuple assignment; a
    name that splits into 2 or 3 components whose first is neither
    ["classifier"] nor ["segmenter"] makes it raise the assertion on the
    model type.  (The names before it in the list are names the loop
    reads.) *)
Theorem find_best_checkpoint_malformed
  (float : string -> option Q) (divider : string)
  (pre post : list string) (model_path : string) (components : list string) :
  Forall (fun q => is_ok (model_metric float q divider) = true) pre ->
  py_split (py_replace (basename model_path) ".pth" "") divider = Ok components ->
  (List.length components <> 2%nat -> List.length components <> 3%nat ->
   find_best_checkpoint float (pre ++ model_path :: post) divider
   = Err (ValueError Unpack)) /\
  (List.length components = 2%nat \/ List.length components = 3%nat ->
   List.hd "" components <> "classifier" ->
   List.hd "" components <> "segmenter" ->
   find_best_checkpoint float (pre ++ model_path :: post) divider
   = Err (AssertionError UnknownModelType)).
Proof.
  intros Hpre Hsplit. split.
  - intros H2 H3. apply find_best_checkpoint_first_error; [done|].
    unfold model_metric, name_fields. rewrite Hsplit. simpl.
    by rewrite unpack_components_other.
  - intros Hlen Hc Hs. apply find_best_checkpoint_first_error; [done|].
    unfold model_metric, name_fields. rewrite Hsplit. simpl.
    destruct (unpack_components_fields components Hlen) as [metric_str ->].
    simpl.
    apply String.eqb_neq in Hc, Hs. by rewrite Hc, Hs.
Qed.

Lemma find_best_checkpoint_malformed_witness :
  find_best_checkpoint float_of_decimal
    (["classifier_0.5.pth"] ++ "classifier_a_b_0.5.pth" :: ["segmenter_0.9.pth"]) "_"
  = Err (ValueError Unpack) /\
  find_best_checkpoint float_of_decimal
    (["classifier_0.5.pth"] ++ "unknown_1.0.pth" :: ["segmenter_0.9.pth"]) "_"
  = Err (AssertionError UnknownModelType).
Proof.
  split.
  - apply (proj1 (find_best_checkpoint_malformed float_of_decimal "_"
                    ["classifier_0.5.pth"] ["segmenter_0.9.pth"]
                    "classifier_a_b_0.5.pth" ["classifier"; "a"; "b"; "0.5"]
                    ltac:(repeat constructor) ltac:(vm_compute; reflexivity)));
      simpl; lia.
  - apply (proj2 (find_best_checkpoint_malformed float_of_decimal "_"
                    ["classifier_0.5.pth"] ["segmenter_0.9.pth"]
                    "unknown_1.0.pth" ["unknown"; "1.0"]
                    ltac:(repeat constructor) ltac:(vm_compute; reflexivity))).
    + left. reflexivity.
    + simpl. discriminate.
    + simpl. discriminate.
Defined.

Lemma has_char_app (ch : ascii) (a b : string) :
  has_char ch (a ++ b) = has_char ch a || has_char ch b.
Proof.
  induction a as [|c a IH]; [reflexivity|].
  rewrite (append_cons c a). cbn [has_char]. by rewrite IH, orb_assoc.
Qed.

Lemma has_slash_app_slash (d n : string) : has_slash (d ++ "/" ++ n) = true.
Proof.
  unfold has_slash. rewrite has_char_app. cbn [has_char String.append].
  change (Ascii.eqb "/" "/") with true. apply orb_true_r.
Qed.

Lemma basename_no_slash (n : string) : has_slash n = false -> basename n = n.
Proof.
  destruct n as [|c n]; [done|]. unfold has_slash. cbn [has_char basename].
  intros [Hc Hn]%orb_false_elim. fold (has_slash n). unfold has_slash.
  by rewrite Hn, Hc.
Qed.

Lemma basename_app_slash (d n : string) :
  has_slash n = false -> basename (d ++ "/" ++ n) = n.
Proof.
  intros Hn. induction d as [|c d IH].
  - change ("" ++ "/" ++ n) with (String "/" n). cbn [basename].
    rewrite Hn. reflexivity.
  - rewrite (append_cons c d). cbn [basename].
    by rewrite has_slash_app_slash.
Qed.

(** C10: the name that is split is the base name of the path, what
    follows its last ['/'], with every occurrence of [".pth"] deleted,
    wherever it stands; the folders play no part, whatever they contain.
    A base name without [".pth"] is split as it is.  So
    ["runs_1.pth/classifier.pth_0.5.pth"] is read as model type
    ["classifier"] with metric string ["0.5"], and for
    ["classifier_0.9.ckpt"] the string handed to [float] is ["0.9.ckpt"]. *)
Theorem find_best_checkpoint_strips_pth (float : string -> option Q) :
  (forall folder a b divider,
     has_slash (a ++ ".pth" ++ b) = false ->
     name_fields (folder ++ "/" ++ a ++ ".pth" ++ b) divider
     = (let* components :=
          py_split (py_replace a ".pth" "" ++ py_replace b ".pth" "") divider in
        let* fields := unpack_components components in
        let* _ := py_assert (String.eqb fields.1 "classifier"
                             || String.eqb fields.1 "segmenter")
                    UnknownModelType in
        Ok fields)) /\
  (forall folder name divider,
     has_slash name = false ->
     (forall a b, name <> a ++ ".pth" ++ b) ->
     name_fields (folder ++ "/" ++ name) divider
     = (let* components := py_split name divider in
        let* fields := unpack_components components in
        let* _ := py_assert (String.eqb fields.1 "classifier"
                             || String.eqb fields.1 "segmenter")
                    UnknownModelType in
        Ok fields)) /\
  (forall a b, py_replace (a ++ ".pth" ++ b) ".pth" ""
               = py_replace a ".pth" "" ++ py_replace b ".pth" "") /\
  (forall s, (forall a b, s <> a ++ ".pth" ++ b) -> py_replace s ".pth" "" = s) /\
  name_fields "runs_1.pth/classifier.pth_0.5.pth" "_" = Ok ("classifier", "0.5") /\
  name_fields "classifier.pth_0.5.pth" "_" = Ok ("classifier", "0.5") /\
  name_fields "runs_1.pth/classifier_0.9.ckpt" "_"
  = Ok ("classifier", "0.9.ckpt") /\
  name_fields "classifier_0.9.ckpt" "_" = Ok ("classifier", "0.9.ckpt") /\
  metric_suffix "0.9.ckpt" = "0.9.ckpt" /\
  find_best_checkpoint float ["runs_1.pth/classifier_0.9.ckpt"] "_"
  = match float "0.9.ckpt" with
    | Some _ => Ok (Some "runs_1.pth/classifier_0.9.ckpt")
    | None => Err (ValueError FloatOfString)
    end.
Proof.
  assert (Hrep : forall a b, py_replace (a ++ ".pth" ++ b) ".pth" ""
                             = py_replace a ".pth" "" ++ py_replace b ".pth" "").
  { intros a b. unfold py_replace. apply replace_pth_app_go. lia. }
  assert (Hid : forall s, (forall a b, s <> a ++ ".pth" ++ b) ->
                          py_replace s ".pth" "" = s).
  { intros s Hs. unfold py_replace. by apply replace_pth_none_go. }
  split; [|split; [|split; [exact Hrep|split; [exact Hid|]]]].
  - intros folder a b divider Hn. unfold name_fields.
    by rewrite (basename_app_slash folder _ Hn), Hrep.
  - intros folder name divider Hn Hs. unfold name_fields.
    by rewrite (basename_app_slash folder _ Hn), (Hid name Hs).
  - do 5 (split; [vm_compute; reflexivity|]).
    unfold find_best_checkpoint, visit_all, visit, model_metric.
    assert (E : name_fields "runs_1.pth/classifier_0.9.ckpt" "_"
                = Ok ("classifier", "0.9.ckpt")) by (vm_compute; reflexivity).
    rewrite E. cbn [List.length Nat.ltb Nat.leb py_assert rbind snd].
    unfold parse_metric.
    assert (E' : metric_suffix "0.9.ckpt" = "0.9.ckpt") by (vm_compute; reflexivity).
    rewrite E'. by destruct (float "0.9.ckpt").
Qed.

Lemma find_best_checkpoint_strips_pth_witness :
  name_fields ("runs_1.pth" ++ "/" ++ "classifier" ++ ".pth" ++ "_0.5.pth") "_"
  = (let* components :=
       py_split (py_replace "classifier" ".pth" ""
                 ++ py_replace "_0.5.pth" ".pth" "") "_" in
     let* fields := unpack_components components in
     let* _ := py_assert (String.eqb fields.1 "classifier"
                          || String.eqb fields.1 "segmenter")
                 UnknownModelType in
     Ok fields) /\
  py_replace "classifier_0.9.ckpt" ".pth" "" = "classifier_0.9.ckpt" /\
  find_best_checkpoint float_of_decimal ["runs_1.pth/classifier_0.9.ckpt"] "_"
  = Err (ValueError FloatOfString).
Proof.
  split; [|split].
  - apply (proj1 (find_best_checkpoint_strips_pth float_of_decimal)).
    reflexivity.
  - apply (proj1 (proj2 (proj2 (proj2
             (find_best_checkpoint_strips_pth float_of_decimal))))).
    intros a b E.
    apply (f_equal (has_char "h")) in E.
    rewrite has_char_h_pth in E. vm_compute in E. discriminate.
  - exact (proj2 (proj2 (proj2 (proj2 (proj2 (proj2 (proj2 (proj2 (proj2
             (find_best_checkpoint_strips_pth float_of_decimal)))))))))).
Defined.

Local Close Scope string_scope.

(** * Further properties *)

(** ** [compute_class_weights]: the returned dictionary *)



(** X2: a returned dictionary has exactly the keys of the dictionary given,
    and so has the given dictionary after the call. *)
Theorem compute_class_weights_keys
  {K : Type} `{Countable K} (data : gmap K Q) (smoothing clip : Q)
  (w : gmap K Q) :
  (compute_class_weights data smoothing clip).2 = Ok w ->
  dom w = dom data /\
  dom (compute_class_weights data smoothing clip).1 = dom data.
Proof.
  intros Hw.
  pose proof (compute_Ok_inv _ _ _ _ Hw) as (Hs0 & Hs1 & Hne & _ & maj & _ & ->).
  destruct (compute_run data smoothing clip Hs0 Hs1 Hne)
    as (m & maj' & data' & _ & Hd' & _ & _ & H1 & _).
  assert (Hdom : dom data' = dom data).
  { rewrite Hd'. destruct (Qlt_le_dec 0 smoothing); [|done].
    unfold add_to_all. by rewrite dom_fmap_L. }
  rewrite H1, dom_fmap_L. by split.
Qed.

Lemma compute_class_weights_keys_witness :
  exists w : gmap string Q,
    dom w = dom counts_a4_b0 /\
    dom (compute_class_weights counts_a4_b0 (1 # 2) 10).1 = dom counts_a4_b0.
Proof.
  destruct (compute_class_weights counts_a4_b0 (1 # 2) 10) as [d [w|e]] eqn:E;
    [|vm_compute in E; discriminate].
  exists w.
  assert (Hw : (compute_class_weights counts_a4_b0 (1 # 2) 10).2 = Ok w)
    by (by rewrite E).
  pose proof (compute_class_weights_keys counts_a4_b0 (1 # 2) 10 w Hw) as Hthm.
  rewrite E in Hthm. exact Hthm.
Defined.






(** ** [compute_class_weights]: the default arguments *)

Section B64Defaults.
Import B64.
Context {K : Type}.

(** The arithmetic of the bound: with [sm] the float of [M * s] and [s]
    close enough to 0.15, the float sum [M + sm] stays below 7.67 times
    the float of [sm]. *)
Lemma defaults_quotient_bound (M s sm mj p0 u U : Q) :
  1 <= M -> 0 < s -> 0 < u -> u < 1 ->
  1 + u <= s * (1 - u) * (U * (1 - u) * (1 - u) - (1 + u)) ->
  M * s * (1 - u) <= sm ->
  mj <= (M + sm) * (1 + u) ->
  sm * (1 - u) <= p0 ->
  0 < U ->
  mj <= U * p0.
Proof.
  intros HM Hs Hu0 Hu1 Hkey Hsm Hmj Hp0 HU.
  remember (U * (1 - u) * (1 - u) - (1 + u)) as c eqn:Ec.
  assert (Hsu : 0 < s * (1 - u)) by nra.
  remember (s * (1 - u)) as a eqn:Ea.
  assert (Hc : 0 < c).
  { destruct (Qlt_le_dec 0 c) as [|Hle]; [done|]. exfalso.
    assert (a * c <= 0) by nra. lra. }
  assert (Hsm' : M * a <= sm) by (rewrite Ea; lra).
  assert (Hsm0 : 0 < sm) by nra.
  assert (H1 : M * a * c <= sm * c) by nra.
  assert (H2 : M * (1 + u) <= sm * c) by nra.
  assert (H3 : (M + sm) * (1 + u) <= U * (sm * (1 - u)) * (1 - u)).
  { rewrite Ec in H2. nra. }
  assert (Hs1u : 0 <= sm * (1 - u)) by nra.
  assert (H4 : U * (sm * (1 - u)) * (1 - u) <= U * (sm * (1 - u))) by nra.
  assert (H5 : U * (sm * (1 - u)) <= U * p0) by nra.
  lra.
Qed.

(** X7: with the default arguments ([smoothing=0.15], [clip=10.0]) a call
    on [int] counts between 0 and [2^1022], one of them positive, returns,
    and every weight lies between 1 and 7.67: the clip at 10 is never
    reached. *)
Theorem compute_class_weights_defaults (counts : list (K * Z)) :
  (forall n, n ∈ counts.*2 -> (0 <= n <= count_bound)%Z) ->
  (exists n, n ∈ counts.*2 /\ (0 < n)%Z) ->
  exists ws,
    (compute_class_weights binary64 (ints counts)
       default_smoothing default_clip).2 = Ok ws /\
    forall k w, (k, w) ∈ ws ->
      fle (Finite 1) w = true /\ fle w (literal (767 # 100)) = true.
Proof.
  intros Hb (n0 & Hn0 & Hpos0).
  pose proof binary64_rounding as R.
  assert (Hne : counts <> []) by (intros ->; inversion Hn0).
  destruct (py_max_ints counts Hne) as (m & Hm & Hin & Hmax).
  assert (Hm1 : (1 <= m)%Z) by (pose proof (Hmax n0 Hn0); lia).
  pose proof (Hb m Hin) as Hbm.
  (* the float of 0.15 *)
  destruct (fl_cases binary64 (15 # 100)) as [[_ H]|[[_ H]|[Es _]]];
    [exfalso; revert H; apply Qlt_not_le; vm_compute; reflexivity ..|].
  unfold default_smoothing, default_clip, literal.
  rewrite Es.
  assert (Ec : fl binary64 10 = Finite 10) by (vm_compute; reflexivity).
  rewrite Ec.
  set (s := binary64 (15 # 100)) in *.
  assert (Hrs : binary64 s == s) by (vm_compute; reflexivity).
  assert (Hs0 : 0 < s) by (vm_compute; reflexivity).
  assert (Hs1 : s <= 1) by (apply Qle_bool_iff; vm_compute; reflexivity).
  assert (Hsn : pow2 (-1022) <= s) by (apply Qle_bool_iff; vm_compute; reflexivity).
  assert (Hu0 : 0 < eps) by apply pow2_pos.
  assert (Hu1 : eps < 1) by (vm_compute; reflexivity).
  assert (Hkey : 1 + eps
                 <= s * (1 - eps)
                    * ((767 # 100) * (1 - eps) * (1 - eps) - (1 + eps)))
    by (apply Qle_bool_iff; vm_compute; reflexivity).
  destruct (compute_smoothing binary64 R counts s (Finite 10) m Hb Hs0 Hs1
              Hm Hin Hmax) as (mj & Emj & _ & _ & Hok).
  assert (Hsv : forall n, (0 <= n)%Z -> s <= smoothed_value binary64 m s n).
  { intros n Hn. by apply (smoothed_value_pos binary64 R). }
  rewrite Hok; cycle 1.
  { intros n Hn Hz. pose proof (Hb n Hn). pose proof (Hsv n ltac:(lia)). lra. }
  eexists. split; [reflexivity|].
  intros k w Hkw.
  apply list_elem_of_fmap in Hkw as ([k' n] & [= -> ->] & Hitem).
  cbn [fst snd].
  pose proof (elem_of_counts _ _ Hitem) as Hn. cbn [snd] in Hn.
  pose proof (Hb n Hn) as Hbn. pose proof (Hmax n Hn) as Hnm.
  pose proof (Hsv n ltac:(lia)) as Hp.
  (* the quotient lies between 1 and 7.67 *)
  assert (Hq1 : 1 <= mj / smoothed_value binary64 m s n).
  { apply Qle_shift_div_l; [lra|].
    pose proof (smoothed_value_mono binary64 R m m n m s
                  ltac:(lia) ltac:(lia) ltac:(lia) Hnm ltac:(lra)).
    lra. }
  assert (Hq2 : mj / smoothed_value binary64 m s n <= 767 # 100).
  { apply Qle_shift_div_r; [lra|].
    pose proof (smoothed_value_mono binary64 R m m 0 n s
                  ltac:(lia) ltac:(lia) ltac:(lia) ltac:(lia) ltac:(lra)) as Hmono.
    assert (Hgoal : mj <= (767 # 100) * smoothed_value binary64 m s 0);
      [|nra].
    rewrite Emj. unfold smoothed_value.
    assert (HM : 1 <= binary64 (inject_Z m)).
    { apply (rnd_ge_one binary64 R). change 1 with (inject_Z 1).
      by rewrite <- Zle_Qle. }
    set (M := binary64 (inject_Z m)) in *.
    assert (HMs : pow2 (-1022) <= M * s) by nra.
    destruct (binary64_error (M * s) HMs) as [Hsm1 Hsm2].
    assert (Hsms : s <= binary64 (M * s)).
    { rewrite <- Hrs at 1. apply binary64_mono; [lra|nra]. }
    set (sm := binary64 (M * s)) in *.
    assert (Hsum : pow2 (-1022) <= M + sm) by lra.
    destruct (binary64_error (M + sm) Hsum) as [_ Hmj].
    assert (E0 : binary64 (inject_Z 0) + sm == sm).
    { change (inject_Z 0) with 0. rewrite binary64_zero. ring. }
    assert (Hp0 : sm * (1 - eps) <= binary64 (binary64 (inject_Z 0) + sm)).
    { rewrite (rnd_comp binary64 R _ sm); [|lra|exact E0].
      apply binary64_error. lra. }
    apply (defaults_quotient_bound M s sm _ _ eps (767 # 100));
      try done; try lra. }
  assert (Hnn : Finite 10 <> NaN) by discriminate.
  split.
  - assert (E1 : round_clip binary64 (Finite 10) (fl binary64 1) = Finite 1)
      by (vm_compute; reflexivity).
    rewrite <- E1.
    apply (round_clip_mono binary64 R); [|apply (fl_mono binary64 R); lra|done].
    apply (fl_nonneg_fle binary64 R). lra.
  - assert (E2 : round_clip binary64 (Finite 10) (fl binary64 (767 # 100))
                 = fl binary64 (767 # 100)) by (vm_compute; reflexivity).
    rewrite <- E2.
    apply (round_clip_mono binary64 R); [|apply (fl_mono binary64 R); lra|done].
    apply (fl_nonneg_fle binary64 R). lra.
Qed.

End B64Defaults.

Local Open Scope string_scope.

Lemma compute_class_weights_defaults_witness :
  exists ws,
    (B64.compute_class_weights B64.binary64 (B64.ints [("a", 4%Z); ("b", 0%Z)])
       B64.default_smoothing B64.default_clip).2 = B64.Ok ws /\
    forall k w, (k, w) ∈ ws ->
      B64.fle (B64.Finite 1) w = true /\
      B64.fle w (B64.literal (767 # 100)) = true.
Proof.
  apply (compute_class_weights_defaults [("a", 4%Z); ("b", 0%Z)]).
  - intros n Hn. apply count_bound_large. by_cases_on_counts Hn.
  - exists 4%Z. split; [left|lia].
Defined.

Local Close Scope string_scope.

(** ** [find_best_checkpoint]: the file returned *)

Local Open Scope string_scope.

Lemma visit_all_member (float : string -> option Q) (divider : string)
    (models : list string) (st st' : best) :
  visit_all float divider st models = Ok st' ->
  current_best st' = current_best st \/
  exists q, q ∈ models /\ current_best st' = Some q.
Proof.
  revert st. induction models as [|q l IH]; intros st; simpl.
  - intros [= <-]. by left.
  - destruct (model_metric float q divider) as [m|e] eqn:E.
    + rewrite (visit_Ok _ _ _ _ _ E). simpl. intros Hl.
      apply IH in Hl as [Hsame|(q' & Hq' & Hbest)].
      * destruct (replaces (current_best_metric st) m); simpl in Hsame.
        -- right. exists q. split; [left|done].
        -- by left.
      * right. exists q'. split; [by right|done].
    + by rewrite (visit_Err _ _ _ _ _ E).
Qed.

(** X8: when a call returns, it returns one of the paths it was given,
    never [None]. *)
Theorem find_best_checkpoint_member (float : string -> option Q)
    (models : list string) (divider : string) (r : option string) :
  find_best_checkpoint float models divider = Ok r ->
  exists q, r = Some q /\ q ∈ models.
Proof.
  unfold find_best_checkpoint. destruct models as [|q l]; [discriminate|].
  cbn [List.length Nat.ltb Nat.leb py_assert rbind visit_all].
  destruct (model_metric float q divider) as [m|e] eqn:E.
  - rewrite (visit_Ok _ _ _ _ _ E). cbn [rbind current_best_metric replaces].
    destruct (visit_all float divider _ l) as [st'|e] eqn:El; [|discriminate].
    simpl. intros [= <-].
    apply visit_all_member in El as [Hsame|(q' & Hq' & Hbest)].
    + exists q. split; [done|left].
    + exists q'. split; [done|by right].
  - by rewrite (visit_Err _ _ _ _ _ E).
Qed.

Lemma find_best_checkpoint_member_witness :
  exists q, Some "classifier_0.91-0.91.pth" = Some q /\
            q ∈ ["classifier_0.70-0.70.pth"; "classifier_0.91-0.91.pth";
                 "segmenter_0.50.pth"].
Proof.
  apply (find_best_checkpoint_member float_of_decimal _ "_").
  vm_compute. reflexivity.
Defined.

(** X9: when every name is read and all metrics are non-negative, the file
    returned has the largest metric of all. *)
Theorem find_best_checkpoint_max (float : string -> option Q)
    (divider : string) (models : list string) (ms : list Q) :
  Forall2 (fun q m => model_metric float q divider = Ok m) models ms ->
  Forall (fun m => 0 <= m) ms ->
  models <> [] ->
  exists (i : nat) (q : string) (m : Q),
    find_best_checkpoint float models divider = Ok (Some q) /\
    models !! i = Some q /\ ms !! i = Some m /\
    (forall j (m' : Q), ms !! j = Some m' -> m' <= m).
Proof.
  intros Hms Hnn Hne.
  assert (Hv : exists (i : nat) (q : string) (m : Q),
             visit_all float divider (Best None None) models
             = Ok (Best (Some q) (Some m)) /\
             models !! i = Some q /\ ms !! i = Some m /\
             (forall j (m' : Q), ms !! j = Some m' -> m' <= m)).
  { revert ms Hms Hnn Hne.
    induction models as [|q l IH] using rev_ind; intros ms Hms Hnn Hne;
      [done|]. clear Hne.
    apply Forall2_app_inv_l in Hms as (ms1 & ms2 & Hl & Hq & ->).
    apply Forall2_cons_inv_l in Hq as (mq & ms2' & Hq & Hnil & ->).
    apply Forall2_nil_inv_l in Hnil as ->.
    apply Forall_app in Hnn as [Hnn1 Hnn2].
    assert (Hmq : 0 <= mq) by (by inversion Hnn2).
    pose proof (Forall2_length _ _ _ Hl) as Hlen.
    rewrite visit_all_app.
    destruct l as [|q0 l0].
    - apply Forall2_nil_inv_l in Hl as ->. simpl.
      rewrite (visit_Ok _ _ _ _ _ Hq). simpl.
      exists 0%nat, q, mq. repeat split; try done.
      intros [|j] m'; simpl; [intros [= <-]; apply Qle_refl | done].
    - destruct (IH ms1 Hl Hnn1) as (i & qi & mi & -> & Hqi & Hmi & Hub);
        [done|].
      cbn [rbind visit_all]. rewrite (visit_Ok _ _ _ _ _ Hq).
      cbn [rbind current_best_metric].
      assert (Hmi0 : 0 <= mi).
      { rewrite Forall_forall in Hnn1. apply Hnn1.
        by apply list_elem_of_lookup_2 in Hmi. }
      pose proof (lookup_lt_Some _ _ _ Hmi) as Hi.
      assert (Hnew : forall j (m' : Q), mi <= mq ->
                 (ms1 ++ [mq])%list !! j = Some m' -> m' <= mq).
      { intros j m' Hle Hj.
        destruct (decide (j < List.length ms1)%nat) as [Hj1|Hj1].
        - rewrite lookup_app_l in Hj by done. apply Hub in Hj. lra.
        - rewrite lookup_app_r in Hj by lia.
          destruct (j - List.length ms1)%nat; simpl in Hj; [|done].
          injection Hj as <-. apply Qle_refl. }
      destruct (replaces (Some mi) mq) eqn:Er.
      + assert (Hle : mi <= mq).
        { destruct (Qeq_dec mi 0) as [Hz|Hz]; [lra|].
          destruct (Qlt_le_dec mq mi) as [Hlt|Hge]; [|done].
          rewrite replaces_ge in Er; [discriminate | done | lra]. }
        exists (List.length (q0 :: l0)), q, mq. split; [done|].
        split; [by rewrite list_lookup_middle|].
        split; [by rewrite Hlen, list_lookup_middle|].
        intros j m'. by apply Hnew.
      + assert (Hle : mq <= mi).
        { destruct (Qlt_le_dec mi mq) as [Hlt|Hge]; [|done].
          by rewrite replaces_lt in Er. }
        exists i, qi, mi. split; [done|].
        split; [rewrite lookup_app_l; [done | rewrite Hlen; done]|].
        split; [by rewrite lookup_app_l|].
        intros j m' Hj.
        destruct (decide (j < List.length ms1)%nat) as [Hj1|Hj1].
        * rewrite lookup_app_l in Hj by done. by apply (Hub j).
        * rewrite lookup_app_r in Hj by lia.
          destruct (j - List.length ms1)%nat; simpl in Hj; [|done].
          by injection Hj as <-. }
  destruct Hv as (i & q & m & Hv & Hrest).
  exists i, q, m. split; [|done].
  unfold find_best_checkpoint. rewrite Hv.
  destruct models; [done|]. reflexivity.
Qed.

Lemma find_best_checkpoint_max_witness :
  exists (i : nat) (q : string) (m : Q),
    find_best_checkpoint float_of_decimal
      ["classifier_0.0.pth"; "segmenter_0.5.pth"; "segmenter_0.0.pth"] "_"
    = Ok (Some q) /\
    ["classifier_0.0.pth"; "segmenter_0.5.pth"; "segmenter_0.0.pth"] !! i = Some q /\
    [0; 1 # 2; 0] !! i = Some m /\
    (forall j (m' : Q), [0; 1 # 2; 0] !! j = Some m' -> m' <= m).
Proof.
  apply find_best_checkpoint_max.
  - repeat constructor; vm_compute; reflexivity.
  - repeat constructor; vm_compute; discriminate.
  - discriminate.
Defined.



Lemma visit_all_Err (float : string -> option Q) (divider : string)
    (models : list string) (st : best) (e : exception) :
  visit_all float divider st models = Err e ->
  exists (pre post : list string) (q : string),
    models = (pre ++ q :: post)%list /\
    Forall (fun p => is_ok (model_metric float p divider) = true) pre /\
    model_metric float q divider = Err e.
Proof.
  revert st. induction models as [|q l IH]; intros st; simpl; [discriminate|].
  destruct (model_metric float q divider) as [m|e'] eqn:E.
  - rewrite (visit_Ok _ _ _ _ _ E). simpl.
    intros (pre & post & q' & -> & Hpre & Hq')%IH.
    exists (q :: pre), post, q'. split; [done|]. split; [|done].
    constructor; [by rewrite E | done].
  - rewrite (visit_Err _ _ _ _ _ E). simpl. intros [= <-].
    exists [], l, q. by repeat split.
Qed.

(** X11: a call raises exactly when the list is empty (the assertion on
    [len(models)]) or some name in it cannot be read; the exception is the
    one of the first such name, and the names after it are not looked
    at. *)
Theorem find_best_checkpoint_raises_iff (float : string -> option Q)
    (models : list string) (divider : string) (e : exception) :
  find_best_checkpoint float models divider = Err e <->
  (models = [] /\ e = AssertionError NoModelsFound) \/
  (exists (pre post : list string) (q : string),
     models = (pre ++ q :: post)%list /\
     Forall (fun p => is_ok (model_metric float p divider) = true) pre /\
     model_metric float q divider = Err e).
Proof.
  split.
  - unfold find_best_checkpoint. destruct models as [|q l].
    + simpl. intros [= <-]. by left.
    + cbn [List.length Nat.ltb Nat.leb py_assert rbind]. intros He. right.
      destruct (visit_all float divider (Best None None) (q :: l))
        as [st'|e'] eqn:Ev; [discriminate|].
      simpl in He. injection He as <-. by apply visit_all_Err in Ev.
  - intros [[-> ->]|(pre & post & q & -> & Hpre & Hq)]; [done|].
    by apply find_best_checkpoint_first_error.
Qed.

(** The shape of a split at ['-']: the last component is free of ['-']
    and is the whole string, or what follows its last ['-']. *)
Lemma split_dash_shape (s : string) :
  exists (l : list string) (suf : string),
    split_go "-" 0 s = (l ++ [suf])%list /\
    has_char "-" suf = false /\
    ((l = [] /\ s = suf) \/ (l <> [] /\ exists a, s = a ++ "-" ++ suf)).
Proof.
  induction s as [|c s (l & suf & Hsplit & Hsuf & Hshape)].
  - exists [], "". repeat split; try done. by left.
  - rewrite split_dash_cons, Hsplit.
    destruct (Ascii.eqb_spec "-" c) as [<-|Hne].
    + exists ("" :: l), suf. repeat split; try done. right. split; [done|].
      destruct Hshape as [[-> ->]|[_ [a ->]]].
      * by exists "".
      * by exists (String "-" a).
    + destruct l as [|h t].
      * exists [], (String c suf). split; [done|]. split.
        -- cbn [has_char]. rewrite Hsuf.
           destruct (Ascii.eqb_spec "-" c); [done|reflexivity].
        -- left. destruct Hshape as [[_ ->]|[Hl _]]; done.
      * exists (String c h :: t), suf. repeat split; try done. right.
        split; [done|]. destruct Hshape as [[Hl _]|[_ [a ->]]]; [done|].
        by exists (String c a).
Qed.

(** X12: the string handed to [float] never contains ['-']: it is the
    metric string itself when that has no ['-'], and what follows its last
    ['-'] otherwise.  A sign or a negative exponent in a file name is
    therefore cut off before [float] sees it. *)
Theorem metric_suffix_no_dash (metric_str : string) :
  has_char "-" (metric_suffix metric_str) = false /\
  (metric_suffix metric_str = metric_str \/
   exists a, metric_str = a ++ "-" ++ metric_suffix metric_str).
Proof.
  destruct (split_dash_shape metric_str) as (l & suf & Hsplit & Hsuf & Hshape).
  assert (E : metric_suffix metric_str = suf).
  { unfold metric_suffix. rewrite Hsplit. apply List.last_last. }
  rewrite E. split; [done|].
  destruct Hshape as [[_ ->]|[_ Ha]]; [by left | by right].
Qed.

(** X13: only the base name of a path is read: the folders before the
    last ['/'] play no part in the metric of a file. *)
Theorem model_metric_ignores_directory (float : string -> option Q)
    (folder name divider : string) :
  has_slash name = false ->
  basename (folder ++ "/" ++ name) = name /\
  model_metric float (folder ++ "/" ++ name) divider
  = model_metric float name divider.
Proof.
  intros Hn. split; [by apply basename_app_slash|].
  unfold model_metric, name_fields.
  by rewrite (basename_app_slash folder name Hn), (basename_no_slash name Hn).
Qed.

Lemma model_metric_ignores_directory_witness :
  basename ("runs/exp_1.pth/models" ++ "/" ++ "classifier_0.91.pth")
  = "classifier_0.91.pth" /\
  model_metric float_of_decimal
    ("runs/exp_1.pth/models" ++ "/" ++ "classifier_0.91.pth") "_"
  = model_metric float_of_decimal "classifier_0.91.pth" "_".
Proof.
  apply model_metric_ignores_directory. reflexivity.
Defined.

Lemma split_go_nonempty (sep : string) (n : nat) (s : string) :
  split_go sep n s <> [].
Proof.
  revert n. induction s as [|c s IH]; intros n; [done|].
  cbn [split_go]. destruct n; [|apply IH].
  destruct (starts_with sep (String c s)); [done|].
  destruct (split_go sep 0 s); done.
Qed.

Lemma split_go_skip (sep p r : string) :
  split_go sep (String.length p) (p ++ r) = split_go sep 0 r.
Proof.
  induction p as [|c p IH]; [reflexivity|].
  rewrite (append_cons c p). cbn [String.length split_go]. apply IH.
Qed.

Lemma concat_cons_nonempty (sep h : string) (t : list string) :
  t <> [] -> String.concat sep (h :: t) = h ++ sep ++ String.concat sep t.
Proof. destruct t; [done|]. reflexivity. Qed.

Lemma concat_cons_char (sep : string) (c : ascii) (h : string) (t : list string) :
  String.concat sep (String c h :: t) = String c (String.concat sep (h :: t)).
Proof. destruct t; reflexivity. Qed.

Lemma length_append (a b : string) :
  String.length (a ++ b) = (String.length a + String.length b)%nat.
Proof.
  induction a as [|c a IH]; [reflexivity|].
  rewrite (append_cons c a). cbn [String.length]. by rewrite IH.
Qed.

Lemma split_go_join (sep : string) (s : string) :
  sep <> "" -> String.concat sep (split_go sep 0 s) = s.
Proof.
  intros Hsep.
  assert (Hn : forall n s, (String.length s <= n)%nat ->
             String.concat sep (split_go sep 0 s) = s).
  { clear s. induction n as [|n IH]; intros s Hs.
    - destruct s; [reflexivity | simpl in Hs; lia].
    - destruct s as [|c s]; [reflexivity|].
      cbn [split_go]. destruct (starts_with sep (String c s)) eqn:Ep.
      + apply starts_with_app in Ep as [r Hr].
        destruct sep as [|a sep']; [done|].
        rewrite (append_cons a sep') in Hr. injection Hr as -> ->.
        replace (String.length (String a sep') - 1)%nat
          with (String.length sep') by (cbn [String.length]; lia).
        rewrite split_go_skip.
        rewrite concat_cons_nonempty by apply split_go_nonempty.
        rewrite IH.
        * reflexivity.
        * cbn [String.length] in Hs. rewrite length_append in Hs. lia.
      + pose proof (split_go_nonempty sep 0 s) as Hne.
        destruct (split_go sep 0 s) as [|h t] eqn:E; [done|].
        rewrite concat_cons_char, <- E. f_equal. apply IH.
        cbn [String.length] in Hs. lia. }
  by apply (Hn (String.length s)).
Qed.

(** X14: splitting loses nothing: the components of [name.split(divider)],
    joined again with the divider between them, are the name; there is
    always at least one component. *)
Theorem py_split_join (s sep : string) (components : list string) :
  py_split s sep = Ok components ->
  components <> [] /\ String.concat sep components = s.
Proof.
  unfold py_split. destruct sep as [|a sep'] eqn:Esep; [discriminate|].
  intros [= <-]. split; [apply split_go_nonempty|].
  by apply split_go_join.
Qed.

Lemma py_split_join_witness :
  ["classifier"; "0.70-0.70"] <> [] /\
  String.concat "_" ["classifier"; "0.70-0.70"] = "classifier_0.70-0.70".
Proof.
  apply py_split_join. vm_compute. reflexivity.
Defined.

Local Close Scope string_scope.

(** ** [seed_worker] *)

Local Open Scope Z_scope.

(** X15: for a worker id that is not negative, [seed_worker] seeds both
    generators with [initial_seed % 2**32 + worker_id] when that is below
    [2**32], and raises otherwise: the worker id is added after the
    reduction, so the sum can leave the range numpy accepts.  Workers that
    start from the same initial seed get different seeds. *)
Theorem seed_worker_spec (initial_seed worker_id : Z) :
  0 <= worker_id ->
  (worker_id <= worker_seed initial_seed worker_id < 2 ^ 32 + worker_id) /\
  (forall st, seed_worker initial_seed worker_id = Some st <->
     worker_seed initial_seed worker_id < 2 ^ 32 /\
     st = Seeds (worker_seed initial_seed worker_id)
                (worker_seed initial_seed worker_id)) /\
  (seed_worker initial_seed worker_id = None <->
     2 ^ 32 <= worker_seed initial_seed worker_id) /\
  (forall other_id, worker_seed initial_seed other_id
                    = worker_seed initial_seed worker_id ->
                    other_id = worker_id).
Proof.
  intros Hw.
  pose proof (Z.mod_pos_bound initial_seed (2 ^ 32) ltac:(lia)) as Hmod.
  unfold seed_worker, np_random_seed, worker_seed in *.
  split; [lia|]. split; [|split].
  - intros st.
    destruct ((0 <=? initial_seed mod 2 ^ 32 + worker_id)
              && (initial_seed mod 2 ^ 32 + worker_id <? 2 ^ 32)) eqn:E.
    + apply andb_true_iff in E as [_ E%Z.ltb_lt]. split.
      * intros [= <-]. by split.
      * by intros [_ ->].
    + split; [discriminate|]. intros [Hlt _].
      apply andb_false_iff in E as [E%Z.leb_gt|E%Z.ltb_ge]; lia.
  - destruct ((0 <=? initial_seed mod 2 ^ 32 + worker_id)
              && (initial_seed mod 2 ^ 32 + worker_id <? 2 ^ 32)) eqn:E.
    + apply andb_true_iff in E as [_ E%Z.ltb_lt]. split; [discriminate|lia].
    + split; [|done]. intros _.
      apply andb_false_iff in E as [E%Z.leb_gt|E%Z.ltb_ge]; lia.
  - intros other_id. lia.
Qed.

Lemma seed_worker_spec_witness :
  seed_worker (2 ^ 32 - 1) 1 = None <-> 2 ^ 32 <= worker_seed (2 ^ 32 - 1) 1.
Proof.
  apply (seed_worker_spec (2 ^ 32 - 1) 1). lia.
Defined.

Local Close Scope Z_scope.

(** ** [solarnet.config] *)

Local Open Scope string_scope.

(** X16: every member of [Models] is found again from its value and from
    its name, but a string is the value of a member only for ["unet"]:
    [Models("deeplabv3")] and [Models("adaptnet")] raise, because the
    values of these two members are one-element tuples. *)
Theorem Models_lookup :
  (forall m, Models_call (Models_value m) = Some m /\
             Models_getitem (Models_name m) = Some m) /\
  (forall s m, Models_call (StrValue s) = Some m <-> s = "unet" /\ m = unet) /\
  (forall m, Models_call (StrValue (Models_name m)) = Some m <-> m = unet).
Proof.
  split; [|split].
  - intros []; split; reflexivity.
  - intros s m. unfold Models_call, Models_members. cbn [List.find Models_value].
    rewrite !bool_decide_eq_false_2 by discriminate.
    destruct (decide (s = "unet")) as [->|Hne].
    + rewrite bool_decide_eq_true_2 by done. split.
      * by intros [= <-].
      * by intros [_ ->].
    + rewrite bool_decide_eq_false_2 by congruence. split; [discriminate|].
      by intros [? _].
  - intros []; split; try discriminate; try done.
Qed.

(** The validator of [loss] accepts a string exactly when it is the
    name of a member and gives that member; it leaves a member as it is,
    so validating its own result changes nothing. *)
Theorem CommonSettings_post_load_spec :
  (forall s l, CommonSettings_post_load (LossName s) = Some l <-> s = Losses_name l) /\
  (forall s, CommonSettings_post_load (LossName s) = None <->
             forall l, s <> Losses_name l) /\
  (forall v l, CommonSettings_post_load v = Some l ->
               CommonSettings_post_load (LossMember l) = Some l).
Proof.
  assert (Hget : forall s l, Losses_getitem s = Some l <-> s = Losses_name l).
  { intros s l. unfold Losses_getitem, Losses_members.
    cbn [List.find Losses_name].
    destruct (String.eqb_spec "bce" s) as [<-|H1];
      [destruct l; split; (done || discriminate)|].
    destruct (String.eqb_spec "crossent" s) as [<-|H2];
      [destruct l; split; (done || discriminate)|].
    destruct (String.eqb_spec "tversky" s) as [<-|H3];
      [destruct l; split; (done || discriminate)|].
    destruct (String.eqb_spec "combo" s) as [<-|H4];
      [destruct l; split; (done || discriminate)|].
    split; [discriminate|]. intros ->. destruct l; done. }
  split; [|split].
  - intros s l. apply Hget.
  - intros s. simpl. split.
    + intros Hn l Hs. apply Hget in Hs. congruence.
    + intros Hnone. destruct (Losses_getitem s) as [l|] eqn:E; [|done].
      apply Hget in E. by destruct (Hnone l).
  - intros v l _. reflexivity.
Qed.

(** X17: the validator of [multiclass] returns its argument and changes
    nothing but the entry ["loss"]; it changes that entry, to [crossent],
    exactly when [multiclass] is [True] and the loss is [bce], which is
    also when it prints its warning; after it, a multi-class setting never
    has the loss [bce]; validating twice is the same as validating once. *)
Theorem SegmenterTrainSettings_post_load_spec {V : Type}
    (v : bool) (values : gmap string (setting V)) :
  let '(values', printed, v') := SegmenterTrainSettings_post_load v values in
  v' = v /\
  dom values' = dom values /\
  (forall k, k <> "loss" -> values' !! k = values !! k) /\
  (v = true -> forall s, values' !! "loss" = Some s -> is_bce s = false) /\
  (values' <> values <-> v = true /\ exists s, values !! "loss" = Some s /\ is_bce s = true) /\
  (printed <> [] <-> values' <> values) /\
  (values' <> values -> values' !! "loss" = Some (LossSetting crossent)) /\
  SegmenterTrainSettings_post_load v values' = (values', [], v).
Proof.
  unfold SegmenterTrainSettings_post_load.
  destruct v.
  - destruct (values !! "loss") as [s|] eqn:El.
    + destruct (is_bce s) eqn:Eb.
      * assert (Hne : <["loss" := LossSetting crossent]> values <> values).
        { intros E. apply (f_equal (fun m => m !! "loss")) in E.
          rewrite lookup_insert_eq, El in E. injection E as <-. discriminate. }
        split; [done|].
        split; [apply dom_insert_lookup_L; by rewrite El|].
        split; [intros k Hk; by rewrite lookup_insert_ne|].
        split; [intros _ s'; rewrite lookup_insert_eq; by intros [= <-]|].
        split; [split; [intros _; eauto | done]|].
        split; [split; [done | intros _; discriminate]|].
        split; [intros _; apply lookup_insert_eq|].
        by rewrite lookup_insert_eq.
      * split; [done|]. split; [done|]. split; [done|].
        split; [intros _ s'; rewrite ?El; by intros [= <-]|].
        split.
        { split; [done|]. intros (_ & s' & Hs' & Hb).
          injection Hs' as <-. congruence. }
        split; [split; done|]. split; [done|].
        by rewrite ?El, Eb.
    + split; [done|]. split; [done|]. split; [done|].
      split; [intros _ s'; rewrite ?El; discriminate|].
      split.
      { split; [done|]. intros (_ & s' & Hs' & _). discriminate. }
      split; [split; done|]. split; [done|].
      by rewrite ?El.
  - split; [done|]. split; [done|]. split; [done|].
    split; [discriminate|].
    split; [split; [done | by intros [? _]]|].
    split; [split; done|]. split; done.
Qed.

Local Close Scope string_scope.

(** ** [one_hot_batch] *)

Lemma mapM_lookup {A B : Type} (f : A -> option B) (l : list A) (k : list B)
    (i : nat) (x : A) :
  mapM f l = Some k -> l !! i = Some x ->
  exists y, k !! i = Some y /\ f x = Some y.
Proof.
  intros Hm Hx. apply mapM_Some_1 in Hm.
  by apply (Forall2_lookup_l _ _ _ _ _ Hm Hx).
Qed.

Lemma eye_row_length (size i : nat) : List.length (eye_row size i) = size.
Proof. unfold eye_row. by rewrite length_fmap, length_seq. Qed.

Lemma eye_row_lookup (size i c : nat) :
  (c < size)%nat ->
  eye_row size i !! c = Some (if (c =? i)%nat then 1 else 0).
Proof.
  intros Hc. unfold eye_row.
  by rewrite list_lookup_fmap, lookup_seq_lt.
Qed.

(** The index of the row of [torch.eye(n + 1)] a label selects. *)
Lemma eye_index_Some (n : nat) (t : Z) (px : list Q) :
  eye_index (S n) t = Some px ->
  (- Z.of_nat (S n) <= t /\ t <= Z.of_nat n)%Z /\
  px = eye_row (S n)
         (Z.to_nat (if (0 <=? t)%Z then t else (t + Z.of_nat (S n))%Z)).
Proof.
  unfold eye_index.
  destruct ((0 <=? t) && (t <? Z.of_nat (S n)))%Z eqn:E1.
  - apply andb_true_iff in E1 as [H0%Z.leb_le H1%Z.ltb_lt].
    intros [= <-]. split; [lia|].
    by rewrite (proj2 (Z.leb_le 0 t) H0).
  - destruct ((- Z.of_nat (S n) <=? t) && (t <? 0))%Z eqn:E2; [|discriminate].
    apply andb_true_iff in E2 as [H0%Z.leb_le H1%Z.ltb_lt].
    intros [= <-]. split; [lia|].
    by rewrite (proj2 (Z.leb_gt 0 t) H1).
Qed.

Lemma eye_index_None (n : nat) (t : Z) :
  eye_index (S n) t = None <-> (t < - Z.of_nat (S n) \/ Z.of_nat n < t)%Z.
Proof.
  unfold eye_index.
  destruct ((0 <=? t) && (t <? Z.of_nat (S n)))%Z eqn:E1.
  - apply andb_true_iff in E1 as [H0%Z.leb_le H1%Z.ltb_lt].
    split; [discriminate|lia].
  - destruct ((- Z.of_nat (S n) <=? t) && (t <? 0))%Z eqn:E2.
    + apply andb_true_iff in E2 as [H0%Z.leb_le H1%Z.ltb_lt].
      split; [discriminate|lia].
    + split; [|done]. intros _.
      apply andb_false_iff in E1 as [E1%Z.leb_gt|E1%Z.ltb_ge];
        apply andb_false_iff in E2 as [E2%Z.leb_gt|E2%Z.ltb_ge]; lia.
Qed.

(** X18: in a returned tensor, the entry of channel [c] at a pixel is 1
    when the label [t] of the pixel is not [ignore_index] and selects [c]
    (as [c] itself, or counted from the end as [c - (num_classes + 1)]),
    and 0 otherwise.  So a label from 0 to [num_classes - 1] is one-hot
    encoded, and a pixel labelled [ignore_index] is 0 in every channel. *)
Theorem one_hot_batch_entry (batch : list (list (list Z))) (num_classes : nat)
    (ignore_index : Z) (out : list (list (list (list Q))))
    (b h w c : nat) (img : list (list Z)) (row : list Z) (t : Z) :
  one_hot_batch batch num_classes ignore_index = Some out ->
  batch !! b = Some img -> img !! h = Some row -> row !! w = Some t ->
  (c < num_classes)%nat ->
  exists (planes : list (list (list Q))) (plane : list (list Q))
         (line : list Q) (x : Q),
    out !! b = Some planes /\ planes !! c = Some plane /\
    plane !! h = Some line /\ line !! w = Some x /\
    ((t <> ignore_index /\
      (t = Z.of_nat c \/ t = (Z.of_nat c - Z.of_nat (S num_classes))%Z)) /\
     x = 1 \/
     ~ (t <> ignore_index /\
        (t = Z.of_nat c \/ t = (Z.of_nat c - Z.of_nat (S num_classes))%Z)) /\
     x = 0).
Proof.
  intros Hout Hb Hh Hw Hc. unfold one_hot_batch in Hout.
  destruct (onehot_target num_classes ignore_index batch) as [oh|] eqn:Eoh;
    [|discriminate].
  injection Hout as <-. unfold onehot_target in Eoh.
  destruct (mapM_lookup _ _ _ _ _ Eoh Hb) as (oimg & Hoimg & Eimg).
  destruct (mapM_lookup _ _ _ _ _ Eimg Hh) as (orow & Horow & Erow).
  destruct (mapM_lookup _ _ _ _ _ Erow Hw) as (px & Hpx & Et).
  apply eye_index_Some in Et as [Hrange ->].
  set (i := Z.to_nat _) in *.
  eexists _, _, _, (if (c =? i)%nat then 1 else 0).
  split. { unfold permute_0312, drop_last_channel.
           by rewrite !list_lookup_fmap, Hoimg. }
  split. { by rewrite list_lookup_fmap, lookup_seq_lt. }
  split. { by rewrite !list_lookup_fmap, Horow. }
  split. { rewrite !list_lookup_fmap, Hpx. cbn [fmap option_fmap option_map].
           f_equal. change (0 + c)%nat with c.
           rewrite eye_row_length.
           replace (S num_classes - 1)%nat with num_classes by lia.
           apply nth_lookup_Some.
           rewrite lookup_take_lt by done. apply eye_row_lookup. lia. }
  unfold relabel in *. subst i.
  destruct (Z.eqb_spec t ignore_index) as [->|Hne].
  - right. split; [by intros [? _]|].
    rewrite (proj2 (Z.leb_le 0 (Z.of_nat num_classes))) by lia.
    rewrite Nat2Z.id. by rewrite (proj2 (Nat.eqb_neq c num_classes)) by lia.
  - destruct (Z.leb_spec 0 t) as [H0|H0].
    + destruct (Nat.eqb_spec c (Z.to_nat t)) as [Ec|Ec].
      * left. split; [|done]. split; [done|]. left. lia.
      * right. split; [|done]. intros [_ [E|E]]; lia.
    + destruct (Nat.eqb_spec c (Z.to_nat (t + Z.of_nat (S num_classes)))) as [Ec|Ec].
      * left. split; [|done]. split; [done|]. right. lia.
      * right. split; [|done]. intros [_ [E|E]]; lia.
Qed.

Lemma one_hot_batch_entry_witness :
  exists (planes : list (list (list Q))) (plane : list (list Q))
         (line : list Q) (x : Q),
    [[[[0; 1]; [0; 0]]; [[1; 0]; [0; 0]]]] !! 0%nat = Some planes /\
    planes !! 1%nat = Some plane /\
    plane !! 0%nat = Some line /\ line !! 0%nat = Some x /\
    ((1%Z <> 255%Z /\ (1%Z = Z.of_nat 1 \/ 1%Z = (Z.of_nat 1 - Z.of_nat 3)%Z)) /\
     x = 1 \/
     ~ (1%Z <> 255%Z /\ (1%Z = Z.of_nat 1 \/ 1%Z = (Z.of_nat 1 - Z.of_nat 3)%Z)) /\
     x = 0).
Proof.
  apply (one_hot_batch_entry [[[1; 0]; [255; 2]]]%Z 2 255 _ 0 0 0 1
           [[1; 0]; [255; 2]]%Z [1; 0]%Z 1%Z);
    [vm_compute; reflexivity | reflexivity | reflexivity | reflexivity | lia].
Defined.

(** X19: the call raises exactly when some label other than
    [ignore_index] lies outside the indices of
    [torch.eye(num_classes + 1)], which run from [-(num_classes + 1)] to
    [num_classes]. *)
Theorem one_hot_batch_raises_iff (batch : list (list (list Z)))
    (num_classes : nat) (ignore_index : Z) :
  one_hot_batch batch num_classes ignore_index = None <->
  exists (b h w : nat) (img : list (list Z)) (row : list Z) (t : Z),
    batch !! b = Some img /\ img !! h = Some row /\ row !! w = Some t /\
    t <> ignore_index /\
    (t < - Z.of_nat (S num_classes) \/ Z.of_nat num_classes < t)%Z.
Proof.
  unfold one_hot_batch, onehot_target.
  set (f := fun t => eye_index (S num_classes)
                       (relabel num_classes ignore_index t)).
  assert (Hf : forall t, f t = None <->
             t <> ignore_index /\
             (t < - Z.of_nat (S num_classes) \/ Z.of_nat num_classes < t)%Z).
  { intros t. unfold f, relabel. rewrite eye_index_None.
    destruct (Z.eqb_spec t ignore_index) as [->|Hne]; [lia|].
    split; [by intros ? | by intros [_ ?]]. }
  destruct (mapM (mapM (mapM f)) batch) as [oh|] eqn:E.
  - split; [discriminate|].
    intros (b & h & w & img & row & t & Hb & Hh & Hw & Ht).
    destruct (mapM_lookup _ _ _ _ _ E Hb) as (oimg & _ & Eimg).
    destruct (mapM_lookup _ _ _ _ _ Eimg Hh) as (orow & _ & Erow).
    destruct (mapM_lookup _ _ _ _ _ Erow Hw) as (px & _ & Et).
    apply Hf in Ht. congruence.
  - split; [|done]. intros _.
    apply mapM_None_1, Exists_exists in E as (img & Himg & E).
    apply mapM_None_1, Exists_exists in E as (row & Hrow & E).
    apply mapM_None_1, Exists_exists in E as (t & Ht & E).
    apply list_elem_of_lookup_1 in Himg as [b Hb].
    apply list_elem_of_lookup_1 in Hrow as [h Hh].
    apply list_elem_of_lookup_1 in Ht as [w Hw].
    apply Hf in E as [Hne Hr]. exists b, h, w, img, row, t.
    repeat split; done.
Qed.

(** X20: a returned tensor has the shape [B, num_classes, H, W] of the
    batch: one image for each image of the batch, [num_classes] planes in
    each, and in each plane the rows and columns of the image. *)
Theorem one_hot_batch_shape (batch : list (list (list Z))) (num_classes : nat)
    (ignore_index : Z) (out : list (list (list (list Q)))) :
  one_hot_batch batch num_classes ignore_index = Some out ->
  List.length out = List.length batch /\
  forall (b : nat) (img : list (list Z)) (planes : list (list (list Q))),
    batch !! b = Some img -> out !! b = Some planes ->
    List.length planes = num_classes /\
    forall (c : nat) (plane : list (list Q)),
      planes !! c = Some plane ->
      List.length plane = List.length img /\
      forall (h : nat) (row : list Z) (line : list Q),
        img !! h = Some row -> plane !! h = Some line ->
        List.length line = List.length row.
Proof.
  intros Hout. unfold one_hot_batch in Hout.
  destruct (onehot_target num_classes ignore_index batch) as [oh|] eqn:Eoh;
    [|discriminate].
  injection Hout as <-. unfold onehot_target in Eoh.
  pose proof (mapM_Some_1 _ _ _ Eoh) as Hall.
  split.
  { unfold permute_0312, drop_last_channel. rewrite !length_fmap.
    symmetry. by apply (Forall2_length _ _ _ Hall). }
  intros b img planes Hb Hplanes.
  destruct (mapM_lookup _ _ _ _ _ Eoh Hb) as (oimg & Hoimg & Eimg).
  unfold permute_0312, drop_last_channel in Hplanes.
  rewrite !list_lookup_fmap, Hoimg in Hplanes. injection Hplanes as <-.
  split; [by rewrite length_fmap, length_seq|].
  intros c plane Hplane. rewrite list_lookup_fmap in Hplane.
  destruct (seq 0 num_classes !! c) as [c'|]; [|discriminate].
  injection Hplane as <-.
  pose proof (mapM_Some_1 _ _ _ Eimg) as Himg.
  split; [rewrite !length_fmap; symmetry; by apply (Forall2_length _ _ _ Himg)|].
  intros h row line Hh Hline.
  destruct (mapM_lookup _ _ _ _ _ Eimg Hh) as (orow & Horow & Erow).
  rewrite !list_lookup_fmap, Horow in Hline. injection Hline as <-.
  rewrite !length_fmap. symmetry.
  by apply (Forall2_length _ _ _ (mapM_Some_1 _ _ _ Erow)).
Qed.

Lemma one_hot_batch_shape_witness :
  List.length [[[[0; 1]; [0; 0]]; [[1; 0]; [0; 0]]]]
  = List.length [[[1; 0]; [255; 2]]]%Z /\
  forall (b : nat) (img : list (list Z)) (planes : list (list (list Q))),
    [[[1; 0]; [255; 2]]]%Z !! b = Some img ->
    [[[[0; 1]; [0; 0]]; [[1; 0]; [0; 0]]]] !! b = Some planes ->
    List.length planes = 2%nat /\
    forall (c : nat) (plane : list (list Q)),
      planes !! c = Some plane ->
      List.length plane = List.length img /\
      forall (h : nat) (row : list Z) (line : list Q),
        img !! h = Some row -> plane !! h = Some line ->
        List.length line = List.length row.
Proof.
  apply (one_hot_batch_shape [[[1; 0]; [255; 2]]]%Z 2 255).
  vm_compute. reflexivity.
Defined.

(** ** [_copy_channel] *)

Lemma py_index_Some (size : nat) (i : Z) (c : nat) :
  py_index size i = Some c ->
  (c < size)%nat /\
  (- Z.of_nat size <= i < Z.of_nat size)%Z /\
  (Z.of_nat c = i \/ Z.of_nat c = (i + Z.of_nat size)%Z).
Proof.
  unfold py_index.
  destruct ((0 <=? i) && (i <? Z.of_nat size))%Z eqn:E1.
  - apply andb_true_iff in E1 as [H0%Z.leb_le H1%Z.ltb_lt].
    intros [= <-]. lia.
  - destruct ((- Z.of_nat size <=? i) && (i <? 0))%Z eqn:E2; [|discriminate].
    apply andb_true_iff in E2 as [H0%Z.leb_le H1%Z.ltb_lt].
    intros [= <-]. lia.
Qed.

Lemma py_index_None (size : nat) (i : Z) :
  py_index size i = None <-> (i < - Z.of_nat size \/ Z.of_nat size <= i)%Z.
Proof.
  unfold py_index.
  destruct ((0 <=? i) && (i <? Z.of_nat size))%Z eqn:E1.
  - apply andb_true_iff in E1 as [H0%Z.leb_le H1%Z.ltb_lt].
    split; [discriminate|lia].
  - destruct ((- Z.of_nat size <=? i) && (i <? 0))%Z eqn:E2.
    + apply andb_true_iff in E2 as [H0%Z.leb_le H1%Z.ltb_lt].
      split; [discriminate|lia].
    + split; [|done]. intros _.
      apply andb_false_iff in E1 as [E1%Z.leb_gt|E1%Z.ltb_ge];
        apply andb_false_iff in E2 as [E2%Z.leb_gt|E2%Z.ltb_ge]; lia.
Qed.

(** X21: on a weight with [I] input channels, [_copy_channel] raises
    exactly for a channel outside [-I, I - 1]; otherwise it returns a
    weight with [I + 1] input channels and the same number of filters, in
    which every kernels keeps its [I] kernels and has, as the new last one,
    its kernel at the channel asked for. *)
Theorem copy_channel_spec {A : Type} (w : layer_weight A) (channel : Z) :
  well_shaped w ->
  (_copy_channel w channel = None <->
   (channel < - Z.of_nat (in_channels w) \/ Z.of_nat (in_channels w) <= channel)%Z) /\
  forall w', _copy_channel w channel = Some w' ->
    in_channels w' = S (in_channels w) /\
    well_shaped w' /\
    List.length (filters w') = List.length (filters w) /\
    exists c : nat,
      py_index (in_channels w) channel = Some c /\
      forall (o : nat) (kernels : list A),
        filters w !! o = Some kernels ->
        exists (kernels' : list A) (kernel : A),
          filters w' !! o = Some kernels' /\
          kernels !! c = Some kernel /\
          kernels' = kernels ++ [kernel].
Proof.
  intros Hws. unfold _copy_channel.
  destruct (py_index (in_channels w) channel) as [c|] eqn:Ec.
  - split.
    { split; [discriminate|]. intros Hr. apply py_index_None in Hr. congruence. }
    intros w' [= <-]. cbn [in_channels filters].
    pose proof (py_index_Some _ _ _ Ec) as (Hc & _ & _).
    assert (Hone : forall kernels : list A,
               List.length kernels = in_channels w ->
               exists kernel, kernels !! c = Some kernel /\
                              take 1 (drop c kernels) = [kernel]).
    { intros kernels Hlen.
      destruct (lookup_lt_is_Some_2 kernels c) as [kernel Hk]; [lia|].
      exists kernel. split; [done|].
      by rewrite (drop_S _ _ _ Hk). }
    split; [done|]. split.
    { unfold well_shaped in *. cbn [in_channels filters].
      apply Forall_fmap. eapply Forall_impl; [exact Hws|].
      intros kernels Hlen. simpl in Hlen |- *.
      destruct (Hone kernels Hlen) as (kernel & _ & ->).
      rewrite length_app. simpl. lia. }
    split; [by rewrite length_fmap|].
    exists c. split; [done|]. intros o kernels Ho.
    unfold well_shaped in Hws. rewrite Forall_forall in Hws.
    destruct (Hone kernels) as (kernel & Hk & Ht).
    { apply Hws. by apply list_elem_of_lookup_2 in Ho. }
    exists (kernels ++ [kernel]), kernel.
    rewrite list_lookup_fmap, Ho. simpl. by rewrite Ht.
  - split; [|discriminate]. split; [|done]. intros _. by apply py_index_None.
Qed.

Lemma copy_channel_spec_witness :
  _copy_channel (Weight 3 [[1; 2; 3]; [4; 5; 6]]%Z) (-1)
  = Some (Weight 4 [[1; 2; 3; 3]; [4; 5; 6; 6]]%Z) /\
  (_copy_channel (Weight 3 [[1; 2; 3]; [4; 5; 6]]%Z) 3 = None <->
   (3 < - Z.of_nat 3 \/ Z.of_nat 3 <= 3)%Z).
Proof.
  split; [reflexivity|].
  apply (copy_channel_spec (Weight 3 [[1; 2; 3]; [4; 5; 6]]%Z) 3).
  repeat constructor.
Defined.

(** ** [mask_to_rgb] *)

Section MaskToRgbFacts.
Variable to_uint8 : Z -> option Z.
Hypothesis to_uint8_byte : forall z, (0 <= z <= 255)%Z -> to_uint8 z = Some z.

Lemma mapM_to_uint8 (color : list Z) :
  Forall (fun z => (0 <= z <= 255)%Z) color -> mapM to_uint8 color = Some color.
Proof.
  intros Hc. apply mapM_Some_2.
  induction Hc as [|z l Hz _ IH]; constructor; auto.
Qed.

Lemma set_color_rgb (lut : list (list Z)) (k : Z) (color : list Z) :
  rgb_color color ->
  set_color to_uint8 lut (k, color)
  = match py_index 256 k with
    | Some i => Some (<[i := color]> lut)
    | None => None
    end.
Proof.
  intros [Hlen Hb]. unfold set_color. cbn [fst snd].
  rewrite (mapM_to_uint8 color Hb).
  destruct (py_index 256 k); [|done].
  by destruct color as [|x [|y [|z [|? ?]]]].
Qed.

Lemma build_lut_content (items : list (Z * list Z)) (lut0 lut : list (list Z)) :
  Forall (fun item => rgb_color item.2) items ->
  build_lut to_uint8 lut0 items = Some lut ->
  List.length lut = List.length lut0 /\
  forall i : nat, (i < List.length lut0)%nat ->
    (exists (pre post : list (Z * list Z)) (k : Z) (color : list Z),
       items = pre ++ (k, color) :: post /\
       py_index 256 k = Some i /\
       Forall (fun item => py_index 256 item.1 <> Some i) post /\
       lut !! i = Some color) \/
    (Forall (fun item => py_index 256 item.1 <> Some i) items /\
     lut !! i = lut0 !! i).
Proof.
  intros Hvalid. revert lut0.
  induction Hvalid as [|[k color] rest Hc _ IH]; intros lut0 Hb.
  - injection Hb as <-. split; [done|]. intros i _. right. by split.
  - cbn [build_lut] in Hb. rewrite (set_color_rgb _ _ _ Hc) in Hb.
    destruct (py_index 256 k) as [i0|] eqn:Ek; [|discriminate].
    destruct (IH _ Hb) as [Hlen Hslots]. rewrite length_insert in Hlen, Hslots.
    split; [done|]. intros i Hi.
    destruct (Hslots i Hi) as [(pre & post & k' & c' & -> & Hk' & Hpost & Hl)
                              |[Hnone Hl]].
    + left. exists ((k, color) :: pre), post, k', c'. by repeat split.
    + destruct (decide (i = i0)) as [->|Hne].
      * left. exists [], rest, k, color. repeat split; try done.
        rewrite Hl. by apply list_lookup_insert_eq.
      * right. split.
        -- constructor; [|done]. cbn [fst]. rewrite Ek. congruence.
        -- rewrite Hl. by apply list_lookup_insert_ne.
Qed.

Lemma build_lut_None (items : list (Z * list Z)) (lut0 : list (list Z)) :
  Forall (fun item => rgb_color item.2) items ->
  build_lut to_uint8 lut0 items = None <->
  Exists (fun item => py_index 256 item.1 = None) items.
Proof.
  intros Hvalid. revert lut0.
  induction Hvalid as [|[k color] rest Hc _ IH]; intros lut0.
  - split; [discriminate|]. by intros ?%Exists_nil.
  - cbn [build_lut]. rewrite (set_color_rgb _ _ _ Hc).
    destruct (py_index 256 k) as [i0|] eqn:Ek.
    + rewrite IH. split; [by right|].
      intros [Hh|Ht]%Exists_cons; [|done]. cbn [fst] in Hh. congruence.
    + split; [|done]. intros _. by left.
Qed.

Lemma lut_index_color (palette : list (Z * list Z)) (lut : list (list Z))
    (t : Z) (color : list Z) :
  Forall (fun item => rgb_color item.2) palette ->
  build_lut to_uint8 lut_zeros palette = Some lut ->
  lut_index lut t = Some color ->
  palette_color palette t color.
Proof.
  intros Hvalid Hb Hl. unfold lut_index in Hl.
  destruct (py_index 256 t) as [i|] eqn:Et; [|discriminate].
  pose proof (py_index_Some _ _ _ Et) as (Hi & _).
  destruct (build_lut_content _ _ _ Hvalid Hb) as [_ Hslots].
  exists i. split; [done|].
  destruct (Hslots i) as [(pre & post & k & c & -> & Hk & Hpost & Hc)|[Hnone Hc]].
  - unfold lut_zeros. by rewrite length_replicate.
  - left. rewrite Hl in Hc. injection Hc as ->. by exists pre, post, k.
  - right. split; [|done]. rewrite Hl in Hc. unfold lut_zeros in Hc.
    rewrite lookup_replicate_2 in Hc by done. by injection Hc as ->.
Qed.

End MaskToRgbFacts.

(** X22: with colours of three bytes, in the array [mask_to_rgb] returns
    (not channels first) the pixel of a label has the colour of the last
    item of the palette whose index selects the same row of the table as
    the label (an index and the index minus 256 select the same row), and
    is black when the palette has no such item. *)
Theorem mask_to_rgb_pixel (to_uint8 : Z -> option Z)
    (palette : list (Z * list Z)) (mask : mask_array) (result : rgb_array) :
  (forall z, (0 <= z <= 255)%Z -> to_uint8 z = Some z) ->
  Forall (fun item => rgb_color item.2) palette ->
  mask_to_rgb to_uint8 mask palette false = Some result ->
  match mask, result with
  | Mask2 m, Rgb3 out =>
      forall (h w : nat) (row : list Z) (t : Z),
        m !! h = Some row -> row !! w = Some t ->
        exists (line : list (list Z)) (color : list Z),
          out !! h = Some line /\ line !! w = Some color /\
          palette_color palette t color
  | Mask3 m, Rgb4 out =>
      forall (b h w : nat) (img : list (list Z)) (row : list Z) (t : Z),
        m !! b = Some img -> img !! h = Some row -> row !! w = Some t ->
        exists (oimg : list (list (list Z))) (line : list (list Z))
               (color : list Z),
          out !! b = Some oimg /\ oimg !! h = Some line /\
          line !! w = Some color /\ palette_color palette t color
  | _, _ => False
  end.
Proof.
  intros Hbyte Hvalid Hr. unfold mask_to_rgb in Hr.
  destruct (build_lut to_uint8 lut_zeros palette) as [lut|] eqn:Eb;
    [|discriminate].
  destruct mask as [m|m].
  - destruct (mapM (mapM (lut_index lut)) m) as [out|] eqn:Em; [|discriminate].
    injection Hr as <-. intros h w row t Hh Hw.
    destruct (mapM_lookup _ _ _ _ _ Em Hh) as (line & Hline & Erow).
    destruct (mapM_lookup _ _ _ _ _ Erow Hw) as (color & Hcolor & Et).
    exists line, color. repeat split; try done.
    by apply (lut_index_color to_uint8 Hbyte palette lut).
  - destruct (mapM (mapM (mapM (lut_index lut))) m) as [out|] eqn:Em;
      [|discriminate].
    injection Hr as <-. intros b h w img row t Hb Hh Hw.
    destruct (mapM_lookup _ _ _ _ _ Em Hb) as (oimg & Hoimg & Eimg).
    destruct (mapM_lookup _ _ _ _ _ Eimg Hh) as (line & Hline & Erow).
    destruct (mapM_lookup _ _ _ _ _ Erow Hw) as (color & Hcolor & Et).
    exists oimg, line, color. repeat split; try done.
    by apply (lut_index_color to_uint8 Hbyte palette lut).
Qed.

Lemma mask_to_rgb_pixel_witness :
  exists (line : list (list Z)) (color : list Z),
    [[[0; 0; 0]; [255; 0; 0]]; [[0; 0; 9]; [0; 0; 0]]]%Z !! 1%nat = Some line /\
    line !! 0%nat = Some color /\
    palette_color [(1, [255; 0; 0]); (255, [0; 9; 0]); (-1, [0; 0; 9])]%Z
                  (-1) color.
Proof.
  apply (mask_to_rgb_pixel to_uint8_strict
           [(1, [255; 0; 0]); (255, [0; 9; 0]); (-1, [0; 0; 9])]%Z
           (Mask2 [[0; 1]; [-1; 7]]%Z)
           (Rgb3 [[[0; 0; 0]; [255; 0; 0]]; [[0; 0; 9]; [0; 0; 0]]]%Z)
           ltac:(intros z Hz; unfold to_uint8_strict;
                 by rewrite (proj2 (Z.leb_le 0 z)), (proj2 (Z.leb_le z 255)) by lia)
           ltac:(repeat constructor; lia)
           ltac:(vm_compute; reflexivity)
           1%nat 0%nat [-1; 7]%Z (-1)%Z);
    reflexivity.
Defined.

(** X24: with colours of three bytes, a call (not channels first) on a
    mask of shape [H, W] raises exactly when an index of the palette or a
    label of the mask lies outside [-256, 255]. *)
Theorem mask_to_rgb_raises_iff (to_uint8 : Z -> option Z)
    (palette : list (Z * list Z)) (m : list (list Z)) :
  (forall z, (0 <= z <= 255)%Z -> to_uint8 z = Some z) ->
  Forall (fun item => rgb_color item.2) palette ->
  mask_to_rgb to_uint8 (Mask2 m) palette false = None <->
  (exists (k : Z) (color : list Z),
     (k, color) ∈ palette /\ (k < -256 \/ 256 <= k)%Z) \/
  (exists (h w : nat) (row : list Z) (t : Z),
     m !! h = Some row /\ row !! w = Some t /\ (t < -256 \/ 256 <= t)%Z).
Proof.
  intros Hbyte Hvalid. unfold mask_to_rgb.
  destruct (build_lut to_uint8 lut_zeros palette) as [lut|] eqn:Eb.
  - assert (Hpal : ~ exists (k : Z) (color : list Z),
               (k, color) ∈ palette /\ (k < -256 \/ 256 <= k)%Z).
    { intros (k & color & Hin & Hk).
      assert (Hn : build_lut to_uint8 lut_zeros palette = None).
      { apply (build_lut_None to_uint8 Hbyte); [done|].
        apply Exists_exists. exists (k, color). split; [done|].
        cbn [fst]. apply py_index_None. lia. }
      congruence. }
    destruct (build_lut_content to_uint8 Hbyte _ _ _ Hvalid Eb) as [Hlen _].
    assert (Hidx : forall t, lut_index lut t = None <-> (t < -256 \/ 256 <= t)%Z).
    { intros t. unfold lut_index.
      destruct (py_index 256 t) as [i|] eqn:Et.
      - pose proof (py_index_Some _ _ _ Et) as (Hi & Hr & _).
        destruct (lookup_lt_is_Some_2 lut i) as [row Hrow].
        { rewrite Hlen. unfold lut_zeros. by rewrite length_replicate. }
        rewrite Hrow. split; [discriminate|lia].
      - split; [|done]. intros _. apply py_index_None in Et. lia. }
    destruct (mapM (mapM (lut_index lut)) m) as [out|] eqn:Em.
    + split; [discriminate|]. intros [Hp|(h & w & row & t & Hh & Hw & Ht)];
        [by destruct Hpal|].
      destruct (mapM_lookup _ _ _ _ _ Em Hh) as (line & _ & Erow).
      destruct (mapM_lookup _ _ _ _ _ Erow Hw) as (color & _ & Et).
      apply Hidx in Ht. congruence.
    + split; [|done]. intros _. right.
      apply mapM_None_1, Exists_exists in Em as (row & Hrow & Em).
      apply mapM_None_1, Exists_exists in Em as (t & Ht & Em).
      apply list_elem_of_lookup_1 in Hrow as [h Hh].
      apply list_elem_of_lookup_1 in Ht as [w Hw].
      apply Hidx in Em. by exists h, w, row, t.
  - split; [|done]. intros _. left.
    apply (build_lut_None to_uint8 Hbyte) in Eb; [|done].
    apply Exists_exists in Eb as ([k color] & Hin & Hk).
    cbn [fst] in Hk. apply py_index_None in Hk. exists k, color. split; [done|lia].
Qed.

Lemma mask_to_rgb_raises_iff_witness :
  mask_to_rgb to_uint8_strict (Mask2 [[0; 256]]%Z) [(1, [255; 0; 0])]%Z false
  = None.
Proof.
  apply (mask_to_rgb_raises_iff to_uint8_strict [(1, [255; 0; 0])]%Z
           [[0; 256]]%Z).
  - intros z Hz. unfold to_uint8_strict.
    by rewrite (proj2 (Z.leb_le 0 z)), (proj2 (Z.leb_le z 255)) by lia.
  - repeat constructor; lia.
  - right. exists 0%nat, 1%nat, [0; 256]%Z, 256%Z.
    split; [reflexivity|]. split; [reflexivity|]. lia.
Defined.


(** ** [compute_class_weights] in floating point: the returned weights *)

Section B64Weights.
Import B64.
Context {K : Type}.
Variable rnd : Q -> Q.
Hypothesis R : rounding rnd.

(** A call that returns on counts between 0 and [2^1022]: every weight is
    the float quotient of the largest value [M] by the class's own value
    [V n], rounded and clipped; the values are positive and grow with the
    count ([V] is the count itself when [smoothing] is 0, the smoothed
    count otherwise). *)
Lemma compute_bounded_Ok (counts : list (K * Z)) (s : Q) (clip : float64)
    (ws : list (K * float64)) :
  (forall n, n ∈ counts.*2 -> (0 <= n <= count_bound)%Z) ->
  rnd s == s -> 0 <= s -> s <= 1 ->
  (compute_class_weights rnd (ints counts) (Finite s) clip).2 = Ok ws ->
  exists (m : Z) (M : Q) (V : Z -> Q),
    m ∈ counts.*2 /\ (forall n, n ∈ counts.*2 -> (n <= m)%Z) /\
    M == V m /\
    (forall n, n ∈ counts.*2 -> 0 < V n) /\
    (forall n n', (0 <= n)%Z -> (n <= n')%Z -> V n <= V n') /\
    ws = (fun item => (item.1, round_clip rnd clip (fl rnd (M / V item.2))))
         <$> counts.
Proof.
  intros Hb Hrs Hs0 Hs1 Hws.
  assert (Hne : counts <> []).
  { intros ->.
    rewrite (compute_ints_empty rnd (Finite s) clip) in Hws; [done|].
    by apply in_unit_intro. }
  destruct (py_max_ints counts Hne) as (m & Hm & Hin & Hmax).
  pose proof (Hb m Hin) as Hbm.
  destruct (Qlt_le_dec 0 s) as [Hpos|Hle].
  - destruct (compute_smoothing rnd R counts s clip m Hb Hpos Hs1 Hm Hin Hmax)
      as (mj & Emj & _ & Hzero & Hok).
    assert (Hnz : forall n, n ∈ counts.*2 -> ~ smoothed_value rnd m s n == 0).
    { intros n Hn Hz. rewrite Hzero in Hws by eauto. discriminate. }
    rewrite (Hok Hnz) in Hws. injection Hws as <-.
    exists m, mj, (smoothed_value rnd m s).
    repeat split; try done.
    + intros n Hn. pose proof (Hb n Hn) as Hbn.
      pose proof (smoothed_value_bounds rnd R m n s Hbm Hbn Hs0 Hs1) as [H0 _].
      pose proof (Hnz n Hn). lra.
    + intros n n' Hn Hnn'.
      apply (smoothed_value_mono rnd R); [lia|lia|done|done|done].
  - assert (Hs : s == 0) by lra.
    destruct (compute_no_smoothing rnd R counts s clip m Hb Hs Hm Hin Hmax)
      as (_ & Hzero & Hok).
    assert (Hp : forall n, n ∈ counts.*2 -> (0 < n)%Z).
    { intros n Hn. pose proof (Hb n Hn).
      destruct (Z.eq_dec n 0%Z) as [->|]; [|lia].
      rewrite Hzero in Hws by eauto. discriminate. }
    rewrite (Hok Hp) in Hws. injection Hws as <-.
    exists m, (inject_Z m), inject_Z.
    repeat split; try done.
    + intros n Hn. change 0 with (inject_Z 0). rewrite <- Zlt_Qlt. by apply Hp.
    + intros n n' _ Hnn'. by rewrite <- Zle_Qle.
Qed.

(** Rounding and clipping keep a value between 0 and the clip value. *)
Lemma round_clip_range (clip x : float64) :
  x <> NaN -> fle (Finite 0) clip = true ->
  fle (Finite 0) (round_clip rnd clip x) = true /\
  fle (round_clip rnd clip x) clip = true.
Proof.
  intros Hx Hclip. unfold round_clip.
  pose proof (py_round2_not_NaN rnd x Hx) as Hy.
  destruct (py_round2 rnd x) as [y| | |]; [| | |done];
    destruct clip as [c| | |]; unfold np_clip; simpl in *; try done;
    repeat (destruct (Qlt_le_dec _ _); simpl);
    rewrite ?Qle_bool_iff in *; try done; lra.
Qed.

(** Rounding and clipping leave 1.0 as it is under a clip value of 1 or
    more. *)
Lemma round_clip_one (clip : float64) (q : Q) :
  q == 1 -> fle (Finite 1) clip = true ->
  exists q', round_clip rnd clip (Finite q) = Finite q' /\ q' == 1.
Proof.
  intros Hq Hclip. unfold round_clip. cbn [py_round2].
  assert (E : round_half_even (q * 100) = 100%Z).
  { rewrite (round_half_even_comp (q * 100) (inject_Z 100)).
    - apply round_half_even_Z.
    - rewrite Hq. reflexivity. }
  rewrite E.
  assert (H1 : 100 # 100 == 1) by reflexivity.
  assert (Hp : 1 <= pow2 1023).
  { rewrite <- pow2_0. apply pow2_le. lia. }
  rewrite (fl_finite rnd R (100 # 100)); [|lra|lra].
  assert (Hy : rnd (100 # 100) == 1).
  { rewrite (rnd_comp rnd R (100 # 100) 1); [|lra|done]. apply (rnd_one rnd R). }
  generalize dependent (rnd (100 # 100)). intros y Hy.
  destruct clip as [c| | |]; unfold np_clip; simpl in Hclip |- *; try done.
  - apply Qle_bool_iff in Hclip.
    destruct (Qlt_le_dec 0 y); [|lra]. cbn [flt].
    destruct (Qlt_le_dec y c).
    + exists y. split; [reflexivity|exact Hy].
    + exists c. split; [reflexivity|lra].
  - destruct (Qlt_le_dec 0 y); [|lra]. cbn [flt].
    exists y. split; [reflexivity|exact Hy].
Qed.

(** The float of a quotient that is at least 1 is at least 1.0. *)
Lemma fl_ge_one (x : Q) : 1 <= x -> fle (Finite 1) (fl rnd x) = true.
Proof.
  intros Hx.
  destruct (fl_nonneg rnd R x) as [->|[-> _]]; [lra|done|].
  simpl. apply Qle_bool_iff. by apply (rnd_ge_one rnd R).
Qed.

Lemma fle_not_NaN_r (x y : float64) : fle x y = true -> y <> NaN.
Proof. intros H ->. by destruct x. Qed.

(** X25: on [int] counts between 0 and [2^1022], with a clip value that is
    not negative, every weight of a call that returns lies between 0 and
    the clip value; in particular none is NaN. *)
Theorem compute_class_weights_float_range (counts : list (K * Z)) (s : Q)
    (clip : float64) (ws : list (K * float64)) (k : K) (w : float64) :
  (forall n, n ∈ counts.*2 -> (0 <= n <= count_bound)%Z) ->
  rnd s == s -> 0 <= s -> s <= 1 ->
  fle (Finite 0) clip = true ->
  (compute_class_weights rnd (ints counts) (Finite s) clip).2 = Ok ws ->
  (k, w) ∈ ws ->
  fle (Finite 0) w = true /\ fle w clip = true.
Proof.
  intros Hb Hrs Hs0 Hs1 Hclip Hws Hkw.
  destruct (compute_bounded_Ok counts s clip ws Hb Hrs Hs0 Hs1 Hws)
    as (m & M & V & _ & _ & _ & _ & _ & ->).
  apply list_elem_of_fmap in Hkw as ([k' n] & [= -> ->] & _).
  apply round_clip_range; [apply fl_not_NaN|done].
Qed.

(** X26: on [int] counts between 0 and [2^1022], with a clip value of 1 or
    more, a call that returns gives the weight 1.0 to every class whose
    count is the largest. *)
Theorem compute_class_weights_float_majority_one (counts : list (K * Z))
    (s : Q) (clip : float64) (ws : list (K * float64)) (i : nat) (k : K)
    (n : Z) :
  (forall n, n ∈ counts.*2 -> (0 <= n <= count_bound)%Z) ->
  rnd s == s -> 0 <= s -> s <= 1 ->
  fle (Finite 1) clip = true ->
  (compute_class_weights rnd (ints counts) (Finite s) clip).2 = Ok ws ->
  counts !! i = Some (k, n) ->
  (forall n', n' ∈ counts.*2 -> (n' <= n)%Z) ->
  exists q, ws !! i = Some (k, Finite q) /\ q == 1.
Proof.
  intros Hb Hrs Hs0 Hs1 Hclip Hws Hi Hmaxn.
  destruct (compute_bounded_Ok counts s clip ws Hb Hrs Hs0 Hs1 Hws)
    as (m & M & V & Hin & Hmax & EM & Hpos & Hmono & ->).
  assert (Hn : n ∈ counts.*2).
  { apply (elem_of_counts counts (k, n)). apply list_elem_of_lookup. eauto. }
  assert (n = m) as -> by (pose proof (Hmax n Hn); pose proof (Hmaxn m Hin); lia).
  pose proof (Hpos m Hin) as HV.
  assert (Hq : M / V m == 1).
  { rewrite EM. field. lra. }
  assert (Hp : 1 <= pow2 1023).
  { rewrite <- pow2_0. apply pow2_le. lia. }
  assert (Hr : rnd (M / V m) == 1).
  { rewrite (rnd_comp rnd R (M / V m) 1); [|lra|done]. apply (rnd_one rnd R). }
  destruct (round_clip_one clip (rnd (M / V m)) Hr Hclip) as (q' & Eq' & Hq').
  exists q'. split; [|done].
  rewrite list_lookup_fmap, Hi. cbn [fmap option_fmap option_map fst snd].
  rewrite (fl_finite rnd R (M / V m)); [|lra|lra].
  by rewrite Eq'.
Qed.

(** X27: on [int] counts between 0 and [2^1022], with a clip value of 1 or
    more, every weight of a call that returns is at least 1.0. *)
Theorem compute_class_weights_float_at_least_one (counts : list (K * Z))
    (s : Q) (clip : float64) (ws : list (K * float64)) (k : K) (w : float64) :
  (forall n, n ∈ counts.*2 -> (0 <= n <= count_bound)%Z) ->
  rnd s == s -> 0 <= s -> s <= 1 ->
  fle (Finite 1) clip = true ->
  (compute_class_weights rnd (ints counts) (Finite s) clip).2 = Ok ws ->
  (k, w) ∈ ws ->
  fle (Finite 1) w = true.
Proof.
  intros Hb Hrs Hs0 Hs1 Hclip Hws Hkw.
  destruct (compute_bounded_Ok counts s clip ws Hb Hrs Hs0 Hs1 Hws)
    as (m & M & V & Hin & Hmax & EM & Hpos & Hmono & ->).
  apply list_elem_of_fmap in Hkw as ([k' n] & [= -> ->] & Hitem).
  cbn [fst snd].
  pose proof (elem_of_counts _ _ Hitem) as Hn. cbn [snd] in Hn.
  pose proof (Hb n Hn) as Hbn. pose proof (Hmax n Hn) as Hnm.
  pose proof (Hpos n Hn) as HV.
  pose proof (Hmono n m ltac:(lia) Hnm) as HVm.
  assert (Hq : 1 <= M / V n).
  { apply Qle_shift_div_l; [done|]. lra. }
  destruct (round_clip_one clip 1 ltac:(reflexivity) Hclip) as (q' & Eq' & Hq').
  assert (Hnn : clip <> NaN) by (by apply fle_not_NaN_r in Hclip).
  destruct (round_clip_mono rnd R clip (Finite 1) (fl rnd (M / V n)))
    as [_ Hle]; [done|by apply fl_ge_one|].
  specialize (Hle Hnn). rewrite Eq' in Hle.
  apply (fle_trans (Finite 1) (Finite q')); [|done].
  simpl. apply Qle_bool_iff. lra.
Qed.

(** X28: on [int] counts between 0 and [2^1022], in a call that returns, a
    class with a count that is not larger has a weight that is not
    smaller. *)
Theorem compute_class_weights_float_rarer_heavier (counts : list (K * Z))
    (s : Q) (clip : float64) (ws : list (K * float64)) (i j : nat)
    (ki kj : K) (ni nj : Z) :
  (forall n, n ∈ counts.*2 -> (0 <= n <= count_bound)%Z) ->
  rnd s == s -> 0 <= s -> s <= 1 ->
  (compute_class_weights rnd (ints counts) (Finite s) clip).2 = Ok ws ->
  counts !! i = Some (ki, ni) -> counts !! j = Some (kj, nj) ->
  (ni <= nj)%Z ->
  exists wi wj,
    ws !! i = Some (ki, wi) /\ ws !! j = Some (kj, wj) /\
    flt wi wj = false /\ (clip <> NaN -> fle wj wi = true).
Proof.
  intros Hb Hrs Hs0 Hs1 Hws Hi Hj Hle.
  destruct (compute_bounded_Ok counts s clip ws Hb Hrs Hs0 Hs1 Hws)
    as (m & M & V & Hin & Hmax & EM & Hpos & Hmono & ->).
  assert (Hni : ni ∈ counts.*2).
  { apply (elem_of_counts counts (ki, ni)). apply list_elem_of_lookup. eauto. }
  assert (Hnj : nj ∈ counts.*2).
  { apply (elem_of_counts counts (kj, nj)). apply list_elem_of_lookup. eauto. }
  pose proof (Hb ni Hni) as Hbi.
  pose proof (Hpos ni Hni) as HVi. pose proof (Hpos nj Hnj) as HVj.
  pose proof (Hpos m Hin) as HVm.
  pose proof (Hmono ni nj ltac:(lia) Hle) as HVij.
  eexists _, _. rewrite !list_lookup_fmap, Hi, Hj.
  cbn [fmap option_fmap option_map fst snd].
  split; [reflexivity|]. split; [reflexivity|].
  assert (HM : 0 < M) by lra.
  assert (Hq0 : 0 <= M / V nj).
  { apply Qle_shift_div_l; lra. }
  assert (Hq : M / V nj <= M / V ni).
  { apply Qdiv_le_cross; [done|done|]. nra. }
  apply (round_clip_mono rnd R).
  - by apply (fl_nonneg_fle rnd R).
  - by apply (fl_mono rnd R).
Qed.

End B64Weights.

Local Open Scope string_scope.

Lemma binary64_half : B64.binary64 (1 # 2) == 1 # 2.
Proof. vm_compute. reflexivity. Qed.

Lemma compute_class_weights_float_range_witness :
  B64.fle (B64.Finite 0) (B64.Finite 3) = true /\
  B64.fle (B64.Finite 3) (B64.Finite 10) = true.
Proof.
  apply (compute_class_weights_float_range B64.binary64 binary64_rounding
           [("a", 4%Z); ("b", 0%Z)] (1 # 2) (B64.Finite 10)
           [("a", B64.Finite 1); ("b", B64.Finite 3)] "b").
  - intros n Hn. apply count_bound_large. by_cases_on_counts Hn.
  - exact binary64_half.
  - done.
  - done.
  - reflexivity.
  - vm_compute. reflexivity.
  - right. left.
Defined.

Lemma compute_class_weights_float_majority_one_witness :
  exists q,
    [("a", B64.Finite 1); ("b", B64.Finite 3)] !! 0%nat
    = Some ("a", B64.Finite q) /\ q == 1.
Proof.
  apply (compute_class_weights_float_majority_one B64.binary64
           binary64_rounding [("a", 4%Z); ("b", 0%Z)] (1 # 2)
           (B64.Finite 10) _ 0%nat "a" 4%Z).
  - intros n Hn. apply count_bound_large. by_cases_on_counts Hn.
  - exact binary64_half.
  - done.
  - done.
  - reflexivity.
  - vm_compute. reflexivity.
  - reflexivity.
  - intros n Hn. by_cases_on_counts Hn.
Defined.

Lemma compute_class_weights_float_at_least_one_witness :
  B64.fle (B64.Finite 1) (B64.Finite 3) = true.
Proof.
  apply (compute_class_weights_float_at_least_one B64.binary64
           binary64_rounding [("a", 4%Z); ("b", 0%Z)] (1 # 2)
           (B64.Finite 10) [("a", B64.Finite 1); ("b", B64.Finite 3)] "b").
  - intros n Hn. apply count_bound_large. by_cases_on_counts Hn.
  - exact binary64_half.
  - done.
  - done.
  - reflexivity.
  - vm_compute. reflexivity.
  - right. left.
Defined.

Lemma compute_class_weights_float_rarer_heavier_witness :
  exists wi wj,
    [("a", B64.Finite 1); ("b", B64.Finite 3)] !! 1%nat = Some ("b", wi) /\
    [("a", B64.Finite 1); ("b", B64.Finite 3)] !! 0%nat = Some ("a", wj) /\
    B64.flt wi wj = false /\ (B64.Finite 10 <> B64.NaN -> B64.fle wj wi = true).
Proof.
  apply (compute_class_weights_float_rarer_heavier B64.binary64
           binary64_rounding [("a", 4%Z); ("b", 0%Z)] (1 # 2)
           (B64.Finite 10) _ 1%nat 0%nat "b" "a" 0%Z 4%Z).
  - intros n Hn. apply count_bound_large. by_cases_on_counts Hn.
  - exact binary64_half.
  - done.
  - done.
  - vm_compute. reflexivity.
  - reflexivity.
  - reflexivity.
  - lia.
Defined.

Local Close Scope string_scope.
